(** * Human-buy: the quote engine, the sell-trigger policy, the sizing
    policy and the trading loop of [humanbuy], embedded from the
    JavaScript sources and checked against the specification; then the
    single trades with the calls they make, the choice of the wallets, the
    hot keys of [hotkeySell.js], [simpleBuy.js] and the menu entry that
    starts [humanbuy], with properties of the code itself.

    Conventions of the embedding.
    - [BN] values (bn.js big integers) are [Z]; [BN.div] raises on a zero
      divisor as bn.js does (an assertion failure), and truncates.
    - JavaScript numbers that hold counts, lengths and indices are [Z] or
      [nat].  SOL amounts and balances are doubles: a finite double is the
      rational [Q] it denotes, and the sizing policy and the balance check
      round every literal and every operation to the nearest double as
      binary64 arithmetic does ([Double]); where a number may be [NaN],
      infinite or [-0] it is a [number].  A value of [Math.random()] is a
      rational in [0, 1), which covers every double there.  The sell
      trigger policy, the delays and [simpleBuy.js] compute with exact
      rationals: they round their results to integers.
    - [Map] and [Set] objects whose iteration order the code observes are
      insertion-ordered lists; those only probed with [has]/[get] are
      [gset]/[gmap].
    - Network calls, the keyboard and [Math.random()] are inputs of the
      model (oracles); every function is total in them. *)

From Stdlib Require Import ZArith QArith Qround Qminmax Qabs Qpower Lia Lqa.
From stdpp Require Import base option list gmap strings sorting.

Local Open Scope Z_scope.
#[local] Set Warnings "-clear-no-such-hyp".

(** ** Results of code that may throw *)

Inductive result (A : Type) : Type :=
| Ok (a : A)
| Throw (msg : string).
Arguments Ok {A} a.
Arguments Throw {A} msg.

#[global] Instance result_ret : MRet result := fun _ a => Ok a.
#[global] Instance result_bind : MBind result := fun _ _ f m =>
  match m with
  | Ok a => f a
  | Throw e => Throw e
  end.

(** ** bn.js, as far as [buyQuote] uses it *)

Module BN.
Definition eq (a b : Z) : bool := a =? b.
Definition mul (a b : Z) : Z := a * b.
Definition add (a b : Z) : Z := a + b.
Definition sub (a b : Z) : Z := a - b.
(** [a.div(b)]: truncated quotient; bn.js asserts [!b.isZero()]. *)
Definition div (a b : Z) : result Z :=
  if b =? 0 then Throw "Assertion failed" else Ok (Z.quot a b).
(** [BN.min(a, b)]: [a] when [a.cmp(b) < 0], else [b]. *)
Definition min (a b : Z) : Z := if a <? b then a else b.
End BN.

(** ** Quote engine *)

(** The decoded bonding-curve account, [reserves] of [buyQuote]. *)
Record reserves : Type := mkReserves {
  virtualSolReserves : Z;
  virtualTokenReserves : Z;
  realTokenReserves : Z
}.

(** [buyQuote(solLamportsBN, reserves)]; a missing [reserves] object
    ([null]/[undefined]) is [None]. *)
Definition buyQuote (solLamportsBN : Z) (rs : option reserves) : result Z :=
  match BN.eq solLamportsBN 0, rs with
  | false, Some r =>
      let product := BN.mul (virtualSolReserves r) (virtualTokenReserves r) in
      let newSolReserves := BN.add (virtualSolReserves r) solLamportsBN in
      q ← BN.div product newSolReserves;
      let newTokenAmount := BN.add q 1 in
      let tokensToReceive := BN.sub (virtualTokenReserves r) newTokenAmount in
      let tokensToReceive := BN.min tokensToReceive (realTokenReserves r) in
      Ok tokensToReceive
  | _, _ => Ok 0
  end.

(** The formula of the specification, in its words:
    [out = virtualBase - ceil(virtualBase*virtualQuote / (virtualQuote+in))],
    clamped to [realBase]. *)
Definition ceil_div (a b : Z) : Z := - ((- a) / b).

Definition quoteBuy_spec (amount : Z) (r : reserves) : Z :=
  Z.min (virtualTokenReserves r
         - ceil_div (virtualTokenReserves r * virtualSolReserves r)
                    (virtualSolReserves r + amount))
        (realTokenReserves r).

(** A liquidity state as the data model has it: non-negative integers. *)
Definition valid_liquidity (r : reserves) : Prop :=
  0 <= virtualSolReserves r /\ 0 <= virtualTokenReserves r /\ 0 <= realTokenReserves r.

(** An example state: 30 SOL of virtual SOL reserve, 1.073e15 token units
    of virtual token reserve, 7.931e14 of real token reserve. *)
Definition pump_initial : reserves :=
  mkReserves 30000000000 1073000000000000 793100000000000.

(** ** JavaScript numbers and [Math] *)

Definition Qltb (a b : Q) : bool := negb (Qle_bool b a).

(** [Math.round(x)] is [floor(x + 0.5)]; [Math.floor(x)] is [floor(x)]. *)
Definition Math_round (x : Q) : Z := Qfloor (x + (1 # 2)).
Definition Math_floor (x : Q) : Z := Qfloor x.

(** One value of [Math.random()]: a rational in [0, 1), given by a numerator
    (reduced modulo the denominator) and a denominator. *)
Record draw : Type := mkDraw { d_num : N; d_den : positive }.

Definition draw_value (d : draw) : Q :=
  Z.of_N (d_num d mod Npos (d_den d)) # d_den d.

(** The random source: the stream of the values of the successive calls. *)
Definition rng : Type := nat -> draw.

Definition Math_random (g : rng) : Q * rng :=
  (draw_value (g 0%nat), fun n => g (S n)).

Definition rng_of_list (l : list draw) : rng :=
  fun n => nth n l (mkDraw 0 1).

(** ** Doubles *)

(** The finite values of a JavaScript number are the rationals
    [m * 2^e] with [|m| < 2^53] and [-1074 <= e <= 971].  The arithmetic
    of the language computes the exact result and rounds it to the nearest
    such value, to the one with the even [m] when two are equally near. *)
Module Double.

Definition pow2 (e : Z) : Q := (2 ^ e)%Q.

(** The integer nearest to [x], the even one of the two when [x] lies half
    way between them. *)
Definition nearest_even (x : Q) : Z :=
  let f := Qfloor x in
  match (x - inject_Z f ?= 1 # 2)%Q with
  | Lt => f
  | Gt => f + 1
  | Eq => if Z.even f then f else f + 1
  end.

(** [floor (log2 q)] for [0 < q]. *)
Definition ilog2 (q : Q) : Z :=
  let k := Z.log2 (Qnum q) - Z.log2 (Z.pos (Qden q)) in
  if Qle_bool (pow2 k) q then k else k - 1.

(** The exponent of the last place of the doubles around [q]: 52 binary
    places below the leading one, and not below that of the subnormal
    numbers. *)
Definition exponent (q : Q) : Z := Z.max (ilog2 q - 52) (-1074).

Definition round_pos (q : Q) : Q :=
  (inject_Z (nearest_even (q / pow2 (exponent q))) * pow2 (exponent q))%Q.

(** The double nearest to [q]: the value of a decimal literal, and the
    result of an operation whose exact result is [q].  It is finite while
    [|q| < 2^1024 - 2^970]. *)
Definition round (q : Q) : Q :=
  match Qnum q with
  | 0 => 0%Q
  | Z.pos _ => round_pos q
  | Z.neg _ => (- round_pos (- q))%Q
  end.

(** [a + b], [a - b], [a * b] and [a / b] on finite doubles, where the
    result is finite. *)
Definition add (a b : Q) : Q := round (a + b).
Definition sub (a b : Q) : Q := round (a - b).
Definition mul (a b : Q) : Q := round (a * b).
Definition div (a b : Q) : Q := round (a / b).

End Double.

(** A JavaScript number that need not be finite: a finite double, given by
    its value (zero is [+0]); [-0]; an infinity; or [NaN]. *)
Inductive number : Type :=
| Finite (q : Q)
| NegZero
| Infinity (negative : bool)
| NaN.

Module JsNumber.

Definition value (x : number) : Q :=
  match x with Finite q => q | _ => 0%Q end.

Definition is_zero (x : number) : bool :=
  match x with Finite q => Qeq_bool q 0 | NegZero => true | _ => false end.


(** The sign bit. *)
Definition sign (x : number) : bool :=
  match x with
  | Finite q => Qltb q 0
  | NegZero => true
  | Infinity negative => negative
  | NaN => false
  end.

Definition zero (negative : bool) : number :=
  if negative then NegZero else Finite 0.

(** The number an exact non-zero result [q] is rounded to: an infinity
    from [2^1024 - 2^970] on, a zero of the sign of [q] up to half the
    least subnormal number. *)
Definition of_Q (q : Q) : number :=
  let r := Double.round q in
  if Qle_bool (Double.pow2 1024) (Qabs r) then Infinity (Qltb q 0)
  else if Qeq_bool r 0 then zero (Qltb q 0)
  else Finite r.

(** [x * y]. *)
Definition mul (x y : number) : number :=
  match x, y with
  | NaN, _ | _, NaN => NaN
  | Infinity s, _ => if is_zero y then NaN else Infinity (xorb s (sign y))
  | _, Infinity s => if is_zero x then NaN else Infinity (xorb (sign x) s)
  | _, _ =>
      if is_zero x || is_zero y then zero (xorb (sign x) (sign y))
      else of_Q (value x * value y)
  end.

(** [x / y]. *)
Definition div (x y : number) : number :=
  match x, y with
  | NaN, _ | _, NaN => NaN
  | Infinity _, Infinity _ => NaN
  | Infinity s, _ => Infinity (xorb s (sign y))
  | _, Infinity s => zero (xorb (sign x) s)
  | _, _ =>
      if is_zero y then
        if is_zero x then NaN else Infinity (xorb (sign x) (sign y))
      else if is_zero x then zero (xorb (sign x) (sign y))
      else of_Q (value x / value y)
  end.

(** [x < y], [x <= y] and [x >= y]: [false] when either is [NaN]; the two
    zeros are equal. *)
Definition ltb (x y : number) : bool :=
  match x, y with
  | NaN, _ | _, NaN => false
  | Infinity true, Infinity true => false
  | Infinity true, _ => true
  | _, Infinity true => false
  | Infinity false, _ => false
  | _, Infinity false => true
  | _, _ => Qltb (value x) (value y)
  end.

Definition leb (x y : number) : bool :=
  match x, y with
  | NaN, _ | _, NaN => false
  | _, _ => negb (ltb y x)
  end.

Definition geb (x y : number) : bool := leb y x.

(** [Math.min(x, y)] and [Math.max(x, y)]: [NaN] when either is [NaN];
    [-0] counts as less than [+0]. *)
Definition min (x y : number) : number :=
  match x, y with
  | NaN, _ | _, NaN => NaN
  | _, _ =>
      if ltb y x then y else if ltb x y then x else if sign x then x else y
  end.

Definition max (x y : number) : number :=
  match x, y with
  | NaN, _ | _, NaN => NaN
  | _, _ =>
      if ltb x y then y else if ltb y x then x else if sign x then y else x
  end.

(** [Math.floor(x)]. *)
Definition floor (x : number) : number :=
  match x with
  | Finite q => Finite (inject_Z (Qfloor q))
  | _ => x
  end.

End JsNumber.

(** ** Sell trigger policy *)

(** [determineNextSellPoint()]: number of buys before the next sell. *)
Definition determineNextSellPoint (g : rng) : Z * rng :=
  let min := 4 in
  let max := 17 in
  let avg := 7.37%Q in
  let '(rand, g) := Math_random g in
  let '(buyCount, g) :=
    if Qltb rand 0.7 then
      let '(r, g) := Math_random g in
      (Math_round (avg - 2 + r * 4), g)
    else if Qltb rand 0.9 then
      let '(c, g) := Math_random g in
      if Qltb c 0.5 then
        let '(r, g) := Math_random g in
        (Math_round (inject_Z min + r * (avg - inject_Z min - 2)), g)
      else
        let '(r, g) := Math_random g in
        (Math_round ((avg + 2) + r * (inject_Z max - avg - 2)), g)
    else
      let '(c, g) := Math_random g in
      if Qltb c 0.5 then (min, g) else (max, g) in
  (Z.max min (Z.min max buyCount), g).

(** [determineConsecutiveSells(availableWallets)]. *)
Definition determineConsecutiveSells (availableWallets : Z) (g : rng) : Z * rng :=
  let maxPossible := Z.min 7 availableWallets in
  if maxPossible <=? 1 then (1, g)
  else
    let min := 1 in
    let avg := 2.95%Q in
    let '(rand, g) := Math_random g in
    let '(sellCount, g) :=
      if Qltb rand 0.65 then
        let '(r, g) := Math_random g in
        (Math_round (avg - 1 + r * 2), g)
      else if Qltb rand 0.9 then
        let '(c, g) := Math_random g in
        if Qltb c 0.4 then
          let '(r, g) := Math_random g in
          (Math_round (inject_Z min + r * (avg - inject_Z min - 1)), g)
        else
          let '(r, g) := Math_random g in
          (Math_round ((avg + 1) + r * (inject_Z maxPossible - avg - 1)), g)
      else
        let '(c, g) := Math_random g in
        if Qltb c 0.3 then (min, g) else (maxPossible, g) in
    (Z.max min (Z.min maxPossible sellCount), g).

(** [getRandomSellDelay()], in milliseconds. *)
Definition getRandomSellDelay (g : rng) : Z * rng :=
  let '(r, g) := Math_random g in
  (650 + Math_floor (r * 1350), g).

(** ** Sizing policy *)

(** The percentage [calculateDirectBuyAmount] draws for a balance. *)
Definition buyPercentage (effectiveBalance r : Q) : Q :=
  if Qltb 5 effectiveBalance
  then Double.add (Double.round 0.4) (Double.mul r (Double.round 0.2))
  else if Qltb 1 effectiveBalance
  then Double.add 0.5 (Double.mul r (Double.round 0.2))
  else Double.add (Double.round 0.6) (Double.mul r (Double.round 0.2)).

(** [Math.floor(buyAmount * 1000000) / 1000000]. *)
Definition floor6 (buyAmount : Q) : Q :=
  Double.div (inject_Z (Math_floor (Double.mul buyAmount 1000000))) 1000000.

(** [calculateDirectBuyAmount(effectiveBalance)], for the finite positive
    balances it is called with. *)
Definition calculateDirectBuyAmount (effectiveBalance : Q) (g : rng) : Q * rng :=
  let '(r, g) := Math_random g in
  let buyPercentage := buyPercentage effectiveBalance r in
  let buyAmount := Double.mul effectiveBalance buyPercentage in
  let buyAmount := Qmin buyAmount 5.0 in
  let buyAmount :=
    Qmax buyAmount (Qmin (Double.round 0.1)
                         (Double.mul effectiveBalance (Double.round 0.9))) in
  (floor6 buyAmount, g).

(** What one call of [calculateDynamicBuyAmount] sees of the chain:
    the wallet balance in SOL that [checkWalletBalance] reports (a finite
    double; 0 on an RPC error), the bonding-curve account ([None]: the
    fetch failed or the account has no data; [Some (Throw _)]:
    [deserialize] threw) and the estimate of [humanBuyAmount] for the test
    amount, any number ([Throw]: it threw, or its value has no
    [toFixed]). *)
Record chainView : Type := mkChainView {
  cv_balance : Q;
  cv_curve : option (result reserves);
  cv_estimate : result number
}.

(** [Math.max(0, walletBalance - 0.05)] of [calculateDynamicBuyAmount]. *)
Definition effectiveBalance (walletBalance : Q) : Q :=
  Qmax 0 (Double.sub walletBalance (Double.round 0.05)).

(** [suggestedAmount] of [calculateDynamicBuyAmount], from the estimate. *)
Definition suggestedAmount (effectiveBalance : Q) (estimatedTokens : number) : number :=
  let testSolAmount := Qmin 1.0 (Double.mul effectiveBalance 0.5) in
  let ratio := JsNumber.div estimatedTokens (Finite testSolAmount) in
  let MAX_TARGET_TOKENS := Finite 29000000 in
  let maxSolForTarget := JsNumber.div MAX_TARGET_TOKENS ratio in
  let suggestedAmount :=
    JsNumber.min
      (JsNumber.min (Finite (Double.mul effectiveBalance (Double.round 0.7)))
                    maxSolForTarget)
      (Finite 5.0) in
  JsNumber.max suggestedAmount (Finite (Double.round 0.1)).

(** [calculateDynamicBuyAmount(connection, wallet, ...)].  [toNumber()] of
    bn.js throws above 53 bits; an estimate that is [NaN] makes every
    later value [NaN], through [Math.min] and [Math.max].  The outer
    [catch] is not reachable: every throwing call sits in one of the inner
    [try] blocks. *)
Definition calculateDynamicBuyAmount (v : chainView) (g : rng) : number * rng :=
  let walletBalance := cv_balance v in
  let effectiveBalance := effectiveBalance walletBalance in
  if Qle_bool effectiveBalance 0 then (Finite 0, g)
  else
    let direct :=
      let '(buyAmount, g) := calculateDirectBuyAmount effectiveBalance g in
      (Finite buyAmount, g) in
    match cv_curve v with
    | None => direct
    | Some (Throw _) => direct
    | Some (Ok reservesDecoded) =>
        if 2 ^ 53 <=? Z.abs (realTokenReserves reservesDecoded)
        then direct
        else
          let realTokenReserves :=
            Double.div (inject_Z (realTokenReserves reservesDecoded)) 1000000 in
          if Qltb realTokenReserves 1.0
          then (Finite (Qmin (Double.round 0.2) (Double.mul effectiveBalance 0.5)), g)
          else
            match cv_estimate v with
            | Throw _ => direct
            | Ok estimatedTokens => (suggestedAmount effectiveBalance estimatedTokens, g)
            end
    end.

(** ** Wallet ledger *)

(** An entry of [selectedWallets] or of [walletCycle].  [wi_rebuy] is
    [None] for the entries built from the wallet list and [Some c] for the
    entries the rebuy refresh pushes with [isRebuy: true, rebuyCount: c].
    The fields [buyAmount] and [originalAmount] are written by the loop and
    read by log lines only; they are left out. *)
Record walletInfo : Type := mkWalletInfo {
  wi_pubKey : string;
  wi_index : Z;
  wi_rebuy : option Z
}.

(** A value of the [successfulBuyWallets] map. *)
Record holding : Type := mkHolding {
  h_pubKey : string;
  h_walletIndex : Z;
  h_tokenAccountPubKey : option string;
  h_balance : option string
}.

(** A JavaScript [Map] with string keys: entries in insertion order. *)
Module JsMap.
Section Ops.
Context {V : Type}.

Fixpoint get (k : string) (m : list (string * V)) : option V :=
  match m with
  | [] => None
  | (k', v) :: m => if decide (k' = k) then Some v else get k m
  end.

Definition has (k : string) (m : list (string * V)) : bool :=
  bool_decide (is_Some (get k m)).

(** [set] keeps the position of a key that is already present. *)
Fixpoint set (k : string) (v : V) (m : list (string * V)) : list (string * V) :=
  match m with
  | [] => [(k, v)]
  | (k', v') :: m =>
      if decide (k' = k) then (k, v) :: m else (k', v') :: set k v m
  end.

Definition delete (k : string) (m : list (string * V)) : list (string * V) :=
  filter (fun kv => kv.1 <> k) m.

Definition size (m : list (string * V)) : Z := Z.of_nat (length m).
End Ops.
End JsMap.

(** A JavaScript [Set] of strings: elements in insertion order. *)
Module JsSet.
Definition has (k : string) (s : list string) : bool := bool_decide (k ∈ s).
Definition add (k : string) (s : list string) : list string :=
  if decide (k ∈ s) then s else s ++ [k].
End JsSet.

(** The two containers the sell functions receive and mutate. *)
Record ledger : Type := mkLedger {
  successfulBuyWallets : list (string * holding);
  usedSellWallets : list string
}.

(** What the run does that the outside can see. *)
Inductive event : Type :=
| EvPausePoll (paused : bool)
| EvSleep (ms : Z)
| EvBuy (pubKey : string) (amount : number) (sent : bool)
| EvSell (pubKey : string) (sent : bool).

(** How [executeWalletSell] ends: [true] once [sendTransaction] answered
    within the timeout, [false] on each of its failure paths. *)
Inductive sellOutcome : Type := SellSent | SellFailed.

(** [executeWalletSell(..., selectedWalletInfo)]: every path adds the wallet
    to [usedSellWallets]; the successful one also deletes it from
    [successfulBuyWallets]. *)
Definition executeWalletSell (l : ledger) (selectedWalletInfo : holding)
    (out : sellOutcome) : bool * ledger :=
  let pubKey := h_pubKey selectedWalletInfo in
  match out with
  | SellSent =>
      (true, mkLedger (JsMap.delete pubKey (successfulBuyWallets l))
                      (JsSet.add pubKey (usedSellWallets l)))
  | SellFailed =>
      (false, mkLedger (successfulBuyWallets l)
                       (JsSet.add pubKey (usedSellWallets l)))
  end.

(** The [filter] of [executeSessionSell], on one key. *)
Definition sellFilter (l : ledger) (lastUsedWalletPubKey : option string)
    (pubKey : string) : Prop :=
  (pubKey ∉ usedSellWallets l) ∧
  ¬ (lastUsedWalletPubKey = Some pubKey ∧ 1 < JsMap.size (successfulBuyWallets l)).

#[global] Instance sellFilter_dec l last pubKey : Decision (sellFilter l last pubKey).
Proof. unfold sellFilter. apply _. Defined.

(** [eligibleWallets] of [executeSessionSell]. *)
Definition eligibleWallets (l : ledger) (lastUsedWalletPubKey : option string)
    : list holding :=
  snd <$> filter (fun kv => sellFilter l lastUsedWalletPubKey kv.1)
                 (successfulBuyWallets l).

(** What [executeSessionSell] returns: the object [{success, wallet}] of
    its ordinary paths, or the bare boolean its fallback path returns. *)
Inductive sellRet : Type :=
| RetObject (success : bool) (wallet : option string)
| RetBoolean (b : bool).

(** [sellResult.success] and [sellResult.wallet]; a property read on a
    boolean is [undefined]. *)
Definition ret_success (r : sellRet) : bool :=
  match r with RetObject s _ => s | RetBoolean _ => false end.
Definition ret_wallet (r : sellRet) : option string :=
  match r with RetObject _ w => w | RetBoolean _ => None end.

(** Truthiness of a string-or-null. *)
Definition truthy (k : option string) : bool :=
  match k with
  | Some k => negb (bool_decide (k = ""%string))
  | None => false
  end.

(** [executeSessionSell(..., lastUsedWalletPubKey)].  The two [None]
    branches of the lookups cannot be taken ([Map.has] held, and the index
    is below the length); JavaScript would raise a [TypeError] there. *)
Definition executeSessionSell (l : ledger) (lastUsedWalletPubKey : option string)
    (out : sellOutcome) (g : rng) : sellRet * ledger * rng * list event :=
  let eligible := eligibleWallets l lastUsedWalletPubKey in
  if decide (length eligible = 0%nat) then
    if truthy lastUsedWalletPubKey
       && JsMap.has (default ""%string lastUsedWalletPubKey) (successfulBuyWallets l)
       && negb (JsSet.has (default ""%string lastUsedWalletPubKey) (usedSellWallets l))
    then
      match JsMap.get (default ""%string lastUsedWalletPubKey) (successfulBuyWallets l) with
      | Some lastWalletInfo =>
          let '(b, l) := executeWalletSell l lastWalletInfo out in
          (RetBoolean b, l, g, [EvSell (h_pubKey lastWalletInfo) b])
      | None => (RetObject false None, l, g, [])
      end
    else (RetObject false None, l, g, [])
  else
    let '(r, g) := Math_random g in
    let randomIndex := Math_floor (r * inject_Z (Z.of_nat (length eligible))) in
    match eligible !! Z.to_nat randomIndex with
    | Some selectedWalletInfo =>
        let '(result, l) := executeWalletSell l selectedWalletInfo out in
        (RetObject result
           (if result then Some (h_pubKey selectedWalletInfo) else None),
         l, g, [EvSell (h_pubKey selectedWalletInfo) result])
    | None => (RetObject false None, l, g, [])
    end.

(** The [for] loop of [executeSessionSells], [remaining] iterations from
    index [i] on; [outs i] is how the sell of iteration [i] ends. *)
Fixpoint sellLoop (remaining : nat) (i : nat) (l : ledger)
    (lastSellWallet : option string) (successfulSells : Z)
    (outs : nat -> sellOutcome) (g : rng) : Z * ledger * rng * list event :=
  match remaining with
  | O => (successfulSells, l, g, [])
  | S remaining =>
      let '(sellResult, l, g, ev) :=
        executeSessionSell l lastSellWallet (outs i) g in
      if ret_success sellResult then
        let successfulSells := successfulSells + 1 in
        let lastSellWallet := ret_wallet sellResult in
        let '(delay, g) :=
          match remaining with
          | O => ([], g)
          | S _ => let '(ms, g) := getRandomSellDelay g in ([EvSleep ms], g)
          end in
        let '(count, l, g, evs) :=
          sellLoop remaining (S i) l lastSellWallet successfulSells outs g in
        (count, l, g, ev ++ delay ++ evs)
      else (successfulSells, l, g, ev)
  end.

Record sellsResult : Type := mkSellsResult { sr_success : bool; sr_count : Z }.

(** [availableWalletCount] of [executeSessionSells]. *)
Definition availableWalletCount (l : ledger) : Z :=
  Z.of_nat (length (filter (fun kv : string * holding => kv.1 ∉ usedSellWallets l)
                           (successfulBuyWallets l))).

(** [executeSessionSells(..., lastUsedWalletPubKey)]. *)
Definition executeSessionSells (l : ledger) (lastUsedWalletPubKey : option string)
    (outs : nat -> sellOutcome) (g : rng) : sellsResult * ledger * rng * list event :=
  if availableWalletCount l =? 0 then (mkSellsResult false 0, l, g, [])
  else
    let '(consecutiveSellCount, g) :=
      determineConsecutiveSells (availableWalletCount l) g in
    let '(successfulSells, l, g, evs) :=
      sellLoop (Z.to_nat consecutiveSellCount) 0 l lastUsedWalletPubKey 0 outs g in
    (mkSellsResult (0 <? successfulSells) successfulSells, l, g, evs).

(** ** Trade scheduler: the loop of [humanbuy] *)

(** The arguments of [humanbuy] the loop reads: the delay band in
    milliseconds and the wallets chosen by [selectWalletsForTrading]
    (public key and 1-based index). *)
Record config : Type := mkConfig {
  minDelay : Z;
  maxDelay : Z;
  selected : list (string * Z)
}.

Definition selectedWallets (cfg : config) : list walletInfo :=
  (fun w => mkWalletInfo w.1 w.2 None) <$> selected cfg.

Definition MAX_REBUY_COUNT : Z := 10.

(** The tracking variables of [humanbuy]. *)
Record session : Type := mkSession {
  walletCycle : list walletInfo;
  walletCyclePosition : nat;
  buyCounter : Z;
  skippedWallets : Z;
  books : ledger;
  rebuyCountMap : gmap string Z;
  blacklistedWallets : gset string;
  buysUntilNextSell : Z
}.

Definition with_cycle (c : list walletInfo) (p : nat) (s : session) : session :=
  mkSession c p (buyCounter s) (skippedWallets s) (books s)
            (rebuyCountMap s) (blacklistedWallets s) (buysUntilNextSell s).
Definition with_buyCounter (n : Z) (s : session) : session :=
  mkSession (walletCycle s) (walletCyclePosition s) n (skippedWallets s) (books s)
            (rebuyCountMap s) (blacklistedWallets s) (buysUntilNextSell s).
Definition with_skippedWallets (n : Z) (s : session) : session :=
  mkSession (walletCycle s) (walletCyclePosition s) (buyCounter s) n (books s)
            (rebuyCountMap s) (blacklistedWallets s) (buysUntilNextSell s).
Definition with_books (l : ledger) (s : session) : session :=
  mkSession (walletCycle s) (walletCyclePosition s) (buyCounter s) (skippedWallets s) l
            (rebuyCountMap s) (blacklistedWallets s) (buysUntilNextSell s).
Definition with_rebuyCountMap (m : gmap string Z) (s : session) : session :=
  mkSession (walletCycle s) (walletCyclePosition s) (buyCounter s) (skippedWallets s)
            (books s) m (blacklistedWallets s) (buysUntilNextSell s).
Definition with_blacklistedWallets (b : gset string) (s : session) : session :=
  mkSession (walletCycle s) (walletCyclePosition s) (buyCounter s) (skippedWallets s)
            (books s) (rebuyCountMap s) b (buysUntilNextSell s).
Definition with_buysUntilNextSell (n : Z) (s : session) : session :=
  mkSession (walletCycle s) (walletCyclePosition s) (buyCounter s) (skippedWallets s)
            (books s) (rebuyCountMap s) (blacklistedWallets s) n.

(** [rebuyCountMap.get(pubKey) || 0]. *)
Definition rebuyCountOf (m : gmap string Z) (pubKey : string) : Z :=
  default 0 (m !! pubKey).

(** How [executeBuy] ends: a signature was obtained (with the token account
    and balance when they could be read), it answered [{success: false}],
    or the [try] block of the iteration threw before it returned. *)
Inductive buyOutcome : Type :=
| BuySent (tokenAccountPubKey : option string) (tokenBalance : option string)
| BuyFailed
| BuyThrew.

(** The inputs of one iteration of the loop.  [o_pausedReads] is the number
    of times the wait loop reads [isPaused] as [true] before it reads
    [false]; [o_shuffle] decides the outcome of the random sort. *)
Record oracle : Type := mkOracle {
  o_pausedReads : nat;
  o_rebuyView : string -> chainView;
  o_shuffle : list nat;
  o_balance : Q;
  o_view : chainView;
  o_buy : buyOutcome;
  o_sells : nat -> sellOutcome;
  o_rng : rng
}.

(** [while (isPaused) { await sleep(1000) }]: the polls of an iteration whose
    wait ends.  While the flag is never cleared the loop stays here and
    the iteration does nothing else. *)
Fixpoint pauseWait (pausedReads : nat) : list event :=
  match pausedReads with
  | O => [EvPausePoll false]
  | S n => EvPausePoll true :: EvSleep 1000 :: pauseWait n
  end.

(** [walletCycle.sort(() => Math.random() - 0.5)]: some rearrangement of the
    same entries; the picks choose which. *)
Fixpoint shuffle {A : Type} (picks : list nat) (l : list A) : list A :=
  match picks with
  | [] => l
  | p :: picks =>
      match l !! (p mod length l)%nat with
      | Some x => x :: shuffle picks (delete (p mod length l)%nat l)
      | None => l
      end
  end.

(** The [for (const pubKey of usedSellWallets)] loop of the refresh, over
    the keys still to visit. *)
Fixpoint refreshCycle (cfg : config) (counts : gmap string Z)
    (views : string -> chainView) (keys : list string)
    (walletCycle : list walletInfo) (blacklistedWallets : gset string) (g : rng)
    : list walletInfo * gset string * rng :=
  match keys with
  | [] => (walletCycle, blacklistedWallets, g)
  | pubKey :: keys =>
      if decide (pubKey ∈ blacklistedWallets)
      then refreshCycle cfg counts views keys walletCycle blacklistedWallets g
      else
        match List.find (fun w => bool_decide (wi_pubKey w = pubKey))
                        (selectedWallets cfg) with
        | None => refreshCycle cfg counts views keys walletCycle blacklistedWallets g
        | Some originalWalletInfo =>
            let rebuyCount := rebuyCountOf counts pubKey in
            if MAX_REBUY_COUNT <=? rebuyCount
            then refreshCycle cfg counts views keys walletCycle
                              ({[pubKey]} ∪ blacklistedWallets) g
            else
              let '(newAmount, g) := calculateDynamicBuyAmount (views pubKey) g in
              if JsNumber.ltb newAmount (Finite (Double.round 0.01))
              then refreshCycle cfg counts views keys walletCycle
                                ({[pubKey]} ∪ blacklistedWallets) g
              else refreshCycle cfg counts views keys
                     (walletCycle ++
                        [mkWalletInfo (wi_pubKey originalWalletInfo)
                                      (wi_index originalWalletInfo)
                                      (Some (rebuyCount + 1))])
                     blacklistedWallets g
        end
  end.

(** The bookkeeping of a successful buy. *)
Definition recordBuy (walletInfo : walletInfo) (tokenAccountPubKey tokenBalance : option string)
    (s : session) : session :=
  let s := with_buyCounter (buyCounter s + 1) s in
  let s :=
    match wi_rebuy walletInfo with
    | Some rebuyCount =>
        with_rebuyCountMap (<[wi_pubKey walletInfo := rebuyCount]> (rebuyCountMap s)) s
    | None => s
    end in
  with_books
    (mkLedger
       (JsMap.set (wi_pubKey walletInfo)
          (mkHolding (wi_pubKey walletInfo) (wi_index walletInfo)
                     tokenAccountPubKey tokenBalance)
          (successfulBuyWallets (books s)))
       (usedSellWallets (books s))) s.

(** [if (buyCounter >= buysUntilNextSell) { ... }] after a buy. *)
Definition sellTrigger (walletInfo : walletInfo) (outs : nat -> sellOutcome)
    (s : session) (g : rng) : session * rng * list event :=
  if buysUntilNextSell s <=? buyCounter s then
    let '(sellResult, l, g, evs) :=
      executeSessionSells (books s) (Some (wi_pubKey walletInfo)) outs g in
    let s := with_books l s in
    if sr_success sellResult then
      let '(nextSellAfter, g) := determineNextSellPoint g in
      (with_buysUntilNextSell (buyCounter s + nextSellAfter) s, g, evs)
    else
      let '(r, g) := Math_random g in
      let nextAttempt := 2 + Math_floor (r * 3) in
      (with_buysUntilNextSell (buyCounter s + nextAttempt) s, g, evs)
  else (s, g, []).

Inductive tickResult : Type :=
| Continue (s : session) (trace : list event)
| Stop (s : session) (trace : list event).

Definition tick_state (r : tickResult) : session :=
  match r with Continue s _ | Stop s _ => s end.
Definition tick_trace (r : tickResult) : list event :=
  match r with Continue _ t | Stop _ t => t end.

(** The refresh at the top of the loop body: [None] is the [break]. *)
Definition refresh (cfg : config) (o : oracle) (s : session) (g : rng)
    : session * option rng :=
  if decide (length (walletCycle s) <= walletCyclePosition s)%nat then
    let '(cycle, blacklisted, g) :=
      refreshCycle cfg (rebuyCountMap s) (o_rebuyView o)
                   (usedSellWallets (books s)) [] (blacklistedWallets s) g in
    let s := with_blacklistedWallets blacklisted s in
    if decide (length cycle = 0%nat)
    then (with_cycle [] (walletCyclePosition s) s, None)
    else (with_cycle (shuffle (o_shuffle o) cycle) 0 s, Some g)
  else (s, Some g).

(** One iteration of [while (true)].  [Stop] is the [break] of the refresh;
    reading past the end of [walletCycle] would be a fatal [TypeError] and
    also ends the run (it cannot happen after the refresh). *)
Definition tick (cfg : config) (o : oracle) (s : session) : tickResult :=
  let polls := pauseWait (o_pausedReads o) in
  match refresh cfg o s (o_rng o) with
  | (s, None) => Stop s polls
  | (s, Some g) =>
      match walletCycle s !! walletCyclePosition s with
      | None => Stop s polls
      | Some walletInfo =>
          let s := with_cycle (walletCycle s) (S (walletCyclePosition s)) s in
          let '(r, g) := Math_random g in
          let randomDelay :=
            Math_round (inject_Z (minDelay cfg)
                        + r * (inject_Z (maxDelay cfg) - inject_Z (minDelay cfg))) in
          let tr := polls ++ [EvSleep randomDelay] in
          if Qle_bool (o_balance o) (Double.round 0.05)
          then Continue (with_skippedWallets (skippedWallets s + 1) s) tr
          else
            let '(calculatedBuyAmount, g) := calculateDynamicBuyAmount (o_view o) g in
            match o_buy o with
            | BuySent tokenAccountPubKey tokenBalance =>
                let s := recordBuy walletInfo tokenAccountPubKey tokenBalance s in
                let '(s, g, evs) := sellTrigger walletInfo (o_sells o) s g in
                Continue s (tr ++ EvBuy (wi_pubKey walletInfo) calculatedBuyAmount true :: evs)
            | BuyFailed =>
                Continue (with_skippedWallets (skippedWallets s + 1) s)
                         (tr ++ [EvBuy (wi_pubKey walletInfo) calculatedBuyAmount false])
            | BuyThrew =>
                Continue (with_skippedWallets (skippedWallets s + 1) s) tr
            end
      end
  end.

(** The state before the first iteration; the first sell point is drawn
    there. *)
Definition initSession (cfg : config) (g : rng) : session :=
  mkSession (selectedWallets cfg) 0 0 0 (mkLedger [] []) ∅ ∅
            (0 + (determineNextSellPoint g).1).

(** The loop, fed one oracle per iteration. *)
Fixpoint run (cfg : config) (os : list oracle) (s : session) : tickResult :=
  match os with
  | [] => Continue s []
  | o :: os =>
      match tick cfg o s with
      | Continue s' tr =>
          match run cfg os s' with
          | Continue s'' tr' => Continue s'' (tr ++ tr')
          | Stop s'' tr' => Stop s'' (tr ++ tr')
          end
      | Stop s' tr => Stop s' tr
      end
  end.

(** The states the loop passes through or ends in. *)
Definition reachable (cfg : config) (s : session) : Prop :=
  exists g os, tick_state (run cfg os (initSession cfg g)) = s.

(** ** Notions used by the statements and the proofs *)

(** Well-formed containers: the keys of the map are distinct, each entry is
    filed under the public key of its wallet, and the set has no
    duplicates. *)
Definition ledger_wf (l : ledger) : Prop :=
  NoDup (successfulBuyWallets l).*1 /\
  Forall (fun kv => h_pubKey kv.2 = kv.1) (successfulBuyWallets l) /\
  NoDup (usedSellWallets l).

(** The public keys [executeSessionSell] may pick from. *)
Definition eligibleKeys (l : ledger) (lastUsedWalletPubKey : option string)
    : list string :=
  h_pubKey <$> eligibleWallets l lastUsedWalletPubKey.

(** A wallet that holds tokens and has not been used for a sell. *)
Definition sellable (l : ledger) (pubKey : string) : Prop :=
  pubKey ∈ (successfulBuyWallets l).*1 /\ pubKey ∉ usedSellWallets l.

Definition is_poll (e : event) : bool :=
  match e with EvPausePoll _ => true | _ => false end.
Definition is_trade (e : event) : bool :=
  match e with EvBuy _ _ _ | EvSell _ _ => true | _ => false end.

(** How a ledger may change while sells run: wallets are only added to
    [usedSellWallets] and only removed from [successfulBuyWallets]. *)
Definition sells_only (l l' : ledger) : Prop :=
  (forall k, k ∈ usedSellWallets l -> k ∈ usedSellWallets l') /\
  (forall kv, kv ∈ successfulBuyWallets l' -> kv ∈ successfulBuyWallets l).

(** The events of sells: sells and the sleeps between them. *)
Definition sell_event (e : event) : Prop :=
  match e with EvSell _ _ | EvSleep _ => True | _ => False end.

(** The entries of the current cycle that are still to be processed. *)
Definition remainingCycle (s : session) : list walletInfo :=
  drop (walletCyclePosition s) (walletCycle s).

Definition rebuyCount (s : session) (pubKey : string) : Z :=
  rebuyCountOf (rebuyCountMap s) pubKey.

Definition selectedKeys (cfg : config) : list string :=
  wi_pubKey <$> selectedWallets cfg.

(** The wallet an iteration processes: the entry it reads from the cycle
    after the refresh, if it gets that far. *)
Definition tickWallet (cfg : config) (o : oracle) (s : session) : option string :=
  match refresh cfg o s (o_rng o) with
  | (s, Some _) => wi_pubKey <$> walletCycle s !! walletCyclePosition s
  | (_, None) => None
  end.

(** The invariant of the loop.  During the first cycle no rebuy has been
    counted and nobody is blacklisted; in a rebuy cycle the entries still
    to come are distinct wallets, each carrying its count plus one, below
    the ceiling and not blacklisted. *)
Definition first_cycle (s : session) : Prop :=
  rebuyCountMap s = ∅ /\ blacklistedWallets s = ∅ /\
  Forall (fun w => wi_rebuy w = None) (remainingCycle s).

Definition rebuy_entry (cfg : config) (s : session) (w : walletInfo) : Prop :=
  wi_rebuy w = Some (rebuyCount s (wi_pubKey w) + 1) /\
  rebuyCount s (wi_pubKey w) < MAX_REBUY_COUNT /\
  (wi_pubKey w ∉ blacklistedWallets s) /\
  wi_pubKey w ∈ usedSellWallets (books s) /\
  wi_pubKey w ∈ selectedKeys cfg.

Definition rebuy_cycle (cfg : config) (s : session) : Prop :=
  Forall (rebuy_entry cfg s) (remainingCycle s) /\
  NoDup (wi_pubKey <$> remainingCycle s).

Definition session_inv (cfg : config) (s : session) : Prop :=
  ledger_wf (books s) /\
  (first_cycle s \/ rebuy_cycle cfg s) /\
  (forall k, 0 <= rebuyCount s k <= MAX_REBUY_COUNT) /\
  (forall k, 0 < rebuyCount s k ->
     k ∈ usedSellWallets (books s) /\ k ∈ selectedKeys cfg).

Definition has_sell (tr : list event) : bool :=
  existsb (fun e => match e with EvSell _ _ => true | _ => false end) tr.
Definition has_sent_sell (tr : list event) : bool :=
  existsb (fun e => match e with EvSell _ true => true | _ => false end) tr.

(** ** The claims that fail, in the words of the specification *)

(** Claim C2, second half, in its words: a wallet whose rebuy was
    confirmed, and which is therefore back in [successfulBuyWallets], is
    sell-eligible again. *)
Definition rebuy_restores_eligibility (cfg : config) : Prop :=
  forall s k,
    reachable cfg s -> 0 < rebuyCount s k ->
    k ∈ (successfulBuyWallets (books s)).*1 ->
    k ∈ eligibleKeys (books s) None.

(** Claim C5, in its words: no trade attempt is issued unless the pause
    flag has been read as clear since the previous trade attempt. *)
Fixpoint pause_checked_before_each_trade (checked : bool) (tr : list event) : bool :=
  match tr with
  | [] => true
  | EvPausePoll paused :: tr => pause_checked_before_each_trade (negb paused) tr
  | EvSleep _ :: tr => pause_checked_before_each_trade checked tr
  | EvBuy _ _ _ :: tr => checked && pause_checked_before_each_trade false tr
  | EvSell _ _ :: tr => checked && pause_checked_before_each_trade false tr
  end.


(** Claim C7, second half, in its words: after a sell sequence without a
    successful sell the next attempt comes a fixed number of buys later. *)
Definition failed_sells_retry_fixed (cfg : config) : Prop :=
  exists fixed : Z, forall s o,
    reachable cfg s ->
    has_sell (tick_trace (tick cfg o s)) = true ->
    has_sent_sell (tick_trace (tick cfg o s)) = false ->
    buysUntilNextSell (tick_state (tick cfg o s))
    = buyCounter (tick_state (tick cfg o s)) + fixed.



(** ** A session of four wallets, used for the examples *)

(** A source whose every draw is 1/2, and one whose every draw is 0. *)
Definition rng_half : rng := fun _ => mkDraw 1 2.
Definition rng_zero : rng := fun _ => mkDraw 0 1.

Definition demo_cfg : config :=
  mkConfig 1000 3000
    [("WalletA", 1); ("WalletB", 2); ("WalletC", 3); ("WalletD", 4)]%string.

(** A wallet with 1 SOL whose bonding-curve account cannot be fetched. *)
Definition demo_view : chainView := mkChainView 1 None (Ok (Finite 0)).

(** An iteration in which the flag is clear, the balance is 1 SOL and the
    buy is confirmed; [outs] and [g] are left open. *)
Definition demo_oracle (outs : nat -> sellOutcome) (g : rng) : oracle :=
  mkOracle 0 (fun _ => demo_view) [] 1 demo_view
           (BuySent (Some "TokenAccount"%string) (Some "1000"%string)) outs g.

(** Every draw is 1/2 and every sell is sent. *)
Definition demo_tick : oracle := demo_oracle (fun _ => SellSent) rng_half.

(** The first sell point drawn is 4: the "extremes" branch, low end. *)
Definition demo_init : session :=
  initSession demo_cfg (rng_of_list [mkDraw 19 20; mkDraw 0 1]).

(** After four buys and the first sell sequence. *)
Definition demo_after_sells : session :=
  tick_state (run demo_cfg (replicate 4 demo_tick) demo_init).

(** After the first rebuy. *)
Definition demo_after_rebuy : session :=
  tick_state (run demo_cfg (replicate 5 demo_tick) demo_init).


(** After three buys, just before the buy that triggers the first sells. *)
Definition demo_before_sells : session :=
  tick_state (run demo_cfg (replicate 3 demo_tick) demo_init).

(** An iteration like [demo_tick] in which every sell fails. *)
Definition demo_tick_failing (g : rng) : oracle :=
  demo_oracle (fun _ => SellFailed) g.

(** ** Runs of [humanbuy] and what their traces record *)

(** [humanbuy] from its first iteration: the loop, started in the initial
    state and fed one oracle per iteration. *)
Definition humanbuy (cfg : config) (g : rng) (os : list oracle) : tickResult :=
  run cfg os (initSession cfg g).

(** The wallets of the sell attempts of a trace, in order. *)
Definition soldKeys (tr : list event) : list string :=
  omap (fun e => match e with EvSell k _ => Some k | _ => None end) tr.

(** The wallets of the buys of a trace for which a signature was obtained. *)
Definition sentBuys (tr : list event) : list string :=
  omap (fun e => match e with EvBuy k _ true => Some k | _ => None end) tr.

(** The events of a sell sequence: sell attempts, and sleeps of 650 to 1999
    milliseconds between them. *)
Definition sell_sequence_event (e : event) : Prop :=
  match e with
  | EvSell _ _ => True
  | EvSleep ms => 650 <= ms <= 1999
  | _ => False
  end.

(** The wallets the loop deals with all come from the selection, and only
    wallets that were used for a sell are blacklisted. *)
Definition trades_selected (cfg : config) (s : session) : Prop :=
  Forall (fun w => wi_pubKey w ∈ selectedKeys cfg) (remainingCycle s) /\
  (forall k, k ∈ (successfulBuyWallets (books s)).*1 -> k ∈ selectedKeys cfg) /\
  (forall k, k ∈ usedSellWallets (books s) -> k ∈ selectedKeys cfg) /\
  (forall k, k ∈ blacklistedWallets s -> k ∈ usedSellWallets (books s)).

(** The state in which an iteration records a successful buy and from
    which it runs the sell trigger. *)
Definition afterBuy (w : walletInfo) (ta tb : option string) (s : session) : session :=
  recordBuy w ta tb (with_cycle (walletCycle s) (S (walletCyclePosition s)) s).

(** The state an iteration leaves when it skips the wallet it read. *)
Definition afterSkip (s : session) : session :=
  with_skippedWallets (skippedWallets s + 1)
    (with_cycle (walletCycle s) (S (walletCyclePosition s)) s).

(** A trade event whose wallet belongs to the selection. *)
Definition trade_of_selected (cfg : config) (e : event) : Prop :=
  match e with
  | EvBuy k _ _ | EvSell k _ => k ∈ selectedKeys cfg
  | _ => True
  end.

(** A session in its first pass over fewer than four wallets: nothing has
    been sold, and the buy counter is still below the first sell point. *)
Definition short_first_pass (s : session) : Prop :=
  usedSellWallets (books s) = [] /\
  (length (walletCycle s) < 4)%nat /\
  (walletCyclePosition s <= length (walletCycle s))%nat /\
  buyCounter s <= Z.of_nat (walletCyclePosition s) /\
  4 <= buysUntilNextSell s.

(** Whether the loop has ended. *)
Definition is_stop (r : tickResult) : bool :=
  match r with Stop _ _ => true | Continue _ _ => false end.

(** A selection of one wallet, and an iteration like [demo_tick] in which
    every wallet asked about for a rebuy has no SOL left. *)
Definition demo_cfg_single : config := mkConfig 1000 3000 [("WalletA"%string, 1)].

Definition demo_tick_drained : oracle :=
  mkOracle 0 (fun _ => mkChainView 0 None (Ok (Finite 0))) [] 1 demo_view
           (BuySent (Some "TokenAccount"%string) (Some "1000"%string))
           (fun _ => SellSent) rng_half.

(** ** Single trades, with the calls they make *)

(** What [checkWalletBalance] returns. *)
Record balanceCheck : Type := mkBalanceCheck {
  bc_balance : Q;
  bc_maxAvailable : Q;
  bc_sufficient : bool
}.

(** [checkWalletBalance(connection, wallet, requiredAmount, minKeepAmount)];
    [getBalance] is what [connection.getBalance] answers, the lamports of
    the account (a 64-bit count, which reaches the program as the nearest
    double), or the error the [try] block catches. *)
Definition checkWalletBalance (getBalance : result Z)
    (requiredAmount : number) (minKeepAmount : Q) : balanceCheck :=
  match getBalance with
  | Ok walletBalance =>
      let walletBalanceSol :=
        Double.div (Double.round (inject_Z walletBalance)) 1000000000 in
      let maxAvailableAmount := Qmax 0 (Double.sub walletBalanceSol minKeepAmount) in
      mkBalanceCheck walletBalanceSol maxAvailableAmount
                     (JsNumber.geb (Finite maxAvailableAmount) requiredAmount)
  | Throw _ => mkBalanceCheck 0 0 false
  end.

(** The default of the parameter [minKeepAmount]. *)
Definition minKeepAmount_default : Q := Double.round 0.05.

(** The answers of the calls of one [executeBuy]: the balance, the
    transaction builder [createHumanTX], the race of [sendTransaction]
    against the five-second timeout, the token accounts of the wallet and
    the balance of the first of them.  The estimate of [humanBuyAmount] is
    only logged, inside a [try] of its own, and is left out; the three
    [new PublicKey] of addresses that [humanbuy] has built before cannot
    fail. *)
Record buyChain : Type := mkBuyChain {
  bch_getBalance : result Z;
  bch_createTX : result unit;
  bch_send : result string;
  bch_tokenAccounts : result (list string);
  bch_tokenBalance : result string
}.

(** The answers of the calls of one [executeWalletSell]: the token accounts
    of the wallet, [createTokenAccountIfNeeded], the [amount] of the token
    account balance (a string of digits, as the number it denotes), the
    transaction builder [humanSellTX] and the race of [sendTransaction]
    against the timeout. *)
Record sellChain : Type := mkSellChain {
  sch_tokenAccounts : result (list string);
  sch_createAccount : result string;
  sch_tokenBalance : result Z;
  sch_createTX : result unit;
  sch_send : result string
}.

Module Rpc.

(** [executeBuy(connection, wallet, ..., buyAmount, ...)]: its result, and
    the lamports of the transaction it built, if it got that far. *)
Definition executeBuy (c : buyChain) (buyAmount : number) : buyOutcome * option number :=
  let balanceCheck := checkWalletBalance (bch_getBalance c) buyAmount minKeepAmount_default in
  if negb (bc_sufficient balanceCheck) then (BuyFailed, None)
  else
    let buyAmountLamports := JsNumber.floor (JsNumber.mul buyAmount (Finite 1000000000)) in
    match bch_createTX c with
    | Throw _ => (BuyFailed, None)
    | Ok _ =>
        match bch_send c with
        | Throw _ => (BuyFailed, Some buyAmountLamports)
        | Ok signature =>
            match bch_tokenAccounts c with
            | Throw _ => (BuySent None None, Some buyAmountLamports)
            | Ok [] => (BuySent None None, Some buyAmountLamports)
            | Ok (tokenAccountPubKey :: _) =>
                match bch_tokenBalance c with
                | Throw _ => (BuySent None None, Some buyAmountLamports)
                | Ok tokenBalance =>
                    (BuySent (Some tokenAccountPubKey) (Some tokenBalance),
                     Some buyAmountLamports)
                end
            end
        end
    end.

(** The amount [executeWalletSell] sells from a token account whose balance
    it asked for: the whole balance, or ["1"] when the balance is not
    positive or could not be read. *)
Definition sellAmountOf (tokenBalance : result Z) : Z :=
  match tokenBalance with
  | Ok amount => if amount <=? 0 then 1 else amount
  | Throw _ => 1
  end.

(** The first part of [executeWalletSell]: the token account and the amount
    to sell; [None] when the account had to be created and could not be. *)
Definition sellTarget (c : sellChain) (selectedWalletInfo : holding)
    : option (string * Z) :=
  if truthy (h_tokenAccountPubKey selectedWalletInfo) then
    Some (default ""%string (h_tokenAccountPubKey selectedWalletInfo),
          sellAmountOf (sch_tokenBalance c))
  else
    match sch_tokenAccounts c with
    | Ok [] =>
        match sch_createAccount c with
        | Ok tokenAccountPubKey => Some (tokenAccountPubKey, 1)
        | Throw _ => None
        end
    | Ok (tokenAccountPubKey :: _) =>
        Some (tokenAccountPubKey, sellAmountOf (sch_tokenBalance c))
    | Throw _ =>
        match sch_createAccount c with
        | Ok tokenAccountPubKey => Some (tokenAccountPubKey, 1)
        | Throw _ => None
        end
    end.

(** [executeWalletSell(connection, successfulBuyWallets, usedSellWallets,
    ..., selectedWalletInfo)]: its result, the two containers afterwards,
    and the token account and amount it handed to [humanSellTX], if it got
    that far. *)
Definition executeWalletSell (c : sellChain) (l : ledger) (selectedWalletInfo : holding)
    : bool * ledger * option (string * Z) :=
  let pubKey := h_pubKey selectedWalletInfo in
  let failed := mkLedger (successfulBuyWallets l) (JsSet.add pubKey (usedSellWallets l)) in
  match sellTarget c selectedWalletInfo with
  | None => (false, failed, None)
  | Some (tokenAccountPubKey, sellAmountLamports) =>
      match sch_createTX c with
      | Throw _ => (false, failed, Some (tokenAccountPubKey, sellAmountLamports))
      | Ok _ =>
          match sch_send c with
          | Throw _ => (false, failed, Some (tokenAccountPubKey, sellAmountLamports))
          | Ok signature =>
              (true,
               mkLedger (JsMap.delete pubKey (successfulBuyWallets l))
                        (JsSet.add pubKey (usedSellWallets l)),
               Some (tokenAccountPubKey, sellAmountLamports))
          end
      end
  end.

End Rpc.


(** The answers of a buy that goes through, from a wallet with the given
    balance. *)
Definition demo_buyChain (lamports : Z) : buyChain :=
  mkBuyChain (Ok lamports) (Ok tt) (Ok "Signature"%string)
             (Ok ["TokenAccount"%string]) (Ok "1000"%string).

(** ** Choosing the wallets to trade with *)

(** The [selectionConfig] object: [type], [count] ([None]: [undefined] or
    [NaN]) and [indices] ([None]: missing, or not an array). *)
Record selectionConfig : Type := mkSelectionConfig {
  sel_type : string;
  sel_count : option Z;
  sel_indices : option (list Z)
}.

(** [arr.indexOf(x)]; [None] is the [-1] of an absent element. *)
Fixpoint indexOf (x : Z) (arr : list Z) : option nat :=
  match arr with
  | [] => None
  | y :: arr => if decide (y = x) then Some 0%nat else S <$> indexOf x arr
  end.

(** [arr.filter((idx, pos, arr) => arr.indexOf(idx) === pos)]. *)
Definition firstOccurrences (arr : list Z) : list Z :=
  (filter (fun pi : nat * Z => indexOf pi.2 arr = Some pi.1) (imap pair arr)).*2.

Section Selection.
Context {A : Type}.

(** The [for] loop of [selectRandomWallets], [n] iterations to go.  The
    two lookups cannot fail: the position is below the length of
    [availableIndices], whose elements are indices of [walletList]. *)
Fixpoint pickWallets (n : nat) (walletList : list A) (availableIndices : list nat)
    (selectedWallets : list A) (g : rng) : list A * rng :=
  match n with
  | O => (selectedWallets, g)
  | S n =>
      if decide (length availableIndices = 0%nat) then (selectedWallets, g)
      else
        let '(r, g) := Math_random g in
        let randomPosition :=
          Math_floor (r * inject_Z (Z.of_nat (length availableIndices))) in
        match availableIndices !! Z.to_nat randomPosition with
        | Some selectedIndex =>
            let availableIndices := delete (Z.to_nat randomPosition) availableIndices in
            match walletList !! selectedIndex with
            | Some w => pickWallets n walletList availableIndices (selectedWallets ++ [w]) g
            | None => (selectedWallets, g)
            end
        | None => (selectedWallets, g)
        end
  end.

(** [selectRandomWallets(walletList, count)]. *)
Definition selectRandomWallets (walletList : list A) (count : option Z) (g : rng)
    : list A * rng :=
  let countOrOne :=
    match count with
    | Some c => if c =? 0 then 1 else c
    | None => 1
    end in
  let walletCount := Z.min countOrOne (Z.of_nat (length walletList)) in
  if walletCount =? Z.of_nat (length walletList) then (walletList, g)
  else pickWallets (Z.to_nat walletCount) walletList (seq 0 (length walletList)) [] g.

(** [selectSpecificWallets(walletList, indices)]; the indices are 1-based. *)
Definition selectSpecificWallets (walletList : list A) (indices : option (list Z))
    : list A :=
  let firstWallet := match walletList with w :: _ => [w] | [] => [] end in
  match indices with
  | None | Some [] => firstWallet
  | Some indices =>
      let validIndices :=
        firstOccurrences
          (filter (fun idx => 1 <= idx <= Z.of_nat (length walletList)) indices) in
      if decide (length validIndices = 0%nat) then firstWallet
      else omap (fun idx => walletList !! Z.to_nat (idx - 1)) validIndices
  end.

(** [selectWalletsForTrading(walletList, selectionConfig)]. *)
Definition selectWalletsForTrading (walletList : list A) (selectionConfig : selectionConfig)
    (g : rng) : list A * rng :=
  if decide (length walletList = 0%nat) then ([], g)
  else if decide (sel_type selectionConfig = "random"%string)
       then selectRandomWallets walletList (sel_count selectionConfig) g
       else (selectSpecificWallets walletList (sel_indices selectionConfig), g).

End Selection.

(** [walletBuyAmounts] of [humanbuy]: each wallet of the wallet file with
    its 1-based index. *)
Definition walletBuyAmounts (allWallets : list string) : list (string * Z) :=
  imap (fun index wallet => (wallet, Z.of_nat index + 1)) allWallets.

(** The configuration [humanbuy] runs its loop with, from its arguments
    and the wallet file.  (With an empty wallet file [humanbuy] returns
    before it selects; here the selection is empty and the loop ends in its
    first iteration.) *)
Definition humanbuy_config (allWallets : list string) (walletSelection : selectionConfig)
    (maxDelayMs minDelayMs : Z) (g : rng) : config * rng :=
  let '(selectedWallets, g) :=
    selectWalletsForTrading (walletBuyAmounts allWallets) walletSelection g in
  (mkConfig minDelayMs maxDelayMs selectedWallets, g).

(** ** Order and number of the trades of a run *)

(** Whether every sell attempt of a trace is for a wallet with an earlier
    successful buy; [bought] holds the wallets that bought before the
    trace. *)
Fixpoint sells_follow_buys (bought : list string) (tr : list event) : bool :=
  match tr with
  | [] => true
  | EvBuy k _ true :: tr => sells_follow_buys (k :: bought) tr
  | EvSell k _ :: tr => bool_decide (k ∈ bought) && sells_follow_buys bought tr
  | _ :: tr => sells_follow_buys bought tr
  end.

(** How often a wallet occurs in a list of wallets, and how many of the
    buys of a trace for which a signature was obtained are its own. *)
Definition occurrences (k : string) (l : list string) : nat :=
  length (filter (fun k' => k' = k) l).

Definition buysOf (k : string) (tr : list event) : nat :=
  occurrences k (sentBuys tr).

(** The budget of buys: in the first pass a wallet has bought at most once
    for each of its entries that has been read; later, at most once for
    each of its entries in the selection and once for each rebuy counted. *)
Definition buy_budget (cfg : config) (bought : string -> nat) (s : session) : Prop :=
  (walletCycle s = selectedWallets cfg /\ rebuyCountMap s = ∅ /\
   forall k, (bought k <= occurrences k (take (walletCyclePosition s) (selectedKeys cfg)))%nat) \/
  (Forall (fun w => wi_rebuy w = Some (rebuyCount s (wi_pubKey w) + 1)) (remainingCycle s) /\
   NoDup (wi_pubKey <$> remainingCycle s) /\
   forall k, Z.of_nat (bought k)
             <= Z.of_nat (occurrences k (selectedKeys cfg)) + rebuyCount s k).

(** ** The hot keys of [hotkeySell.js] *)

(** [onKeyPress(str, key)], on the pause flag: the [data] listener calls it
    with [key.sequence] the whole chunk read from the keyboard. *)
Definition onKeyPress (sequence : string) (isPaused : bool) : bool :=
  if decide (sequence = "/"%string) then negb isPaused else isPaused.

(** The flag after the chunks the keyboard delivered, in order. *)
Definition onData (chunks : list string) (isPaused : bool) : bool :=
  foldl (fun paused str => onKeyPress str paused) isPaused chunks.

(** One of the recent signatures of a token account: its [blockTime] (0
    for a missing one) and what [getBlockTime(slot)] answers (0 for
    [null]). *)
Record sigInfo : Type := mkSigInfo {
  si_blockTime : Z;
  si_getBlockTime : result Z
}.

(** The body of the loop of [sellRecentBuyerWallets] over the signatures
    of a wallet, and the loop. *)
Definition blockTimeStep (mostRecentBlockTime : Z) (sig : sigInfo) : Z :=
  let blockTime :=
    if si_blockTime sig =? 0 then si_getBlockTime sig
    else Ok (si_blockTime sig) in
  match blockTime with
  | Throw _ => mostRecentBlockTime
  | Ok blockTime =>
      if negb (blockTime =? 0) && (mostRecentBlockTime <? blockTime)
      then blockTime else mostRecentBlockTime
  end.

Definition mostRecentBlockTime (sigInfos : list sigInfo) : Z :=
  foldl blockTimeStep 0 sigInfos.

(** What [sellRecentBuyerWallets] learns about one wallet: its token
    accounts for the coin, [parseFloat(uiAmount) || 0] of the first of them
    and its recent signatures; [Throw] where the call, or a step before it
    inside the [try] of the wallet, threw. *)
Record walletScan : Type := mkWalletScan {
  ws_pubKey : string;
  ws_tokenAccounts : result (list string);
  ws_tokenBalance : result Q;
  ws_signatures : result (list sigInfo)
}.

(** An element of [walletInfoArray]. *)
Record recentBuyer : Type := mkRecentBuyer {
  rb_pubKey : string;
  rb_tokenAccountPubKey : string;
  rb_tokenBalance : Q;
  rb_blockTime : Z
}.

(** The body of the loop over the wallets: [None] is a [continue], or an
    error caught and logged. *)
Definition scanWallet (w : walletScan) : option recentBuyer :=
  match ws_tokenAccounts w with
  | Ok (tokenAccountPubKey :: _) =>
      match ws_tokenBalance w with
      | Ok tokenBalance =>
          if Qle_bool tokenBalance 0 then None
          else
            match ws_signatures w with
            | Ok (sig :: sigInfos) =>
                let blockTime := mostRecentBlockTime (sig :: sigInfos) in
                if blockTime =? 0 then None
                else Some (mkRecentBuyer (ws_pubKey w) tokenAccountPubKey
                                         tokenBalance blockTime)
            | _ => None
            end
      | Throw _ => None
      end
  | _ => None
  end.

(** [walletInfoArray.sort((a, b) => b.blockTime - a.blockTime)]: the sort is
    stable, so the result is the one of inserting the elements in their
    order, each behind the elements that are not older. *)
Fixpoint insertByBlockTime (x : recentBuyer) (l : list recentBuyer) : list recentBuyer :=
  match l with
  | [] => [x]
  | y :: l =>
      if rb_blockTime y <? rb_blockTime x then x :: y :: l
      else y :: insertByBlockTime x l
  end.

Definition sortByBlockTime (l : list recentBuyer) : list recentBuyer :=
  foldl (fun sorted x => insertByBlockTime x sorted) [] l.

(** The wallets [sellRecentBuyerWallets] sells from, in the order of the
    sells. *)
Definition recentBuyers (wallets : list walletScan) : list recentBuyer :=
  take 3 (sortByBlockTime (omap scanWallet wallets)).

(** ** [simpleBuy.js] *)

Module SimpleBuy.

(** [buyAmountLamports] of [main]. *)
Definition buyAmountLamports (minBuy maxBuy : Q) (g : rng) : Z * rng :=
  let '(r, g) := Math_random g in
  let buyAmountSOL := (r * (maxBuy - minBuy) + minBuy)%Q in
  (Math_floor (buyAmountSOL * 1000000000), g).


(** A [Buffer] is the list of its bytes.  [writeBigUInt64LE(value, 0)] on a
    fresh buffer of eight bytes raises a [RangeError] outside of 64 bits. *)
Fixpoint le_bytes (n : nat) (value : Z) : list Z :=
  match n with
  | O => []
  | S n => value mod 256 :: le_bytes n (value / 256)
  end.

Definition le_value (bytes : list Z) : Z :=
  foldr (fun b acc => b + 256 * acc) 0 bytes.

Definition writeBigUInt64LE (value : Z) : result (list Z) :=
  if (0 <=? value) && (value <? 2 ^ 64) then Ok (le_bytes 8 value)
  else Throw "RangeError".

(** [buf.readBigUInt64LE(offset)]. *)
Definition readBigUInt64LE (buf : list Z) (offset : nat) : result Z :=
  if decide (offset + 8 <= length buf)%nat then Ok (le_value (take 8 (drop offset buf)))
  else Throw "RangeError".

(** [source.copy(target, targetStart)]: as many bytes as fit. *)
Definition copy (source target : list Z) (targetStart : nat) : list Z :=
  take targetStart target
  ++ take (length target - targetStart) source
  ++ drop (targetStart + length source) target.

(** The patch of the token amount of the buy instruction, and the scaling
    factor [main] computes to check it. *)
Definition patchTokenAmount (pumpData : list Z) (estimatedTokensHuman : Z)
    : result (list Z * Z) :=
  correctTokenBuffer ← writeBigUInt64LE estimatedTokensHuman;
  let pumpData := copy correctTokenBuffer pumpData 8 in
  txTokenAmount ← readBigUInt64LE pumpData 8;
  scalingFactor ← BN.div txTokenAmount estimatedTokensHuman;
  Ok (pumpData, scalingFactor).

End SimpleBuy.

(** An iteration like [demo_tick] whose balance query fails. *)
Definition demo_tick_unreadable : oracle :=
  mkOracle 0 (fun _ => demo_view) [] 0 demo_view
           (BuySent (Some "TokenAccount"%string) (Some "1000"%string))
           (fun _ => SellSent) rng_half.

(** ** The menu entry that starts [humanbuy] *)

(** The arguments [handleBuyMenu] passes to [humanbuy]. *)
Record humanbuyArgs : Type := mkHumanbuyArgs {
  ha_walletSelection : selectionConfig;
  ha_maxDelay : Z;
  ha_minDelay : Z
}.

(** Case ['8'] of [handleBuyMenu], from the answers to its prompts:
    the selection method, and the values of [parseInt] on the other answers
    ([None] is [NaN]; [walletIndices] are the values for the non-empty
    pieces of the comma-separated answer).  [maxDelay] and [minDelay] are
    declared [const]: the assignment of the defaults raises a [TypeError]
    and [humanbuy] is not called. *)
Definition handleBuyMenu_humanbuy (selectionMethod : string) (numWallets : option Z)
    (walletIndices : list (option Z)) (maxDelay minDelay : option Z)
    : result humanbuyArgs :=
  let walletSelection :=
    if decide (selectionMethod = "1"%string) then
      match numWallets with
      | Some numWallets =>
          if numWallets <? 1 then mkSelectionConfig "random" (Some 1) None
          else mkSelectionConfig "random" (Some numWallets) None
      | None => mkSelectionConfig "random" (Some 1) None
      end
    else if decide (selectionMethod = "2"%string) then
      if bool_decide (length walletIndices = 0%nat)
         || existsb (fun idx => match idx with
                                | Some idx => idx <? 1
                                | None => true
                                end) walletIndices
      then mkSelectionConfig "specific" None (Some [1])
      else mkSelectionConfig "specific" None (Some (omap id walletIndices))
    else mkSelectionConfig "random" (Some 1) None in
  match maxDelay, minDelay with
  | Some maxDelay, Some minDelay =>
      if (maxDelay <? 0) || (minDelay <? 0) || (maxDelay <? minDelay)
      then Throw "TypeError: Assignment to constant variable."
      else Ok (mkHumanbuyArgs walletSelection maxDelay minDelay)
  | _, _ => Throw "TypeError: Assignment to constant variable."
  end.

(** * Properties *)

(** ** Worked examples *)

(** One SOL on the example curve buys about 34.6 million tokens (six
    decimals). *)
Example buyQuote_one_sol :
  buyQuote 1000000000 (Some pump_initial) = Ok 34612903225806.
Proof. reflexivity. Qed.

(** With every draw at 1/2: the central branch of both distributions. *)
Example determineNextSellPoint_half : (determineNextSellPoint rng_half).1 = 7.
Proof. reflexivity. Qed.

Example determineConsecutiveSells_half :
  (determineConsecutiveSells 4 rng_half).1 = 3.
Proof. reflexivity. Qed.

Example getRandomSellDelay_half : (getRandomSellDelay rng_half).1 = 1325.
Proof. reflexivity. Qed.

(** A wallet with 1 SOL: 0.95 spendable, 70% of it.  The product of the
    two doubles is 0.6649999999999999, which the rounding down to six
    decimals turns into 0.664999. *)
Example calculateDynamicBuyAmount_one_sol :
  (calculateDynamicBuyAmount demo_view rng_half).1 = Finite (Double.round 0.664999).
Proof. by vm_compute. Qed.

(** The first four iterations of the example session. *)
Example demo_after_sells_state :
  buyCounter demo_after_sells = 4 /\
  (successfulBuyWallets (books demo_after_sells)).*1 = ["WalletA"%string] /\
  usedSellWallets (books demo_after_sells) = ["WalletB"; "WalletC"; "WalletD"]%string /\
  buysUntilNextSell demo_after_sells = 11.
Proof. by vm_compute. Qed.

(** ** Quote engine *)

Lemma BN_min_spec (a b : Z) : BN.min a b = Z.min a b.
Proof. unfold BN.min. destruct (Z.ltb_spec a b); lia. Qed.

Lemma ceil_div_exact (a b : Z) : 0 < b -> (b | a) -> ceil_div a b = a / b.
Proof.
  intros Hb Hdiv. unfold ceil_div.
  rewrite Z.div_opp_l_z by (try lia; apply Z.mod_divide; auto; lia). lia.
Qed.

Lemma ceil_div_inexact (a b : Z) : 0 < b -> ~ (b | a) -> ceil_div a b = a / b + 1.
Proof.
  intros Hb Hdiv. unfold ceil_div.
  rewrite Z.div_opp_l_nz; try lia.
  intros Hm. apply Hdiv. apply Z.mod_divide; auto; lia.
Qed.

(** What the code computes for a positive amount. *)
Lemma buyQuote_pos (amount : Z) (r : reserves) :
  0 < amount -> 0 <= virtualSolReserves r -> 0 <= virtualTokenReserves r ->
  buyQuote amount (Some r) =
  Ok (Z.min (virtualTokenReserves r
             - (virtualTokenReserves r * virtualSolReserves r
                / (virtualSolReserves r + amount) + 1))
            (realTokenReserves r)).
Proof.
  intros Ha Hs Ht. unfold buyQuote, BN.eq, BN.div, BN.mul, BN.add, BN.sub.
  destruct (Z.eqb_spec amount 0) as [->|_]; [lia|].
  destruct (Z.eqb_spec (virtualSolReserves r + amount) 0) as [E|_]; [lia|].
  cbn. rewrite BN_min_spec, Z.quot_div_nonneg by nia.
  by rewrite (Z.mul_comm (virtualSolReserves r)).
Qed.

Lemma buyQuote_zero (rs : option reserves) : buyQuote 0 rs = Ok 0.
Proof. by destruct rs. Qed.

Lemma buyQuote_missing (amount : Z) : buyQuote amount None = Ok 0.
Proof. unfold buyQuote. by destruct (BN.eq amount 0). Qed.

(** The quotient stays below the virtual token reserve, so the unclamped
    output of a positive amount is not negative. *)
Lemma quotient_below (t s a : Z) : 1 <= t -> 0 <= s -> 0 < a -> t * s / (s + a) + 1 <= t.
Proof.
  intros Ht Hs Ha.
  assert (t * s / (s + a) < t); [|lia].
  apply Z.div_lt_upper_bound; nia.
Qed.

(** C1, as the code has it: for a positive amount and non-negative reserves
    [buyQuote] returns [min (virtualBase - (floor (virtualBase*virtualQuote /
    (virtualQuote+in)) + 1)) realBase]; this is the ceiling formula of the
    specification when the division is inexact and one less (before the
    clamp) when it is exact.  It returns 0 for a zero amount and for a
    missing reserves object, and it never throws on these inputs. *)
Theorem buyQuote_formula (amount : Z) (r : reserves) :
  0 <= amount -> 0 <= virtualSolReserves r -> 0 <= virtualTokenReserves r ->
  buyQuote amount None = Ok 0 /\
  buyQuote 0 (Some r) = Ok 0 /\
  (0 < amount ->
   buyQuote amount (Some r) =
     Ok (Z.min (virtualTokenReserves r
                - (virtualTokenReserves r * virtualSolReserves r
                   / (virtualSolReserves r + amount) + 1))
               (realTokenReserves r)) /\
   (~ (virtualSolReserves r + amount | virtualTokenReserves r * virtualSolReserves r) ->
    buyQuote amount (Some r) = Ok (quoteBuy_spec amount r)) /\
   ((virtualSolReserves r + amount | virtualTokenReserves r * virtualSolReserves r) ->
    buyQuote amount (Some r) =
      Ok (Z.min (virtualTokenReserves r
                 - ceil_div (virtualTokenReserves r * virtualSolReserves r)
                            (virtualSolReserves r + amount) - 1)
                (realTokenReserves r)))).
Proof.
  intros Ha Hs Ht. split; [apply buyQuote_missing|].
  split; [apply buyQuote_zero|]. intros Hpos.
  rewrite buyQuote_pos by lia. split; [done|]. split; intros Hd.
  - unfold quoteBuy_spec. by rewrite ceil_div_inexact by (auto; lia).
  - rewrite ceil_div_exact by (auto; lia). f_equal. lia.
Qed.

Lemma buyQuote_formula_witness :
  buyQuote 1000000000 (Some pump_initial) = Ok 34612903225806 /\
  buyQuote 1000000000 (Some pump_initial) = Ok (quoteBuy_spec 1000000000 pump_initial).
Proof.
  destruct (buyQuote_formula 1000000000 pump_initial) as (_ & _ & H);
    [vm_compute; discriminate ..|].
  destruct H as (H1 & H2 & _); [reflexivity|].
  split; [exact H1|]. apply H2.
  intros Hd. apply Z.mod_divide in Hd; [vm_compute in Hd|]; discriminate.
Defined.

(** C1, counterexample: buying 30 SOL on the initial curve divides exactly,
    and the code returns one token unit less than the ceiling formula; and
    on all-zero reserves a positive amount yields -1, not 0. *)
Lemma buyQuote_ceil_formula_fails :
  buyQuote 30000000000 (Some pump_initial) = Ok 536499999999999 /\
  quoteBuy_spec 30000000000 pump_initial = 536500000000000 /\
  buyQuote 30000000000 (Some pump_initial)
    <> Ok (quoteBuy_spec 30000000000 pump_initial) /\
  buyQuote 1 (Some (mkReserves 0 0 0)) = Ok (-1).
Proof. repeat split; vm_compute; congruence. Qed.

(** C3, as the code has it: with a virtual token reserve of at least 1 (and
    the other reserves non-negative) the output never decreases when the
    amount grows, is never negative and never exceeds [realTokenReserves]. *)
Theorem buyQuote_monotone_bounded (r : reserves) (in1 in2 : Z) :
  valid_liquidity r -> 1 <= virtualTokenReserves r -> 0 <= in1 <= in2 ->
  exists out1 out2,
    buyQuote in1 (Some r) = Ok out1 /\ buyQuote in2 (Some r) = Ok out2 /\
    out1 <= out2 /\ out1 <= realTokenReserves r /\ out2 <= realTokenReserves r.
Proof.
  intros (Hs & _ & Hr) Ht [H1 H12].
  destruct (Z.eq_dec in2 0) as [->|Hn2].
  { assert (in1 = 0) as -> by lia. exists 0, 0. rewrite buyQuote_zero. repeat split; lia || done. }
  pose proof (quotient_below (virtualTokenReserves r) (virtualSolReserves r) in2).
  destruct (Z.eq_dec in1 0) as [->|Hn1].
  - eexists 0, _. rewrite buyQuote_zero, buyQuote_pos by lia.
    repeat split; lia || done.
  - eexists _, _. rewrite !buyQuote_pos by lia. repeat split; try lia.
    assert (virtualTokenReserves r * virtualSolReserves r / (virtualSolReserves r + in2)
            <= virtualTokenReserves r * virtualSolReserves r / (virtualSolReserves r + in1)).
    { apply Z.div_le_compat_l; nia. }
    lia.
Qed.

Lemma buyQuote_monotone_bounded_witness :
  exists out1 out2,
    buyQuote 1000000000 (Some pump_initial) = Ok out1 /\
    buyQuote 2000000000 (Some pump_initial) = Ok out2 /\
    out1 <= out2 /\ out1 <= 793100000000000 /\ out2 <= 793100000000000.
Proof.
  apply (buyQuote_monotone_bounded pump_initial 1000000000 2000000000);
    vm_compute; repeat split; discriminate.
Defined.

(** C3, counterexample: a liquidity state of non-negative integers with no
    virtual token reserve; the output drops from 0 to -1 when the amount
    goes from 0 to 1. *)
Lemma buyQuote_not_monotone_at_zero_reserve :
  valid_liquidity (mkReserves 1000 0 0) /\
  buyQuote 0 (Some (mkReserves 1000 0 0)) = Ok 0 /\
  buyQuote 1 (Some (mkReserves 1000 0 0)) = Ok (-1) /\
  ~ (forall r in1 in2 out1 out2,
       valid_liquidity r -> 0 <= in1 <= in2 ->
       buyQuote in1 (Some r) = Ok out1 -> buyQuote in2 (Some r) = Ok out2 ->
       out1 <= out2).
Proof.
  split; [vm_compute; repeat split; discriminate|].
  split; [reflexivity|]. split; [reflexivity|].
  intros H.
  specialize (H (mkReserves 1000 0 0) 0 1 0 (-1)).
  assert (0 <= -1); [|lia].
  apply H; [vm_compute; repeat split; discriminate | lia | reflexivity | reflexivity].
Qed.

(** ** JavaScript numbers *)

Lemma draw_value_range (d : draw) : (0 <= draw_value d < 1)%Q.
Proof.
  unfold draw_value, Qle, Qlt. cbn.
  assert (d_num d mod N.pos (d_den d) < N.pos (d_den d))%N as H by (by apply N.mod_lt).
  revert H. generalize (d_num d mod N.pos (d_den d))%N. intros; split; lia.
Qed.

(** Comparisons of closed rationals, by computation. *)
Ltac qcompute :=
  first [ apply Qle_bool_iff; vm_compute; reflexivity
        | apply Qlt_alt; vm_compute; reflexivity
        | apply Qeq_bool_iff; vm_compute; reflexivity ].





(** ** Doubles *)

Module DoubleFacts.
Import Double.

Lemma pow2_pos (e : Z) : (0 < pow2 e)%Q.
Proof. by apply Qpower_0_lt. Qed.

Lemma pow2_add (a b : Z) : (pow2 (a + b) == pow2 a * pow2 b)%Q.
Proof. by apply Qpower_plus. Qed.

Lemma pow2_le (a b : Z) : a <= b -> (pow2 a <= pow2 b)%Q.
Proof. intros H. by apply Qpower_le_compat_l. Qed.

Lemma pow2_lt (a b : Z) : a < b -> (pow2 a < pow2 b)%Q.
Proof. intros H. by apply Qpower_lt_compat_l. Qed.

Lemma pow2_lt_inv (a b : Z) : (pow2 a < pow2 b)%Q -> a < b.
Proof. intros H. by apply (Qpower_lt_compat_l_inv 2). Qed.

Lemma pow2_Z (n : Z) : 0 <= n -> (pow2 n == inject_Z (2 ^ n))%Q.
Proof. intros H. unfold pow2. by rewrite Zpower_Qpower. Qed.

Lemma pow2_succ (a : Z) : (pow2 (a + 1) == 2 * pow2 a)%Q.
Proof. rewrite pow2_add. change (pow2 1) with 2%Q. ring. Qed.

Lemma ilog2_spec (q : Q) :
  (0 < q)%Q -> (pow2 (ilog2 q) <= q < pow2 (ilog2 q + 1))%Q.
Proof.
  intros Hq. unfold ilog2.
  destruct q as [n d]. cbn [Qnum Qden]. cbv zeta.
  assert (0 < n) as Hn by (unfold Qlt in Hq; cbn in Hq; lia).
  set (a := Z.log2 n). set (b := Z.log2 (Z.pos d)).
  assert (0 <= a) as Ha by apply Z.log2_nonneg.
  assert (0 <= b) as Hb by apply Z.log2_nonneg.
  destruct (Z.log2_spec n Hn) as [Hn1 Hn2]. fold a in Hn1, Hn2.
  destruct (Z.log2_spec (Z.pos d) ltac:(lia)) as [Hd1 Hd2]. fold b in Hd1, Hd2.
  assert (0 < inject_Z (Z.pos d))%Q as Hdpos by (by unfold Qlt; cbn).
  assert ((n # d) * inject_Z (Z.pos d) == inject_Z n)%Q as q_eq.
  { rewrite (Qmake_Qdiv n d). field.
    intros H. rewrite H in Hdpos. by apply Qlt_irrefl in Hdpos. }
  rewrite Zle_Qle, <- pow2_Z in Hn1 by done.
  rewrite Zlt_Qlt, <- pow2_Z in Hn2 by lia.
  rewrite Zle_Qle, <- pow2_Z in Hd1 by done.
  rewrite Zlt_Qlt, <- pow2_Z in Hd2 by lia.
  change (Z.succ a) with (a + 1) in Hn2. change (Z.succ b) with (b + 1) in Hd2.
  assert (pow2 a == pow2 (a - b) * pow2 b)%Q as Eab.
  { rewrite <- pow2_add. by replace (a - b + b) with a by lia. }
  pose proof (pow2_pos (a - b)) as Hp. pose proof (pow2_pos b) as Hpb.
  pose proof (pow2_succ a) as Ea1. pose proof (pow2_succ b) as Eb1.
  pose proof (pow2_succ (a - b)) as Ek1.
  pose proof (pow2_succ (a - b - 1)) as Ek0.
  replace (a - b - 1 + 1) with (a - b) in * by lia.
  set (N := inject_Z n) in *. set (D := inject_Z (Z.pos d)) in *.
  set (x := n # d) in *.
  set (K := pow2 (a - b)) in *. set (K0 := pow2 (a - b - 1)) in *.
  set (K1 := pow2 (a - b + 1)) in *.
  set (A := pow2 a) in *. set (B := pow2 b) in *.
  set (A1 := pow2 (a + 1)) in *. set (B1 := pow2 (b + 1)) in *.
  destruct (Qle_bool K x) eqn:Hle.
  - apply Qle_bool_iff in Hle. fold K K1.
    clearbody N D x K K0 K1 A B A1 B1. split; [done|]. nra.
  - assert (x < K)%Q as Hlt.
    { apply Qnot_le_lt. intros H%Qle_bool_iff. congruence. }
    replace (a - b - 1 + 1) with (a - b) by lia. fold K K0.
    clearbody N D x K K0 K1 A B A1 B1. split; [nra|done].
Qed.

Lemma ilog2_unique (q : Q) (L : Z) :
  (pow2 L <= q < pow2 (L + 1))%Q -> ilog2 q = L.
Proof.
  intros [H1 H2].
  assert (0 < q)%Q as Hq by (pose proof (pow2_pos L); lra).
  destruct (ilog2_spec q Hq) as [H3 H4].
  assert (ilog2 q < L + 1) by (apply pow2_lt_inv; lra).
  assert (L < ilog2 q + 1) by (apply pow2_lt_inv; lra).
  lia.
Qed.

Lemma ilog2_comp (x y : Q) : (0 < x)%Q -> (x == y)%Q -> ilog2 x = ilog2 y.
Proof.
  intros Hx E. apply ilog2_unique. rewrite E. apply ilog2_spec. by rewrite <- E.
Qed.

Lemma ilog2_mono (x y : Q) : (0 < x)%Q -> (x <= y)%Q -> ilog2 x <= ilog2 y.
Proof.
  intros Hx Hxy.
  destruct (ilog2_spec x Hx) as [H1 _].
  destruct (ilog2_spec y ltac:(lra)) as [_ H2].
  assert (ilog2 x < ilog2 y + 1) by (apply pow2_lt_inv; lra). lia.
Qed.

(** Rounding to the nearest integer *)

Lemma nearest_even_cases (x : Q) :
  let f := Qfloor x in
  (inject_Z f <= x < inject_Z f + 1)%Q /\
  ((nearest_even x = f /\ (x - inject_Z f <= 1 # 2)%Q /\
    ((x - inject_Z f == 1 # 2)%Q -> Z.even f = true)) \/
   (nearest_even x = f + 1 /\ (1 # 2 <= x - inject_Z f)%Q /\
    ((x - inject_Z f == 1 # 2)%Q -> Z.even f = false))).
Proof.
  intros f. split.
  { pose proof (Qfloor_le x). pose proof (Qlt_floor x) as H2.
    rewrite inject_Z_plus in H2. change (inject_Z 1) with 1%Q in H2. done. }
  unfold nearest_even. fold f.
  destruct (Qcompare_spec (x - inject_Z f) (1 # 2)) as [E|E|E].
  - destruct (Z.even f) eqn:Hev; [left|right]; split_and!; try done; lra.
  - left. split_and!; try done; [lra|]. intros E'. lra.
  - right. split_and!; try done; [lra|]. intros E'. lra.
Qed.


Lemma nearest_even_mono (x y : Q) : (x <= y)%Q -> nearest_even x <= nearest_even y.
Proof.
  intros Hxy.
  pose proof (Qfloor_resp_le _ _ Hxy) as Hf.
  destruct (nearest_even_cases x) as [Hx Cx], (nearest_even_cases y) as [Hy Cy].
  destruct (Z.eq_dec (Qfloor x) (Qfloor y)) as [E|NE].
  - rewrite E in *.
    destruct Cx as [(-> & Hx1 & Hx2)|(-> & Hx1 & Hx2)],
             Cy as [(-> & Hy1 & Hy2)|(-> & Hy1 & Hy2)]; try lia.
    exfalso.
    assert (x - inject_Z (Qfloor y) == 1 # 2)%Q as E1 by lra.
    assert (y - inject_Z (Qfloor y) == 1 # 2)%Q as E2 by lra.
    specialize (Hx2 E1). specialize (Hy2 E2). congruence.
  - destruct Cx as [(-> & _)|(-> & _)], Cy as [(-> & _)|(-> & _)]; lia.
Qed.

Lemma nearest_even_Z (n : Z) : nearest_even (inject_Z n) = n.
Proof.
  unfold nearest_even. rewrite Qfloor_Z.
  destruct (Qcompare_spec (inject_Z n - inject_Z n) (1 # 2)) as [E|E|E]; [lra|done|lra].
Qed.

Lemma nearest_even_comp (x y : Q) : (x == y)%Q -> nearest_even x = nearest_even y.
Proof.
  intros E. apply Z.le_antisymm; apply nearest_even_mono; lra.
Qed.


Lemma exponent_comp (x y : Q) : (0 < x)%Q -> (x == y)%Q -> exponent x = exponent y.
Proof. intros Hx E. unfold exponent. by rewrite (ilog2_comp x y). Qed.

Lemma exponent_mono (x y : Q) : (0 < x)%Q -> (x <= y)%Q -> exponent x <= exponent y.
Proof. intros Hx Hxy. unfold exponent. pose proof (ilog2_mono x y Hx Hxy). lia. Qed.

Lemma exponent_above (q : Q) : (0 < q)%Q -> (q < pow2 (exponent q + 53))%Q.
Proof.
  intros Hq. destruct (ilog2_spec q Hq) as [_ H].
  eapply Qlt_le_trans; [exact H|]. apply pow2_le. unfold exponent. lia.
Qed.

Lemma exponent_below (q : Q) :
  (0 < q)%Q -> -1074 < exponent q -> (pow2 (exponent q + 52) <= q)%Q.
Proof.
  intros Hq He. destruct (ilog2_spec q Hq) as [H _].
  eapply Qle_trans; [|exact H]. apply pow2_le. unfold exponent in *. lia.
Qed.



Lemma round_pos_le_pow2 (q : Q) (t : Z) :
  exponent q <= t -> (q <= pow2 t)%Q -> (round_pos q <= pow2 t)%Q.
Proof.
  intros Ht Hq. unfold round_pos. set (e := exponent q) in *.
  assert (pow2 t == inject_Z (2 ^ (t - e)) * pow2 e)%Q as Et.
  { rewrite <- pow2_Z by lia. rewrite <- pow2_add. by replace (t - e + e) with t by lia. }
  rewrite Et. apply Qmult_le_compat_r; [|apply Qlt_le_weak, pow2_pos].
  rewrite <- Zle_Qle. rewrite <- (nearest_even_Z (2 ^ (t - e))).
  apply nearest_even_mono. apply Qle_shift_div_r; [apply pow2_pos|]. by rewrite <- Et.
Qed.

Lemma round_pos_ge_pow2 (q : Q) (t : Z) :
  exponent q <= t -> (pow2 t <= q)%Q -> (pow2 t <= round_pos q)%Q.
Proof.
  intros Ht Hq. unfold round_pos. set (e := exponent q) in *.
  assert (pow2 t == inject_Z (2 ^ (t - e)) * pow2 e)%Q as Et.
  { rewrite <- pow2_Z by lia. rewrite <- pow2_add. by replace (t - e + e) with t by lia. }
  rewrite Et. apply Qmult_le_compat_r; [|apply Qlt_le_weak, pow2_pos].
  rewrite <- Zle_Qle. rewrite <- (nearest_even_Z (2 ^ (t - e))) at 1.
  apply nearest_even_mono. apply Qle_shift_div_l; [apply pow2_pos|]. by rewrite <- Et.
Qed.

Lemma round_pos_nonneg (q : Q) : (0 < q)%Q -> (0 <= round_pos q)%Q.
Proof.
  intros Hq. unfold round_pos.
  apply Qmult_le_0_compat; [|apply Qlt_le_weak, pow2_pos].
  change 0%Q with (inject_Z 0). rewrite <- Zle_Qle.
  rewrite <- (nearest_even_Z 0). apply nearest_even_mono.
  apply Qle_shift_div_l; [apply pow2_pos|]. change (inject_Z 0) with 0%Q. lra.
Qed.

Lemma round_pos_comp (x y : Q) : (0 < x)%Q -> (x == y)%Q -> round_pos x = round_pos y.
Proof.
  intros Hx E. unfold round_pos. rewrite (exponent_comp x y Hx E).
  f_equal. f_equal. apply nearest_even_comp. by rewrite E.
Qed.

Lemma round_pos_mono (x y : Q) :
  (0 < x)%Q -> (x <= y)%Q -> (round_pos x <= round_pos y)%Q.
Proof.
  intros Hx Hxy. pose proof (exponent_mono x y Hx Hxy) as He.
  destruct (Z.eq_dec (exponent x) (exponent y)) as [E|NE].
  - unfold round_pos. rewrite E.
    apply Qmult_le_compat_r; [|apply Qlt_le_weak, pow2_pos].
    rewrite <- Zle_Qle. apply nearest_even_mono.
    apply Qmult_le_compat_r; [done|]. apply Qlt_le_weak, Qinv_lt_0_compat, pow2_pos.
  - assert (-1074 < exponent y) as Hy by (unfold exponent in *; lia).
    pose proof (exponent_below y ltac:(lra) Hy) as Hlow.
    pose proof (exponent_above x Hx) as Hup.
    apply Qle_trans with (pow2 (exponent x + 53)).
    { apply round_pos_le_pow2; [lia|lra]. }
    apply Qle_trans with (pow2 (exponent y + 52)).
    { apply pow2_le. lia. }
    apply round_pos_ge_pow2; [lia|done].
Qed.

(** ** [round] *)

Lemma Qnum_sign (q : Q) :
  match Qnum q with
  | 0 => (q == 0)%Q
  | Z.pos _ => (0 < q)%Q
  | Z.neg _ => (q < 0)%Q
  end.
Proof. destruct q as [[|n|n] d]; unfold Qeq, Qlt; cbn; lia. Qed.

Lemma round_zero (q : Q) : (q == 0)%Q -> round q = 0%Q.
Proof.
  intros E. unfold round. pose proof (Qnum_sign q) as H.
  destruct (Qnum q); [done|lra|lra].
Qed.

Lemma round_pos_eq (q : Q) : (0 < q)%Q -> round q = round_pos q.
Proof.
  intros E. unfold round. pose proof (Qnum_sign q) as H.
  destruct (Qnum q); [lra|done|lra].
Qed.

Lemma round_neg_eq (q : Q) : (q < 0)%Q -> round q = (- round_pos (- q))%Q.
Proof.
  intros E. unfold round. pose proof (Qnum_sign q) as H.
  destruct (Qnum q); [lra|lra|done].
Qed.

Lemma round_comp (x y : Q) : (x == y)%Q -> round x = round y.
Proof.
  intros E. destruct (Q_dec x 0) as [[H|H]|H].
  - rewrite !round_neg_eq by lra. f_equal. apply round_pos_comp; lra.
  - rewrite !round_pos_eq by lra. apply round_pos_comp; lra.
  - rewrite !round_zero; [done|lra|done].
Qed.

#[global] Instance round_proper : Proper (Qeq ==> Qeq) round.
Proof. intros x y E. by rewrite (round_comp x y E). Qed.

Lemma round_opp (q : Q) : (round (- q) == - round q)%Q.
Proof.
  destruct (Q_dec q 0) as [[H|H]|H].
  - rewrite (round_neg_eq q H), round_pos_eq by lra. ring.
  - rewrite (round_pos_eq q H), round_neg_eq by lra.
    rewrite (round_pos_comp (- - q) q); [reflexivity|lra|ring].
  - rewrite !round_zero; [reflexivity|done|lra].
Qed.

Lemma round_nonneg (q : Q) : (0 <= q)%Q -> (0 <= round q)%Q.
Proof.
  intros H. destruct (Qle_lt_or_eq _ _ H) as [Hq|Hq].
  - rewrite round_pos_eq by done. by apply round_pos_nonneg.
  - rewrite round_zero; [lra|lra].
Qed.

Lemma round_nonpos (q : Q) : (q <= 0)%Q -> (round q <= 0)%Q.
Proof.
  intros H. pose proof (round_nonneg (- q) ltac:(lra)) as H'.
  rewrite round_opp in H'. lra.
Qed.

(** Rounding keeps the order. *)
Lemma round_mono (x y : Q) : (x <= y)%Q -> (round x <= round y)%Q.
Proof.
  intros Hxy. destruct (Qlt_le_dec 0 x) as [Hx|Hx].
  - rewrite !round_pos_eq by lra. by apply round_pos_mono.
  - destruct (Qlt_le_dec y 0) as [Hy|Hy].
    + rewrite !round_neg_eq by lra.
      apply Qopp_le_compat. apply round_pos_mono; lra.
    + pose proof (round_nonpos x Hx). pose proof (round_nonneg y Hy). lra.
Qed.



End DoubleFacts.

(** ** Sell trigger policy *)

Lemma determineConsecutiveSells_bounds (availableWallets : Z) (g : rng) :
  let n := (determineConsecutiveSells availableWallets g).1 in
  1 <= n /\ (availableWallets <= 1 -> n = 1) /\
  (2 <= availableWallets -> n <= Z.min 7 availableWallets).
Proof.
  unfold determineConsecutiveSells.
  destruct (Z.leb_spec (Z.min 7 availableWallets) 1); [cbn; lia|].
  unfold Math_random.
  repeat case_match; simplify_eq/=; lia.
Qed.

Lemma determineNextSellPoint_bounds (g : rng) :
  4 <= (determineNextSellPoint g).1 <= 17.
Proof.
  unfold determineNextSellPoint, Math_random.
  repeat case_match; simplify_eq/=; lia.
Qed.

(** C8: with at least one available wallet, the drawn number of consecutive
    sells never exceeds the number of available wallets, whatever the
    random source yields. *)
Theorem determineConsecutiveSells_capped (availableWallets : Z) (g : rng) :
  1 <= availableWallets ->
  (determineConsecutiveSells availableWallets g).1 <= availableWallets.
Proof.
  intros H. pose proof (determineConsecutiveSells_bounds availableWallets g) as (H1 & H2 & H3).
  destruct (Z.le_gt_cases availableWallets 1); lia.
Qed.

Lemma determineConsecutiveSells_capped_witness :
  (determineConsecutiveSells 3 rng_half).1 <= 3.
Proof. apply (determineConsecutiveSells_capped 3 rng_half). lia. Defined.

(** C10: [determineConsecutiveSells] returns exactly 1 for one wallet or
    fewer (also for none, where 1 exceeds the number available), and a
    count between 1 and [min 7 availableWallets] for two or more. *)
Theorem determineConsecutiveSells_range (availableWallets : Z) (g : rng) :
  1 <= (determineConsecutiveSells availableWallets g).1 /\
  (availableWallets <= 1 -> determineConsecutiveSells availableWallets g = (1, g)) /\
  (availableWallets <= 0 ->
   availableWallets < (determineConsecutiveSells availableWallets g).1) /\
  (2 <= availableWallets ->
   (determineConsecutiveSells availableWallets g).1 <= Z.min 7 availableWallets).
Proof.
  pose proof (determineConsecutiveSells_bounds availableWallets g) as (H1 & H2 & H3).
  split; [done|]. split; [|split; [lia | done]].
  intros Hle. unfold determineConsecutiveSells.
  destruct (Z.leb_spec (Z.min 7 availableWallets) 1); [done | lia].
Qed.

Lemma determineConsecutiveSells_range_witness :
  determineConsecutiveSells 0 rng_half = (1, rng_half) /\
  0 < (determineConsecutiveSells 0 rng_half).1 /\
  (determineConsecutiveSells 12 rng_half).1 <= 7.
Proof.
  destruct (determineConsecutiveSells_range 0 rng_half) as (_ & H1 & H2 & _).
  destruct (determineConsecutiveSells_range 12 rng_half) as (_ & _ & _ & H3).
  split; [apply H1; lia|]. split; [apply H2; lia|].
  apply (Z.le_trans _ _ _ (H3 ltac:(lia))). vm_compute. discriminate.
Defined.

(** ** Sizing policy *)






Lemma Double_div_mono_l (a b c : Q) :
  (0 < c)%Q -> (a <= b)%Q -> (Double.div a c <= Double.div b c)%Q.
Proof.
  intros Hc Hab. apply DoubleFacts.round_mono. unfold Qdiv.
  apply Qmult_le_compat_r; [done|]. by apply Qlt_le_weak, Qinv_lt_0_compat.
Qed.











(** ** Containers *)

Lemma JsSet_elem_of_add (k k' : string) (s : list string) :
  k' ∈ JsSet.add k s <-> k' = k \/ k' ∈ s.
Proof.
  unfold JsSet.add. case_decide; [naive_solver|].
  rewrite elem_of_app, list_elem_of_singleton. naive_solver.
Qed.

Lemma JsSet_add_NoDup (k : string) (s : list string) :
  NoDup s -> NoDup (JsSet.add k s).
Proof.
  intros Hs. unfold JsSet.add. case_decide; [done|].
  apply NoDup_app. split_and!; [done| |apply NoDup_singleton].
  intros x Hx ->%list_elem_of_singleton. done.
Qed.

Lemma JsMap_get_Some {V} (k : string) (v : V) (m : list (string * V)) :
  JsMap.get k m = Some v -> (k, v) ∈ m.
Proof.
  induction m as [|[k' v'] m IH]; [done|]. cbn.
  case_decide; intros; simplify_eq; [left | right; auto].
Qed.

Lemma JsMap_get_None {V} (k : string) (m : list (string * V)) :
  JsMap.get k m = None <-> k ∉ m.*1.
Proof.
  induction m as [|[k' v'] m IH]; cbn.
  - split; [intros _; apply not_elem_of_nil | done].
  - rewrite not_elem_of_cons. case_decide; naive_solver.
Qed.

Lemma JsMap_has_true {V} (k : string) (m : list (string * V)) :
  JsMap.has k m = true <-> k ∈ m.*1.
Proof.
  unfold JsMap.has. rewrite bool_decide_eq_true.
  destruct (JsMap.get k m) eqn:E.
  - split; [intros _|by eauto].
    apply JsMap_get_Some in E. by apply (list_elem_of_fmap_2 fst) in E.
  - apply JsMap_get_None in E. split; [by intros [? ?] | done].
Qed.

Lemma JsMap_elem_of_set {V} (k : string) (v : V) (m : list (string * V)) kv :
  kv ∈ JsMap.set k v m -> kv = (k, v) \/ kv ∈ m.
Proof.
  induction m as [|[k' v'] m IH]; cbn.
  - intros ->%list_elem_of_singleton. by left.
  - case_decide; rewrite !elem_of_cons; naive_solver.
Qed.

Lemma JsMap_set_keys {V} (k : string) (v : V) (m : list (string * V)) k' :
  k' ∈ (JsMap.set k v m).*1 <-> k' = k \/ k' ∈ m.*1.
Proof.
  induction m as [|[k1 v1] m IH]; cbn.
  - rewrite list_elem_of_singleton. split; [by left|]. intros [|H]; [done|].
    by apply not_elem_of_nil in H.
  - case_decide; cbn; rewrite !elem_of_cons; naive_solver.
Qed.

Lemma JsMap_set_NoDup {V} (k : string) (v : V) (m : list (string * V)) :
  NoDup m.*1 -> NoDup (JsMap.set k v m).*1.
Proof.
  induction m as [|[k1 v1] m IH]; cbn.
  - intros _. apply NoDup_singleton.
  - rewrite !NoDup_cons. intros [Hk1 Hm]. case_decide; cbn; subst.
    + by apply NoDup_cons.
    + apply NoDup_cons. split; [|auto].
      rewrite JsMap_set_keys. naive_solver.
Qed.

Lemma JsMap_elem_of_delete {V} (k : string) (m : list (string * V)) kv :
  kv ∈ JsMap.delete k m <-> kv.1 <> k /\ kv ∈ m.
Proof. unfold JsMap.delete. apply (list_elem_of_filter (fun kv => kv.1 <> k)). Qed.

Lemma JsMap_delete_NoDup {V} (k : string) (m : list (string * V)) :
  NoDup m.*1 -> NoDup (JsMap.delete k m).*1.
Proof.
  intros H. eapply sublist_NoDup; [exact H|].
  apply fmap_sublist, sublist_filter.
Qed.

(** ** Single sells *)

Lemma executeWalletSell_used (l l' : ledger) info out b k :
  executeWalletSell l info out = (b, l') ->
  k ∈ usedSellWallets l' <-> k = h_pubKey info \/ k ∈ usedSellWallets l.
Proof.
  unfold executeWalletSell. destruct out; intros; simplify_eq; cbn;
    apply JsSet_elem_of_add.
Qed.

Lemma executeWalletSell_held (l l' : ledger) info out b kv :
  executeWalletSell l info out = (b, l') ->
  kv ∈ successfulBuyWallets l' -> kv ∈ successfulBuyWallets l.
Proof.
  unfold executeWalletSell. destruct out; intros; simplify_eq; cbn in *; [|done].
  by eapply JsMap_elem_of_delete.
Qed.

Lemma executeWalletSell_wf (l l' : ledger) info out b :
  executeWalletSell l info out = (b, l') -> ledger_wf l -> ledger_wf l'.
Proof.
  unfold executeWalletSell, ledger_wf. intros H (H1 & H2 & H3).
  destruct out; simplify_eq; cbn; split_and!;
    auto using JsSet_add_NoDup, JsMap_delete_NoDup.
  rewrite Forall_forall in H2. apply Forall_forall.
  intros kv [_ Hkv]%JsMap_elem_of_delete. auto.
Qed.

Lemma eligibleWallets_spec (l : ledger) last info :
  info ∈ eligibleWallets l last <->
  exists k, (k, info) ∈ successfulBuyWallets l /\ sellFilter l last k.
Proof.
  unfold eligibleWallets. rewrite list_elem_of_fmap. split.
  - intros ([k i] & -> & [Hf Hin]%list_elem_of_filter). eauto.
  - intros (k & Hin & Hf). exists (k, info). split; [done|].
    by apply list_elem_of_filter.
Qed.

(** The random index stays inside the list. *)
Lemma random_index_in_range (d : draw) (n : nat) :
  (0 < n)%nat ->
  (Z.to_nat (Math_floor (draw_value d * inject_Z (Z.of_nat n))) < n)%nat.
Proof.
  intros Hn. pose proof (draw_value_range d) as [H0 H1].
  unfold Math_floor.
  assert (0 <= Qfloor (draw_value d * inject_Z (Z.of_nat n)) < Z.of_nat n); [|lia].
  assert (0 < inject_Z (Z.of_nat n))%Q as Hq.
  { change 0%Q with (inject_Z 0). rewrite <- Zlt_Qlt. lia. }
  set (x := (draw_value d * inject_Z (Z.of_nat n))%Q).
  assert (0 <= x < inject_Z (Z.of_nat n))%Q as [Hx0 Hxn] by (subst x; split; nra).
  split.
  - rewrite <- (Qfloor_Z 0). by apply Qfloor_resp_le.
  - rewrite Zlt_Qlt. eapply Qle_lt_trans; [apply Qfloor_le | done].
Qed.


Lemma ledger_wf_entry (l : ledger) k info :
  ledger_wf l -> (k, info) ∈ successfulBuyWallets l -> h_pubKey info = k.
Proof.
  intros (_ & H & _) Hin. rewrite Forall_forall in H. exact (H _ Hin).
Qed.

Lemma eligibleWallets_sellable (l : ledger) last info :
  ledger_wf l -> info ∈ eligibleWallets l last ->
  (h_pubKey info, info) ∈ successfulBuyWallets l /\
  sellFilter l last (h_pubKey info).
Proof.
  intros Hwf (k & Hin & Hf)%eligibleWallets_spec.
  by rewrite (ledger_wf_entry l k info).
Qed.

(** What a call of [executeSessionSell] can do: nothing (no wallet is
    eligible and the fallback does not apply), or one call of
    [executeWalletSell], on an eligible wallet or on the fallback wallet. *)
Lemma executeSessionSell_cases (l : ledger) last out g ret l' g' evs :
  ledger_wf l ->
  executeSessionSell l last out g = (ret, l', g', evs) ->
  (evs = [] /\ l' = l /\ ret = RetObject false None /\
   eligibleWallets l last = [] /\
   ~ (exists k, last = Some k /\ k <> ""%string /\ sellable l k)) \/
  (exists info b,
     evs = [EvSell (h_pubKey info) b] /\
     executeWalletSell l info out = (b, l') /\
     (h_pubKey info, info) ∈ successfulBuyWallets l /\
     (h_pubKey info ∉ usedSellWallets l) /\
     ((info ∈ eligibleWallets l last /\
       ret = RetObject b (if b then Some (h_pubKey info) else None)) \/
      (eligibleWallets l last = [] /\ last = Some (h_pubKey info) /\
       h_pubKey info <> ""%string /\ ret = RetBoolean b))).
Proof.
  intros Hwf. unfold executeSessionSell.
  destruct (decide (length (eligibleWallets l last) = 0%nat)) as [Hlen|Hlen].
  - apply nil_length_inv in Hlen.
    destruct last as [k|]; cbn [truthy default from_option id].
    + destruct (decide (k = ""%string)) as [->|Hk].
      { rewrite bool_decide_true by done. cbn. intros ?; simplify_eq.
        left. split_and!; try done. intros (k' & Hk & Hne & Hs). congruence. }
      rewrite bool_decide_false by done. cbn [negb andb].
      destruct (JsMap.has k (successfulBuyWallets l)) eqn:Hhas; cbn [andb].
      2:{ intros ?; simplify_eq. left. split_and!; try done.
          intros (k' & ? & _ & [Hk' _]). simplify_eq.
          apply JsMap_has_true in Hk'. congruence. }
      unfold JsSet.has. case_bool_decide as Hused; cbn [negb].
      { intros ?; simplify_eq. left. split_and!; try done.
        intros (k' & ? & _ & [_ Hk']). simplify_eq. }
      destruct (JsMap.get k (successfulBuyWallets l)) as [info|] eqn:Hget.
      2:{ apply JsMap_get_None in Hget. apply JsMap_has_true in Hhas. done. }
      apply JsMap_get_Some in Hget.
      pose proof (ledger_wf_entry _ _ _ Hwf Hget) as Hpk.
      destruct (executeWalletSell l info out) as [b l1] eqn:Hsell.
      intros ?; simplify_eq. right. exists info, b.
      split_and!; try done. right. done.
    + cbn [andb]. intros ?; simplify_eq. left. split_and!; try done.
      intros (? & ? & _). done.
  - unfold Math_random.
    destruct (eligibleWallets l last !! _) as [info|] eqn:Hidx.
    2:{ apply lookup_ge_None in Hidx.
        pose proof (random_index_in_range (g 0%nat) (length (eligibleWallets l last))).
        lia. }
    apply list_elem_of_lookup_2 in Hidx.
    destruct (eligibleWallets_sellable _ _ _ Hwf Hidx) as [Hin [Hused _]].
    destruct (executeWalletSell l info out) as [b l1] eqn:Hsell.
    intros ?; simplify_eq. right. exists info, b.
    split_and!; try done. by left.
Qed.

Lemma sells_only_refl (l : ledger) : sells_only l l.
Proof. by split. Qed.

Lemma sells_only_trans (l1 l2 l3 : ledger) :
  sells_only l1 l2 -> sells_only l2 l3 -> sells_only l1 l3.
Proof. intros [? ?] [? ?]. split; auto. Qed.

Lemma sells_only_sellable (l l' : ledger) k :
  sells_only l l' -> sellable l' k -> sellable l k.
Proof.
  intros [Hu Hm] [Hk Hn]. split; [|by auto].
  apply list_elem_of_fmap in Hk as (kv & -> & Hkv).
  apply list_elem_of_fmap_2. auto.
Qed.

Lemma executeWalletSell_sells_only (l l' : ledger) info out b :
  executeWalletSell l info out = (b, l') -> sells_only l l'.
Proof.
  intros H. split.
  - intros k Hk. rewrite (executeWalletSell_used _ _ _ _ _ _ H). by right.
  - intros kv. by eapply executeWalletSell_held.
Qed.

(** One call of [executeSessionSell]: the ledger stays well formed and
    changes as sells do; a wallet it sells held tokens, was not yet used
    for a sell, and is used afterwards. *)
Lemma executeSessionSell_spec (l : ledger) last out g ret l' g' evs :
  ledger_wf l ->
  executeSessionSell l last out g = (ret, l', g', evs) ->
  ledger_wf l' /\ sells_only l l' /\
  (forall pk b, EvSell pk b ∈ evs -> sellable l pk /\ pk ∈ usedSellWallets l') /\
  Forall sell_event evs.
Proof.
  intros Hwf Hex.
  destruct (executeSessionSell_cases _ _ _ _ _ _ _ _ Hwf Hex)
    as [(-> & -> & _)|(info & b & -> & Hsell & Hin & Hused & _)].
  - split_and!; [done|apply sells_only_refl| |constructor].
    intros pk b Hin. by inversion Hin.
  - split_and!.
    + by eapply executeWalletSell_wf.
    + by eapply executeWalletSell_sells_only.
    + intros pk b' Heq%list_elem_of_singleton. simplify_eq. split.
      * split; [|done]. by apply (list_elem_of_fmap_2 fst) in Hin.
      * rewrite (executeWalletSell_used _ _ _ _ _ _ Hsell). by left.
    + by repeat constructor.
Qed.

(** The loop of [executeSessionSells]. *)
Lemma sellLoop_spec (remaining : nat) :
  forall i l last n outs g count l' g' evs,
  ledger_wf l ->
  sellLoop remaining i l last n outs g = (count, l', g', evs) ->
  ledger_wf l' /\ sells_only l l' /\
  (forall pk b, EvSell pk b ∈ evs -> sellable l pk /\ pk ∈ usedSellWallets l') /\
  Forall sell_event evs /\
  (n <= count <= n + Z.of_nat remaining).
Proof.
  induction remaining as [|remaining IH]; intros i l last n outs g count l' g' evs Hwf.
  { cbn. intros ?; simplify_eq.
    split_and!; try done; try lia; try apply sells_only_refl.
    intros pk b Hin. by inversion Hin. }
  cbn [sellLoop].
  destruct (executeSessionSell l last (outs i) g) as [[[ret l1] g1] ev] eqn:Hex.
  destruct (executeSessionSell_spec _ _ _ _ _ _ _ _ Hwf Hex) as (Hwf1 & Hso1 & Hev1 & Hfa1).
  destruct (ret_success ret).
  2:{ intros ?; simplify_eq. split_and!; try done; lia. }
  set (dg := match remaining with O => _ | S _ => _ end).
  assert (Forall sell_event dg.1) as Hdelay.
  { subst dg. destruct remaining; [constructor|].
    destruct (getRandomSellDelay g1). by repeat constructor. }
  assert (forall pk b, EvSell pk b ∉ dg.1) as Hnosell.
  { subst dg. destruct remaining; cbn; [intros; apply not_elem_of_nil|].
    destruct (getRandomSellDelay g1). cbn. intros pk b Hin%list_elem_of_singleton. done. }
  destruct dg as [delay g2].
  destruct (sellLoop remaining (S i) l1 (ret_wallet ret) (n + 1) outs g2)
    as [[[c l2] g3] evs2] eqn:Hloop.
  destruct (IH _ _ _ _ _ _ _ _ _ _ Hwf1 Hloop) as (Hwf2 & Hso2 & Hev2 & Hfa2 & Hc).
  intros ?; simplify_eq. split_and!; try done; try lia.
  - by eapply sells_only_trans.
  - intros pk b. rewrite !elem_of_app. intros [Hin|[Hin|Hin]].
    + destruct (Hev1 _ _ Hin) as [? Hu]. split; [done|]. by apply Hso2.
    + by apply Hnosell in Hin.
    + destruct (Hev2 _ _ Hin) as [Hs Hu]. split; [|done].
      by eapply sells_only_sellable.
  - rewrite !Forall_app. done.
Qed.

(** [executeSessionSells] as a whole. *)
Lemma executeSessionSells_spec (l : ledger) last outs g res l' g' evs :
  ledger_wf l ->
  executeSessionSells l last outs g = (res, l', g', evs) ->
  ledger_wf l' /\ sells_only l l' /\
  (forall pk b, EvSell pk b ∈ evs -> sellable l pk /\ pk ∈ usedSellWallets l') /\
  Forall sell_event evs /\
  sr_success res = (0 <? sr_count res) /\
  (0 <= sr_count res <= Z.max 1 (Z.min 7 (availableWalletCount l))).
Proof.
  intros Hwf. unfold executeSessionSells.
  destruct (Z.eqb_spec (availableWalletCount l) 0) as [E|E].
  { intros ?; simplify_eq. cbn.
    split_and!; try done; try lia; try apply sells_only_refl.
    intros pk b Hin. by inversion Hin. }
  pose proof (determineConsecutiveSells_bounds (availableWalletCount l) g) as (Hb1 & Hb2 & Hb3).
  destruct (determineConsecutiveSells (availableWalletCount l) g) as [n g1].
  destruct (sellLoop (Z.to_nat n) 0 l last 0 outs g1) as [[[c l1] g2] evs1] eqn:Hloop.
  destruct (sellLoop_spec _ _ _ _ _ _ _ _ _ _ _ Hwf Hloop) as (Hwf1 & Hso & Hev & Hfa & Hc).
  intros ?; simplify_eq. cbn in *. split_and!; try done; try lia.
Qed.

(** ** The refresh of the wallet cycle *)

Lemma shuffle_Permutation {A} (picks : list nat) (l : list A) :
  shuffle picks l ≡ₚ l.
Proof.
  revert l. induction picks as [|p picks IH]; intros l; cbn; [done|].
  destruct (l !! _) as [x|] eqn:E; [|done].
  rewrite IH. symmetry. by apply delete_Permutation.
Qed.

Lemma find_selected (cfg : config) (k : string) :
  match List.find (fun w => bool_decide (wi_pubKey w = k)) (selectedWallets cfg) with
  | Some w => wi_pubKey w = k /\ k ∈ selectedKeys cfg
  | None => k ∉ selectedKeys cfg
  end.
Proof.
  destruct (List.find _ _) as [w|] eqn:E.
  - apply find_some in E as [Hin Hk]. apply bool_decide_eq_true in Hk.
    split; [done|]. subst k. apply list_elem_of_fmap_2. by apply list_elem_of_In.
  - intros (w & -> & Hin)%list_elem_of_fmap.
    apply list_elem_of_In in Hin.
    pose proof (find_none _ _ E _ Hin) as Hf. cbn in Hf.
    by rewrite bool_decide_true in Hf.
Qed.

(** The [for] loop of the refresh: the blacklist only grows, and only by
    keys of the loop; every key at the ceiling gets blacklisted; the
    entries pushed are distinct, not blacklisted, below the ceiling and
    carry the count plus one. *)
Lemma refreshCycle_spec (cfg : config) (counts : gmap string Z) views (keys : list string) :
  forall acc bl g cycle bl' g',
  NoDup keys ->
  refreshCycle cfg counts views keys acc bl g = (cycle, bl', g') ->
  bl ⊆ bl' /\
  (forall k, k ∈ bl' -> k ∈ bl \/ k ∈ keys) /\
  (forall k, k ∈ keys -> k ∈ selectedKeys cfg ->
     MAX_REBUY_COUNT <= rebuyCountOf counts k -> k ∈ bl') /\
  exists new,
    cycle = acc ++ new /\ NoDup (wi_pubKey <$> new) /\
    Forall (fun w =>
      wi_pubKey w ∈ keys /\ (wi_pubKey w ∉ bl') /\ wi_pubKey w ∈ selectedKeys cfg /\
      wi_rebuy w = Some (rebuyCountOf counts (wi_pubKey w) + 1) /\
      rebuyCountOf counts (wi_pubKey w) < MAX_REBUY_COUNT) new.
Proof.
  induction keys as [|key keys IH]; intros acc bl g cycle bl' g' Hnd.
  { cbn. intros ?; simplify_eq. split_and!; [done|auto|set_solver|].
    exists []. rewrite app_nil_r. split_and!; [done|constructor|constructor]. }
  apply NoDup_cons in Hnd as [Hkey Hnd]. cbn [refreshCycle].
  assert (forall acc0 bl0 g0,
    refreshCycle cfg counts views keys acc0 bl0 g0 = (cycle, bl', g') ->
    bl ⊆ bl0 -> (forall k, k ∈ bl0 -> k ∈ bl \/ k = key) ->
    (key ∈ selectedKeys cfg -> MAX_REBUY_COUNT <= rebuyCountOf counts key -> key ∈ bl0) ->
    (exists new0, acc0 = acc ++ new0 /\
       (new0 = [] \/
        (key ∉ bl0) /\ exists w, new0 = [w] /\ wi_pubKey w = key /\ key ∈ selectedKeys cfg /\
          wi_rebuy w = Some (rebuyCountOf counts key + 1) /\
          rebuyCountOf counts key < MAX_REBUY_COUNT)) ->
    bl ⊆ bl' /\
    (forall k, k ∈ bl' -> k ∈ bl \/ k ∈ key :: keys) /\
    (forall k, k ∈ key :: keys -> k ∈ selectedKeys cfg ->
       MAX_REBUY_COUNT <= rebuyCountOf counts k -> k ∈ bl') /\
    exists new,
      cycle = acc ++ new /\ NoDup (wi_pubKey <$> new) /\
      Forall (fun w =>
        wi_pubKey w ∈ key :: keys /\ (wi_pubKey w ∉ bl') /\ wi_pubKey w ∈ selectedKeys cfg /\
        wi_rebuy w = Some (rebuyCountOf counts (wi_pubKey w) + 1) /\
        rebuyCountOf counts (wi_pubKey w) < MAX_REBUY_COUNT) new) as Hstep.
  { intros acc0 bl0 g0 Hrec Hsub Hbl0 Hmax (new0 & -> & Hnew0).
    destruct (IH _ _ _ _ _ _ Hnd Hrec) as (Hs & Hin & Hm & new & -> & Hndn & Hfa).
    split_and!.
    - set_solver.
    - intros k Hk. destruct (Hin k Hk) as [Hk0|Hk0]; [|set_solver].
      destruct (Hbl0 k Hk0); set_solver.
    - intros k [->|Hk]%elem_of_cons Hsel Hc; [|by auto].
      apply Hs. auto.
    - exists (new0 ++ new). split; [by rewrite app_assoc|].
      assert (Forall (fun w => wi_pubKey w ∈ key :: keys /\ (wi_pubKey w ∉ bl') /\
                wi_pubKey w ∈ selectedKeys cfg /\
                wi_rebuy w = Some (rebuyCountOf counts (wi_pubKey w) + 1) /\
                rebuyCountOf counts (wi_pubKey w) < MAX_REBUY_COUNT) new) as Hfa'.
      { eapply Forall_impl; [exact Hfa|]. cbn. intros w (? & ? & ? & ? & ?).
        split_and!; try done. by right. }
      destruct Hnew0 as [->|(Hnb & w & -> & Hw & Hsel & Hr & Hlt)]; [done|].
      cbn. split.
      + apply NoDup_cons. split; [|done].
        intros (w' & Hpk & Hw')%list_elem_of_fmap.
        rewrite Forall_forall in Hfa. destruct (Hfa _ Hw') as (Hk' & _).
        congruence.
      + constructor; [|done]. rewrite Hw. split_and!; try done; [by left|].
        intros Hb. destruct (Hin _ Hb) as [?|?]; done. }
  destruct (decide (key ∈ bl)) as [Hb|Hb].
  { intros Hrec. eapply Hstep; [exact Hrec|done|auto|auto|].
    exists []. rewrite app_nil_r. auto. }
  pose proof (find_selected cfg key) as Hfind.
  destruct (List.find _ _) as [orig|].
  2:{ intros Hrec. eapply Hstep; [exact Hrec|done|auto|done|].
      exists []. rewrite app_nil_r. auto. }
  destruct Hfind as [Hpk Hsel].
  destruct (Z.leb_spec MAX_REBUY_COUNT (rebuyCountOf counts key)) as [Hc|Hc].
  { intros Hrec. eapply Hstep; [exact Hrec|set_solver|set_solver|set_solver|].
    exists []. rewrite app_nil_r. auto. }
  destruct (calculateDynamicBuyAmount (views key) g) as [amount g1].
  destruct (JsNumber.ltb amount (Finite (Double.round 0.01))).
  { intros Hrec. eapply Hstep; [exact Hrec|set_solver|set_solver|set_solver|].
    exists []. rewrite app_nil_r. auto. }
  intros Hrec. eapply Hstep; [exact Hrec|done|auto|lia|].
  eexists [_]. split; [done|]. right. split; [done|].
  eexists. split; [done|]. cbn. rewrite Hpk. done.
Qed.

(** ** The invariant of the loop *)

Lemma rebuyCountOf_insert (m : gmap string Z) (k k' : string) (c : Z) :
  rebuyCountOf (<[k := c]> m) k' = if decide (k = k') then c else rebuyCountOf m k'.
Proof.
  unfold rebuyCountOf. case_decide.
  - subst. by rewrite lookup_insert_eq.
  - by rewrite lookup_insert_ne.
Qed.

Lemma rebuyCountOf_empty (k : string) : rebuyCountOf ∅ k = 0.
Proof. unfold rebuyCountOf. by rewrite lookup_empty. Qed.

Lemma initSession_inv (cfg : config) (g : rng) : session_inv cfg (initSession cfg g).
Proof.
  unfold session_inv, initSession, rebuyCount. cbn. split_and!.
  - split_and!; cbn; constructor.
  - left. split_and!; try done. unfold remainingCycle, selectedWallets. cbn.
    apply Forall_fmap, Forall_true. done.
  - intros k. rewrite rebuyCountOf_empty. unfold MAX_REBUY_COUNT. lia.
  - intros k. rewrite rebuyCountOf_empty. lia.
Qed.

(** The refresh keeps the invariant and the books; when it rebuilds the
    cycle it blacklists every wallet whose count is at the ceiling; and
    unless it ends the run there is an entry to read. *)
Lemma refresh_spec (cfg : config) (o : oracle) (s s1 : session) g og :
  session_inv cfg s ->
  refresh cfg o s g = (s1, og) ->
  session_inv cfg s1 /\
  books s1 = books s /\ rebuyCountMap s1 = rebuyCountMap s /\
  buyCounter s1 = buyCounter s /\ buysUntilNextSell s1 = buysUntilNextSell s /\
  blacklistedWallets s ⊆ blacklistedWallets s1 /\
  (is_Some og -> is_Some (walletCycle s1 !! walletCyclePosition s1)) /\
  ((length (walletCycle s) <= walletCyclePosition s)%nat ->
   forall k, rebuyCount s k = MAX_REBUY_COUNT -> k ∈ blacklistedWallets s1).
Proof.
  intros (Hwf & Hcyc & Hrange & Hpos). unfold refresh.
  destruct (decide (length (walletCycle s) <= walletCyclePosition s)%nat) as [Hdue|Hdue].
  2:{ intros ?; simplify_eq. split_and!; try done; try lia.
      intros _. apply lookup_lt_is_Some. lia. }
  destruct (refreshCycle _ _ _ _ _ _ _) as [[cycle bl'] g1] eqn:Href.
  apply refreshCycle_spec in Href as (Hsub & Hbl & Hmax & new & Hnew & Hnd & Hfa);
    [|apply Hwf].
  cbn in Hnew. subst new.
  assert (forall k, rebuyCount s k = MAX_REBUY_COUNT -> k ∈ bl') as Hblk.
  { intros k Hk. destruct (Hpos k) as [Hu Hs]; [unfold MAX_REBUY_COUNT in *; lia|].
    apply Hmax; [done..|]. unfold rebuyCount in Hk. lia. }
  assert (forall c p,
    Forall (fun w => wi_pubKey w ∈ usedSellWallets (books s) /\ (wi_pubKey w ∉ bl') /\
       wi_pubKey w ∈ selectedKeys cfg /\
       wi_rebuy w = Some (rebuyCountOf (rebuyCountMap s) (wi_pubKey w) + 1) /\
       rebuyCountOf (rebuyCountMap s) (wi_pubKey w) < MAX_REBUY_COUNT) (drop p c) ->
    NoDup (wi_pubKey <$> drop p c) ->
    session_inv cfg (with_cycle c p (with_blacklistedWallets bl' s))) as Hinv.
  { intros c p Hc Hn. split_and!; try done. right. split; [|done].
    eapply Forall_impl; [exact Hc|]. intros w (? & ? & ? & ? & ?).
    split_and!; done. }
  destruct (decide (length cycle = 0%nat)) as [Hlen|Hlen].
  - intros ?; simplify_eq. split_and!; try done; try (by intros [? ?]).
    apply Hinv; rewrite drop_nil; [constructor|cbn; constructor].
  - intros ?; simplify_eq. split_and!; try done.
    + apply Hinv; rewrite drop_0.
      * by rewrite shuffle_Permutation.
      * by rewrite shuffle_Permutation.
    + intros _. cbn. apply lookup_lt_is_Some.
      rewrite (Permutation_length (shuffle_Permutation _ _)). lia.
Qed.

Lemma session_inv_books (cfg : config) (s : session) (l : ledger) :
  session_inv cfg s -> ledger_wf l ->
  (forall k, k ∈ usedSellWallets (books s) -> k ∈ usedSellWallets l) ->
  session_inv cfg (with_books l s).
Proof.
  intros (Hwf & Hcyc & Hrange & Hpos) Hl Hused. split_and!; try done.
  - destruct Hcyc as [?|[Hfa Hnd]]; [by left|right]. split; [|done].
    eapply Forall_impl; [exact Hfa|]. intros w (? & ? & ? & ? & ?).
    split_and!; try done. by apply Hused.
  - intros k Hk. destruct (Hpos k Hk). split; [by apply Hused|done].
Qed.

(** Reading the next entry of the cycle. *)
Lemma advance_spec (cfg : config) (s : session) (w : walletInfo) :
  session_inv cfg s ->
  walletCycle s !! walletCyclePosition s = Some w ->
  session_inv cfg (with_cycle (walletCycle s) (S (walletCyclePosition s)) s) /\
  ((rebuyCountMap s = ∅ /\ blacklistedWallets s = ∅ /\ wi_rebuy w = None) \/
   (rebuy_entry cfg s w /\
    Forall (rebuy_entry cfg s) (drop (S (walletCyclePosition s)) (walletCycle s)) /\
    NoDup (wi_pubKey <$> drop (S (walletCyclePosition s)) (walletCycle s)) /\
    wi_pubKey w ∉ wi_pubKey <$> drop (S (walletCyclePosition s)) (walletCycle s))).
Proof.
  intros (Hwf & Hcyc & Hrange & Hpos) Hw.
  pose proof (drop_S _ _ _ Hw) as Hdrop.
  unfold first_cycle, rebuy_cycle, remainingCycle in Hcyc. rewrite Hdrop in Hcyc.
  destruct Hcyc as [(Hm & Hb & Hfa)|[Hfa Hnd]].
  - apply Forall_cons in Hfa as [Hw0 Hfa]. split; [|by left].
    split_and!; try done. by left.
  - apply Forall_cons in Hfa as [Hw0 Hfa]. cbn in Hnd.
    apply NoDup_cons in Hnd as [Hnin Hnd]. split; [|by right].
    split_and!; try done. by right.
Qed.

Lemma recordBuy_spec (cfg : config) (s : session) (w : walletInfo) ta tb :
  session_inv cfg s ->
  walletCycle s !! walletCyclePosition s = Some w ->
  let s' := recordBuy w ta tb
              (with_cycle (walletCycle s) (S (walletCyclePosition s)) s) in
  session_inv cfg s' /\
  (forall k, rebuyCount s k <= rebuyCount s' k) /\
  blacklistedWallets s' = blacklistedWallets s /\
  usedSellWallets (books s') = usedSellWallets (books s) /\
  buyCounter s' = buyCounter s + 1 /\
  buysUntilNextSell s' = buysUntilNextSell s /\
  wi_pubKey w ∈ (successfulBuyWallets (books s')).*1.
Proof.
  intros Hinv Hw.
  destruct (advance_spec _ _ _ Hinv Hw) as [(Hwf & Hcyc & Hrange & Hpos) Hcase].
  assert (ledger_wf (mkLedger
            (JsMap.set (wi_pubKey w) (mkHolding (wi_pubKey w) (wi_index w) ta tb)
                       (successfulBuyWallets (books s)))
            (usedSellWallets (books s)))) as Hwf'.
  { destruct Hwf as (H1 & H2 & H3). split_and!; cbn; [|  |done].
    - by apply JsMap_set_NoDup.
    - rewrite Forall_forall in H2. apply Forall_forall.
      intros kv [->|Hkv]%JsMap_elem_of_set; [done|auto]. }
  assert (wi_pubKey w ∈ (JsMap.set (wi_pubKey w) (mkHolding (wi_pubKey w) (wi_index w) ta tb)
                       (successfulBuyWallets (books s))).*1) as Hheld.
  { apply JsMap_set_keys. by left. }
  unfold recordBuy. cbn zeta.
  destruct Hcase as [(Hm & Hb & Hr)|(Hre & Hfa & Hnd & Hnin)].
  - rewrite Hr. cbn. split_and!; try done.
  - destruct Hre as (Hr & Hlt & Hnb & Hu & Hsel). rewrite Hr. cbn.
    unfold rebuyCount. cbn.
    assert (forall k, rebuyCountOf (rebuyCountMap s) k
                      <= rebuyCountOf (<[wi_pubKey w:=rebuyCount s (wi_pubKey w) + 1]>
                                         (rebuyCountMap s)) k) as Hmono.
    { intros k. rewrite rebuyCountOf_insert. case_decide; [subst; unfold rebuyCount|]; lia. }
    split_and!; try done.
    split_and!; try done.
    + right. split; [|done]. unfold remainingCycle. cbn.
      rewrite Forall_forall in Hfa. apply Forall_forall. intros w' Hw'.
      destruct (Hfa _ Hw') as (Hr' & Hlt' & Hnb' & Hu' & Hsel').
      assert (wi_pubKey w <> wi_pubKey w') as Hne.
      { intros Heq. apply Hnin. rewrite Heq. by apply list_elem_of_fmap_2. }
      unfold rebuy_entry, rebuyCount in *. cbn.
      rewrite rebuyCountOf_insert, decide_False by done. done.
    + intros k. unfold rebuyCount. cbn. rewrite rebuyCountOf_insert.
      specialize (Hrange k). unfold rebuyCount in *. cbn in Hrange.
      case_decide; [subst k|]; lia.
    + intros k. unfold rebuyCount. cbn. rewrite rebuyCountOf_insert.
      case_decide; [by subst|]. apply Hpos.
Qed.

Lemma sellTrigger_spec (cfg : config) (w : walletInfo) outs (s s' : session) g g' evs :
  session_inv cfg s ->
  sellTrigger w outs s g = (s', g', evs) ->
  session_inv cfg s' /\
  rebuyCountMap s' = rebuyCountMap s /\
  blacklistedWallets s' = blacklistedWallets s /\
  buyCounter s' = buyCounter s /\
  sells_only (books s) (books s') /\
  (forall pk b, EvSell pk b ∈ evs ->
     sellable (books s) pk /\ pk ∈ usedSellWallets (books s')) /\
  Forall sell_event evs.
Proof.
  intros Hinv. unfold sellTrigger.
  destruct (buysUntilNextSell s <=? buyCounter s).
  2:{ intros ?; simplify_eq. split_and!; try done; try apply sells_only_refl.
      intros pk b Hin. by inversion Hin. }
  destruct (executeSessionSells _ _ _ _) as [[[res l] g1] evs1] eqn:Hex.
  apply executeSessionSells_spec in Hex as (Hwf & Hso & Hev & Hfa & _); [|apply Hinv].
  pose proof (session_inv_books cfg s l Hinv Hwf (proj1 Hso)) as Hinv'.
  destruct (sr_success res).
  - destruct (determineNextSellPoint g1) as [n g2].
    intros ?; simplify_eq. split_and!; try done; exact Hinv'.
  - destruct (Math_random g1) as [r g2].
    intros ?; simplify_eq. split_and!; try done; exact Hinv'.
Qed.

Lemma pauseWait_events (n : nat) (e : event) :
  e ∈ pauseWait n -> (exists p, e = EvPausePoll p) \/ e = EvSleep 1000.
Proof.
  induction n as [|n IH]; cbn.
  - intros ->%list_elem_of_singleton. eauto.
  - rewrite !elem_of_cons. intros [->|[->|H]]; eauto.
Qed.

(** One iteration of the loop, from a state that satisfies the invariant. *)
Lemma tick_spec (cfg : config) (o : oracle) (s : session) :
  session_inv cfg s ->
  session_inv cfg (tick_state (tick cfg o s)) /\
  (forall k, rebuyCount s k <= rebuyCount (tick_state (tick cfg o s)) k) /\
  blacklistedWallets s ⊆ blacklistedWallets (tick_state (tick cfg o s)) /\
  (forall k, k ∈ usedSellWallets (books s) ->
     k ∈ usedSellWallets (books (tick_state (tick cfg o s)))) /\
  (forall k, rebuyCount s k = MAX_REBUY_COUNT \/ k ∈ blacklistedWallets s ->
     tickWallet cfg o s <> Some k) /\
  ((length (walletCycle s) <= walletCyclePosition s)%nat ->
   forall k, rebuyCount s k = MAX_REBUY_COUNT ->
     k ∈ blacklistedWallets (tick_state (tick cfg o s))) /\
  (forall pk a b, EvBuy pk a b ∈ tick_trace (tick cfg o s) ->
     tickWallet cfg o s = Some pk) /\
  (forall pk b, EvSell pk b ∈ tick_trace (tick cfg o s) ->
     (pk ∉ usedSellWallets (books s)) /\
     pk ∈ usedSellWallets (books (tick_state (tick cfg o s)))).
Proof.
  intros Hinv. unfold tick, tickWallet.
  destruct (refresh cfg o s (o_rng o)) as [s1 og] eqn:Href.
  destruct (refresh_spec _ _ _ _ _ _ Hinv Href)
    as (Hinv1 & Hbooks & Hcounts & Hbc & Hun & Hbl & Hsome & Hdue).
  assert (forall pk a b n, EvBuy pk a b ∉ pauseWait n) as Hnobuy.
  { intros pk a b n [[p ?]|?]%pauseWait_events; done. }
  assert (forall pk b n, EvSell pk b ∉ pauseWait n) as Hnosell.
  { intros pk b n [[p ?]|?]%pauseWait_events; done. }
  destruct og as [g|]; cbn [tick_state tick_trace].
  2:{ split_and!; try done.
      - intros k. unfold rebuyCount. rewrite Hcounts. lia.
      - by rewrite Hbooks.
      - intros pk a b Hin. by apply Hnobuy in Hin.
      - intros pk b Hin. by apply Hnosell in Hin. }
  destruct (Hsome ltac:(eauto)) as [w Hw]. rewrite Hw. cbn [fmap option_fmap option_map].
  assert (forall k, rebuyCount s k = MAX_REBUY_COUNT \/ k ∈ blacklistedWallets s ->
            Some (wi_pubKey w) <> Some k) as Hnever.
  { intros k Hk Heq. simplify_eq.
    destruct (advance_spec _ _ _ Hinv1 Hw) as [_ [(Hm & Hb & _)|(Hre & _)]].
    - destruct Hk as [Hk|Hk]; [|set_solver].
      unfold rebuyCount in Hk. rewrite <- Hcounts, Hm, rebuyCountOf_empty in Hk. done.
    - destruct Hre as (_ & Hlt & Hnb & _). destruct Hk as [Hk|Hk]; [|set_solver].
      unfold rebuyCount in *. rewrite Hcounts in Hlt. lia. }
  pose proof (proj1 (advance_spec _ _ _ Hinv1 Hw)) as Hinv2.
  destruct (Math_random g) as [r g1].
  assert (forall (tr : list event),
    (forall pk a b, EvBuy pk a b ∈ tr -> pk = wi_pubKey w) ->
    forall pk a b, EvBuy pk a b ∈ pauseWait (o_pausedReads o) ++
        [EvSleep (Math_round (inject_Z (minDelay cfg)
                    + r * (inject_Z (maxDelay cfg) - inject_Z (minDelay cfg))))] ++ tr ->
      Some (wi_pubKey w) = Some pk) as Hbuys.
  { intros tr Htr pk a b. rewrite !elem_of_app, list_elem_of_singleton.
    intros [Hin|[?|Hin]]; [by apply Hnobuy in Hin|done|]. by rewrite (Htr _ _ _ Hin). }
  assert (forall s', session_inv cfg s' ->
      rebuyCountMap s' = rebuyCountMap s1 -> blacklistedWallets s' = blacklistedWallets s1 ->
      books s' = books s1 ->
      session_inv cfg s' /\
      (forall k, rebuyCount s k <= rebuyCount s' k) /\
      blacklistedWallets s ⊆ blacklistedWallets s' /\
      (forall k, k ∈ usedSellWallets (books s) -> k ∈ usedSellWallets (books s')) /\
      ((length (walletCycle s) <= walletCyclePosition s)%nat ->
       forall k, rebuyCount s k = MAX_REBUY_COUNT -> k ∈ blacklistedWallets s')) as Hskip.
  { intros s' Hi Hc Hb Hbk. split_and!; try done.
    - intros k. unfold rebuyCount. rewrite Hc, Hcounts. lia.
    - by rewrite Hb.
    - by rewrite Hbk, Hbooks.
    - rewrite Hb. done. }
  destruct (Qle_bool (o_balance o) (Double.round 0.05)); cbn [tick_state tick_trace].
  { destruct (Hskip (with_skippedWallets
        (skippedWallets (with_cycle (walletCycle s1) (S (walletCyclePosition s1)) s1) + 1)
        (with_cycle (walletCycle s1) (S (walletCyclePosition s1)) s1)))
      as (? & ? & ? & ? & ?); try done.
    split_and!; try done.
    - intros pk a b Hin. apply (Hbuys [] ltac:(intros ??? Hnil; inversion Hnil) pk a b).
      by rewrite app_nil_r.
    - intros pk b. rewrite elem_of_app, list_elem_of_singleton.
      intros [Hin|?]; [by apply Hnosell in Hin|done]. }
  destruct (calculateDynamicBuyAmount (o_view o) g1) as [amount g2].
  destruct (o_buy o) as [ta tb| |]; cbn [tick_state tick_trace].
  - pose proof (recordBuy_spec cfg s1 w ta tb Hinv1 Hw) as Hrec. cbn zeta in Hrec.
    destruct Hrec as (Hinv3 & Hmono & Hbl3 & Hused3 & _).
    destruct (sellTrigger w (o_sells o) _ g2) as [[s4 g3] evs] eqn:Hst.
    apply sellTrigger_spec with (cfg := cfg) in Hst
      as (Hinv4 & Hc4 & Hbl4 & _ & Hso & Hev & Hfa); [|done].
    cbn [tick_state tick_trace]. split_and!; try done.
    + intros k. specialize (Hmono k). unfold rebuyCount in *.
      rewrite Hc4. rewrite Hcounts in Hmono. done.
    + by rewrite Hbl4, Hbl3.
    + intros k Hk. apply Hso. rewrite Hused3, Hbooks. done.
    + intros Hd k Hk. rewrite Hbl4, Hbl3. by apply Hdue.
    + intros pk a b. rewrite <- app_assoc. apply Hbuys.
      intros pk' a' b' [?|Hin]%elem_of_cons; [by simplify_eq|].
      rewrite Forall_forall in Hfa. by apply Hfa in Hin.
    + intros pk b. rewrite !elem_of_app, list_elem_of_singleton, elem_of_cons.
      intros [[Hin|?]|[?|Hin]]; [by apply Hnosell in Hin|done|done|].
      destruct (Hev _ _ Hin) as [[_ Hn] Hu]. split; [|done].
      by rewrite Hused3, Hbooks in Hn.
  - destruct (Hskip (with_skippedWallets
        (skippedWallets (with_cycle (walletCycle s1) (S (walletCyclePosition s1)) s1) + 1)
        (with_cycle (walletCycle s1) (S (walletCyclePosition s1)) s1)))
      as (? & ? & ? & ? & ?); try done.
    split_and!; try done.
    + intros pk a b. rewrite <- app_assoc. apply Hbuys.
      intros pk' a' b' ?%list_elem_of_singleton. by simplify_eq.
    + intros pk b. rewrite !elem_of_app, !list_elem_of_singleton.
      intros [[Hin|?]|?]; [by apply Hnosell in Hin|done|done].
  - destruct (Hskip (with_skippedWallets
        (skippedWallets (with_cycle (walletCycle s1) (S (walletCyclePosition s1)) s1) + 1)
        (with_cycle (walletCycle s1) (S (walletCyclePosition s1)) s1)))
      as (? & ? & ? & ? & ?); try done.
    split_and!; try done.
    + intros pk a b Hin. apply (Hbuys [] ltac:(intros ??? Hnil; inversion Hnil) pk a b).
      by rewrite app_nil_r.
    + intros pk b. rewrite elem_of_app, list_elem_of_singleton.
      intros [Hin|?]; [by apply Hnosell in Hin|done].
Qed.

(** ** Runs *)

Lemma run_cons (cfg : config) (o : oracle) (os : list oracle) (s : session) :
  run cfg (o :: os) s =
  match tick cfg o s with
  | Continue s' tr =>
      match run cfg os s' with
      | Continue s'' tr' => Continue s'' (tr ++ tr')
      | Stop s'' tr' => Stop s'' (tr ++ tr')
      end
  | Stop s' tr => Stop s' tr
  end.
Proof. done. Qed.

(** A run, from a state that satisfies the invariant. *)
Lemma run_spec (cfg : config) (os : list oracle) :
  forall s, session_inv cfg s ->
  session_inv cfg (tick_state (run cfg os s)) /\
  (forall k, rebuyCount s k <= rebuyCount (tick_state (run cfg os s)) k) /\
  blacklistedWallets s ⊆ blacklistedWallets (tick_state (run cfg os s)) /\
  (forall k, k ∈ usedSellWallets (books s) ->
     k ∈ usedSellWallets (books (tick_state (run cfg os s)))) /\
  (forall k, rebuyCount s k = MAX_REBUY_COUNT \/ k ∈ blacklistedWallets s ->
     forall a b, EvBuy k a b ∉ tick_trace (run cfg os s)) /\
  (forall k, k ∈ usedSellWallets (books s) ->
     forall b, EvSell k b ∉ tick_trace (run cfg os s)).
Proof.
  induction os as [|o os IH]; intros s Hinv.
  { cbn. split_and!; try done; try lia; intros; apply not_elem_of_nil. }
  rewrite run_cons.
  destruct (tick_spec cfg o s Hinv) as (Hi & Hc & Hb & Hu & Hn & _ & Hbuy & Hsell).
  assert (forall k, rebuyCount s k = MAX_REBUY_COUNT \/ k ∈ blacklistedWallets s ->
            forall a b, EvBuy k a b ∉ tick_trace (tick cfg o s)) as Hnobuy.
  { intros k Hk a b Hin. by apply (Hn k Hk), (Hbuy k a b). }
  assert (forall k, k ∈ usedSellWallets (books s) ->
            forall b, EvSell k b ∉ tick_trace (tick cfg o s)) as Hnosell.
  { intros k Hk b Hin. by destruct (Hsell _ _ Hin). }
  destruct (tick cfg o s) as [s1 tr|s1 tr]; cbn [tick_state tick_trace] in *.
  2:{ split_and!; done. }
  destruct (IH s1 Hi) as (Hi' & Hc' & Hb' & Hu' & Hn' & Hs').
  pose proof (proj1 (proj2 (proj2 Hi))) as Hrange.
  assert (forall k, rebuyCount s k = MAX_REBUY_COUNT \/ k ∈ blacklistedWallets s ->
            rebuyCount s1 k = MAX_REBUY_COUNT \/ k ∈ blacklistedWallets s1) as Hkeep.
  { intros k [Hk|Hk]; [left|right; set_solver].
    specialize (Hc k). specialize (Hrange k). lia. }
  destruct (run cfg os s1) as [s2 tr2|s2 tr2]; cbn [tick_state tick_trace] in *.
  all: split_and!; try done.
  all: try (intros k; specialize (Hc k); specialize (Hc' k); lia).
  all: try set_solver.
  all: try (intros k Hk a b [Hin|Hin]%elem_of_app;
            [by eapply Hnobuy | by eapply (Hn' k (Hkeep k Hk))]).
  all: intros k Hk b [Hin|Hin]%elem_of_app;
            [by eapply Hnosell | by eapply (Hs' k (Hu k Hk))].
Qed.

Lemma reachable_inv (cfg : config) (s : session) :
  reachable cfg s -> session_inv cfg s.
Proof.
  intros (g & os & <-). apply run_spec, initSession_inv.
Qed.

Lemma eligibleKeys_not_used (l : ledger) last k :
  ledger_wf l -> k ∈ eligibleKeys l last -> sellable l k /\ sellFilter l last k.
Proof.
  intros Hwf (info & -> & Hin)%list_elem_of_fmap.
  destruct (eligibleWallets_sellable _ _ _ Hwf Hin) as [Hheld Hf].
  split; [|done]. split; [|apply Hf].
  by apply (list_elem_of_fmap_2 fst) in Hheld.
Qed.

(** ** Wallet ledger: sell eligibility *)

(** C2, as the code has it: at every reachable state a wallet that is in
    [usedSellWallets] is absent from the sell-eligible set of
    [executeSessionSell], whatever the last used wallet is; nothing ever
    removes a wallet from [usedSellWallets], so it stays ineligible in
    every later state and no later sell is issued for it, also after a
    rebuy has put it back into [successfulBuyWallets]. *)
Theorem used_wallet_never_sell_eligible (cfg : config) (s : session)
    (os : list oracle) (k : string) :
  reachable cfg s ->
  k ∈ usedSellWallets (books s) ->
  (forall last, k ∉ eligibleKeys (books s) last) /\
  k ∈ usedSellWallets (books (tick_state (run cfg os s))) /\
  (forall last, k ∉ eligibleKeys (books (tick_state (run cfg os s))) last) /\
  (forall b, EvSell k b ∉ tick_trace (run cfg os s)).
Proof.
  intros Hinv%reachable_inv Hk.
  destruct (run_spec cfg os s Hinv) as (Hinv' & _ & _ & Hu & _ & Hs).
  split_and!; [|by auto| |by auto].
  - intros last [[_ Hn] _]%eligibleKeys_not_used; [done|apply Hinv].
  - intros last [[_ Hn] _]%eligibleKeys_not_used; [|apply Hinv']. auto.
Qed.

Lemma used_wallet_never_sell_eligible_witness :
  "WalletB"%string ∈ usedSellWallets (books demo_after_sells) /\
  (forall last,
     "WalletB"%string
     ∉ eligibleKeys (books (tick_state (run demo_cfg [demo_tick] demo_after_sells))) last) /\
  (forall b,
     EvSell "WalletB"%string b ∉ tick_trace (run demo_cfg [demo_tick] demo_after_sells)).
Proof.
  assert ("WalletB"%string ∈ usedSellWallets (books demo_after_sells)) as Hused.
  { vm_compute. apply list_elem_of_In. cbn. auto. }
  assert (reachable demo_cfg demo_after_sells) as Hreach.
  { exists (rng_of_list [mkDraw 19 20; mkDraw 0 1]), (replicate 4 demo_tick).
    vm_compute. reflexivity. }
  destruct (used_wallet_never_sell_eligible demo_cfg demo_after_sells [demo_tick]
              "WalletB"%string Hreach Hused) as (_ & _ & H3 & H4).
  split; [exact Hused|]. split; [exact H3 | exact H4].
Defined.

(** C2, counterexample: WalletB buys, is sold in the first sell sequence,
    and is rebought in the fifth iteration; it is then back in
    [successfulBuyWallets] with a rebuy count of 1, but it is still in
    [usedSellWallets], and the sell-eligible set is WalletA alone. *)
Lemma rebought_wallet_not_sell_eligible :
  reachable demo_cfg demo_after_rebuy /\
  rebuyCount demo_after_rebuy "WalletB" = 1 /\
  (successfulBuyWallets (books demo_after_rebuy)).*1 = ["WalletA"; "WalletB"]%string /\
  usedSellWallets (books demo_after_rebuy) = ["WalletB"; "WalletC"; "WalletD"]%string /\
  eligibleKeys (books demo_after_rebuy) None = ["WalletA"]%string /\
  ~ rebuy_restores_eligibility demo_cfg.
Proof.
  assert (reachable demo_cfg demo_after_rebuy) as Hreach.
  { exists (rng_of_list [mkDraw 19 20; mkDraw 0 1]), (replicate 5 demo_tick).
    vm_compute. reflexivity. }
  assert (eligibleKeys (books demo_after_rebuy) None = ["WalletA"%string]) as Hel
    by (by vm_compute).
  split; [exact Hreach|].
  split; [by vm_compute|]. split; [by vm_compute|]. split; [by vm_compute|].
  split; [exact Hel|].
  intros H. specialize (H demo_after_rebuy "WalletB"%string Hreach).
  rewrite Hel in H.
  assert ("WalletB"%string ∈ ["WalletA"%string]) as Hin.
  { apply H; [by vm_compute|]. vm_compute. apply list_elem_of_In. cbn. auto. }
  apply list_elem_of_singleton in Hin. discriminate.
Qed.

(** ** Wallet ledger: rebuy counts and the blacklist *)



(** ** Selection for sells *)






(** ** Rescheduling the next sell *)

Lemma retry_offset_range (d : draw) : 0 <= Math_floor (draw_value d * 3) <= 2.
Proof.
  pose proof (draw_value_range d) as [H0 H1]. unfold Math_floor.
  assert (0 <= Qfloor (draw_value d * 3) < 3) as H;
    [|revert H; generalize (Qfloor (draw_value d * 3)); intros; lia].
  split.
  - rewrite <- (Qfloor_Z 0). apply Qfloor_resp_le.
    change (inject_Z 0) with 0%Q. lra.
  - rewrite Zlt_Qlt. eapply Qle_lt_trans; [apply Qfloor_le|].
    change (inject_Z 3) with 3%Q. lra.
Qed.

(** C7, as the code has it: when a buy reaches the sell threshold, the
    sell sequence runs; if it reports success (a positive count of
    successful sells) the next threshold is the buy counter plus a fresh
    draw of [determineNextSellPoint], between 4 and 17; if it reports
    failure the next threshold is the buy counter plus
    [2 + floor (3 * random)], between 2 and 4. *)
Theorem sellTrigger_next_threshold (w : walletInfo) (outs : nat -> sellOutcome)
    (s : session) (g : rng) :
  buysUntilNextSell s <= buyCounter s ->
  exists res l g1 evs,
    executeSessionSells (books s) (Some (wi_pubKey w)) outs g = (res, l, g1, evs) /\
    sr_success res = (0 <? sr_count res) /\
    buyCounter (sellTrigger w outs s g).1.1 = buyCounter s /\
    (sr_success res = true ->
     buysUntilNextSell (sellTrigger w outs s g).1.1
       = buyCounter s + (determineNextSellPoint g1).1 /\
     buyCounter s + 4 <= buysUntilNextSell (sellTrigger w outs s g).1.1
       <= buyCounter s + 17) /\
    (sr_success res = false ->
     buysUntilNextSell (sellTrigger w outs s g).1.1
       = buyCounter s + (2 + Math_floor (draw_value (g1 0%nat) * 3)) /\
     buyCounter s + 2 <= buysUntilNextSell (sellTrigger w outs s g).1.1
       <= buyCounter s + 4).
Proof.
  intros Hdue. unfold sellTrigger.
  destruct (Z.leb_spec (buysUntilNextSell s) (buyCounter s)) as [_|?]; [|lia].
  destruct (executeSessionSells _ _ _ _) as [[[res l] g1] evs] eqn:Hex.
  exists res, l, g1, evs. split; [done|]. split.
  { unfold executeSessionSells in Hex.
    destruct (availableWalletCount (books s) =? 0); [by simplify_eq|].
    destruct (determineConsecutiveSells _ _) as [n g2].
    destruct (sellLoop _ _ _ _ _ _ _) as [[[c l1] g3] evs1]. by simplify_eq. }
  destruct (sr_success res).
  - pose proof (determineNextSellPoint_bounds g1) as Hb.
    destruct (determineNextSellPoint g1) as [n g2]. cbn in *.
    split_and!; try done. intros _. lia.
  - pose proof (retry_offset_range (g1 0%nat)) as Hb.
    unfold Math_random. cbn in *. split_and!; try done. intros _. lia.
Qed.

Lemma sellTrigger_next_threshold_witness :
  exists res l g1 evs,
    executeSessionSells
      (books (recordBuy (mkWalletInfo "WalletD" 4 None) None None demo_before_sells))
      (Some "WalletD"%string) (fun _ => SellSent) rng_half = (res, l, g1, evs) /\
    sr_success res = (0 <? sr_count res).
Proof.
  destruct (sellTrigger_next_threshold (mkWalletInfo "WalletD" 4 None)
              (fun _ => SellSent)
              (recordBuy (mkWalletInfo "WalletD" 4 None) None None demo_before_sells)
              rng_half) as (res & l & g1 & evs & H1 & H2 & _).
  { vm_compute. discriminate. }
  exists res, l, g1, evs. split; [exact H1 | exact H2].
Defined.

(** C7, counterexample: two runs of the fourth iteration in which the one
    sell attempted fails; with the draw 0 the retry comes 2 buys later,
    with the draw 1/2 it comes 3 buys later. *)
Lemma retry_after_failed_sells_not_fixed :
  buyCounter (tick_state (tick demo_cfg (demo_tick_failing rng_zero) demo_before_sells)) = 4 /\
  buysUntilNextSell
    (tick_state (tick demo_cfg (demo_tick_failing rng_zero) demo_before_sells)) = 6 /\
  buyCounter (tick_state (tick demo_cfg (demo_tick_failing rng_half) demo_before_sells)) = 4 /\
  buysUntilNextSell
    (tick_state (tick demo_cfg (demo_tick_failing rng_half) demo_before_sells)) = 7 /\
  ~ failed_sells_retry_fixed demo_cfg.
Proof.
  split; [by vm_compute|]. split; [by vm_compute|].
  split; [by vm_compute|]. split; [by vm_compute|].
  intros [fixed H].
  assert (reachable demo_cfg demo_before_sells) as Hreach.
  { exists (rng_of_list [mkDraw 19 20; mkDraw 0 1]), (replicate 3 demo_tick).
    vm_compute. reflexivity. }
  pose proof (H demo_before_sells (demo_tick_failing rng_zero) Hreach
                ltac:(by vm_compute) ltac:(by vm_compute)) as H0.
  pose proof (H demo_before_sells (demo_tick_failing rng_half) Hreach
                ltac:(by vm_compute) ltac:(by vm_compute)) as H1.
  vm_compute in H0. vm_compute in H1.
  assert (6 = 4 + fixed) as E0 by exact H0.
  assert (7 = 4 + fixed) as E1 by exact H1.
  lia.
Qed.

(** ** Pause polling *)

Lemma executeSessionSell_no_poll (l : ledger) last out g :
  Forall (fun e => is_poll e = false) (executeSessionSell l last out g).2.
Proof.
  unfold executeSessionSell, executeWalletSell, Math_random.
  repeat case_match; simplify_eq/=; repeat constructor.
Qed.

Lemma sellLoop_no_poll (remaining : nat) :
  forall i l last n outs g,
  Forall (fun e => is_poll e = false) (sellLoop remaining i l last n outs g).2.
Proof.
  induction remaining as [|remaining IH]; intros i l last n outs g; [constructor|].
  cbn [sellLoop].
  pose proof (executeSessionSell_no_poll l last (outs i) g) as H1.
  destruct (executeSessionSell l last (outs i) g) as [[[ret l1] g1] ev].
  destruct (ret_success ret); [|done].
  set (dg := match remaining with O => _ | S _ => _ end).
  assert (Forall (fun e => is_poll e = false) dg.1) as Hd.
  { subst dg. destruct remaining; [constructor|].
    destruct (getRandomSellDelay g1). by repeat constructor. }
  destruct dg as [delay g2].
  specialize (IH (S i) l1 (ret_wallet ret) (n + 1) outs g2).
  destruct (sellLoop remaining _ _ _ _ _ _) as [[[c l2] g3] evs2].
  cbn in *. rewrite !Forall_app. done.
Qed.

Lemma sellTrigger_no_poll (w : walletInfo) outs (s : session) g :
  Forall (fun e => is_poll e = false) (sellTrigger w outs s g).2.
Proof.
  unfold sellTrigger, executeSessionSells.
  destruct (buysUntilNextSell s <=? buyCounter s); [|constructor].
  destruct (availableWalletCount (books s) =? 0); [cbn; constructor|].
  destruct (determineConsecutiveSells _ _) as [n g1].
  pose proof (sellLoop_no_poll (Z.to_nat n) 0 (books s) (Some (wi_pubKey w)) 0 outs g1) as H.
  destruct (sellLoop _ _ _ _ _ _ _) as [[[c l1] g2] evs1]. cbn [snd sr_success] in *.
  destruct (0 <? c); [destruct (determineNextSellPoint g2)|unfold Math_random]; done.
Qed.

Lemma pauseWait_shape (n : nat) :
  pauseWait n
  = concat (replicate n [EvPausePoll true; EvSleep 1000]) ++ [EvPausePoll false].
Proof. induction n as [|n IH]; cbn; [done|]. by rewrite IH. Qed.

(** C5, as the code has it: every iteration of the loop starts by polling
    the pause flag, sleeping one second after each poll that reads it set,
    until a poll reads it clear; nothing is attempted before that poll;
    and the rest of the iteration, the buy and every sell of the sell
    sequence it may trigger, runs without another poll. *)
Theorem tick_polls_pause_at_start_only (cfg : config) (o : oracle) (s : session) :
  Forall (fun e => is_trade e = false)
         (concat (replicate (o_pausedReads o) [EvPausePoll true; EvSleep 1000])) /\
  exists rest,
    tick_trace (tick cfg o s)
    = concat (replicate (o_pausedReads o) [EvPausePoll true; EvSleep 1000])
      ++ [EvPausePoll false] ++ rest /\
    Forall (fun e => is_poll e = false) rest.
Proof.
  split.
  { induction (o_pausedReads o) as [|n IH]; cbn; by repeat constructor. }
  unfold tick. rewrite pauseWait_shape.
  destruct (refresh cfg o s (o_rng o)) as [s1 [g|]].
  2:{ exists []. split; [done|constructor]. }
  destruct (walletCycle s1 !! walletCyclePosition s1) as [w|].
  2:{ exists []. split; [done|constructor]. }
  destruct (Math_random g) as [r g1].
  destruct (Qle_bool (o_balance o) (Double.round 0.05)).
  { eexists. cbn [tick_trace]. rewrite <- !app_assoc. split; [done|].
    by repeat constructor. }
  destruct (calculateDynamicBuyAmount (o_view o) g1) as [amount g2].
  destruct (o_buy o) as [ta tb| |].
  - pose proof (sellTrigger_no_poll w (o_sells o)
        (recordBuy w ta tb (with_cycle (walletCycle s1) (S (walletCyclePosition s1)) s1))
        g2) as H.
    destruct (sellTrigger _ _ _ _) as [[s2 g3] evs].
    eexists. cbn [tick_trace]. rewrite <- !app_assoc. split; [done|].
    by repeat constructor.
  - eexists. cbn [tick_trace]. rewrite <- !app_assoc. split; [done|].
    by repeat constructor.
  - eexists. cbn [tick_trace]. rewrite <- !app_assoc. split; [done|].
    by repeat constructor.
Qed.

(** C5, counterexample: in the iteration of the fourth buy the flag is
    polled once, before the buy; the three sells that follow are issued
    without any poll between them. *)
Lemma sells_issued_without_pause_poll :
  tick_trace (tick demo_cfg demo_tick demo_before_sells)
  = [EvPausePoll false; EvSleep 2000; EvBuy "WalletD" (Finite (Double.round 0.664999)) true;
     EvSell "WalletB" true; EvSleep 1325; EvSell "WalletC" true;
     EvSleep 1325; EvSell "WalletD" true]%string /\
  pause_checked_before_each_trade false
    (tick_trace (tick demo_cfg demo_tick demo_before_sells)) = false /\
  ~ (forall cfg o s, reachable cfg s ->
       pause_checked_before_each_trade false (tick_trace (tick cfg o s)) = true).
Proof.
  split; [by vm_compute|]. split; [by vm_compute|].
  intros H.
  assert (reachable demo_cfg demo_before_sells) as Hreach.
  { exists (rng_of_list [mkDraw 19 20; mkDraw 0 1]), (replicate 3 demo_tick).
    vm_compute. reflexivity. }
  specialize (H demo_cfg demo_tick demo_before_sells Hreach).
  vm_compute in H. discriminate.
Qed.

(** * Further properties *)

(** ** Delays *)

Lemma randomDelay_band (a b : Z) (d : draw) :
  Z.min a b
  <= Math_round (inject_Z a + draw_value d * (inject_Z b - inject_Z a))
  <= Z.max a b.
Proof.
  pose proof (draw_value_range d) as [H0 H1].
  unfold Math_round.
  set (x := (inject_Z a + draw_value d * (inject_Z b - inject_Z a) + (1 # 2))%Q).
  pose proof (Qfloor_le x) as Hle. pose proof (Qlt_floor x) as Hlt.
  assert (inject_Z (Z.min a b) <= x - (1 # 2) /\ x - (1 # 2) <= inject_Z (Z.max a b))%Q
    as [Hlo Hhi].
  { subst x. destruct (Z.le_ge_cases a b) as [Hab|Hab].
    - rewrite Z.min_l, Z.max_r by lia. rewrite Zle_Qle in Hab. split; nra.
    - rewrite Z.min_r, Z.max_l by lia. rewrite Zle_Qle in Hab. split; nra. }
  split.
  - rewrite <- (Qfloor_Z (Z.min a b)). apply Qfloor_resp_le. lra.
  - assert (Qfloor x < Z.max a b + 1); [|lia].
    rewrite Zlt_Qlt. rewrite inject_Z_plus. change (inject_Z 1) with 1%Q. lra.
Qed.

Lemma getRandomSellDelay_range (g : rng) : 650 <= (getRandomSellDelay g).1 <= 1999.
Proof.
  unfold getRandomSellDelay, Math_random, Math_floor. cbn [fst].
  pose proof (draw_value_range (g 0%nat)) as [H0 H1].
  set (x := (draw_value (g 0%nat) * 1350)%Q).
  pose proof (Qfloor_le x) as Hle. pose proof (Qlt_floor x) as Hlt.
  assert (0 <= Qfloor x < 1350); [|lia]. split.
  - rewrite <- (Qfloor_Z 0). apply Qfloor_resp_le. subst x.
    change (inject_Z 0) with 0%Q. lra.
  - rewrite Zlt_Qlt. change (inject_Z 1350) with 1350%Q. subst x. lra.
Qed.

Lemma executeSessionSell_events (l : ledger) last out g :
  Forall (fun e => exists k b, e = EvSell k b) (executeSessionSell l last out g).2.
Proof.
  unfold executeSessionSell, executeWalletSell, Math_random.
  repeat case_match; simplify_eq/=; repeat constructor; eauto.
Qed.

Lemma sellLoop_events (remaining : nat) :
  forall i l last n outs g,
  Forall sell_sequence_event (sellLoop remaining i l last n outs g).2.
Proof.
  induction remaining as [|remaining IH]; intros i l last n outs g; [constructor|].
  cbn [sellLoop].
  pose proof (executeSessionSell_events l last (outs i) g) as H1.
  destruct (executeSessionSell l last (outs i) g) as [[[ret l1] g1] ev].
  cbn [snd] in H1.
  assert (Forall sell_sequence_event ev) as H1'.
  { eapply Forall_impl; [exact H1|]. by intros e (k & b & ->). }
  destruct (ret_success ret); [|done].
  set (dg := match remaining with O => _ | S _ => _ end).
  assert (Forall sell_sequence_event dg.1) as Hd.
  { subst dg. destruct remaining; [constructor|].
    pose proof (getRandomSellDelay_range g1) as Hr.
    destruct (getRandomSellDelay g1). cbn in *. constructor; [exact Hr|constructor]. }
  destruct dg as [delay g2].
  specialize (IH (S i) l1 (ret_wallet ret) (n + 1) outs g2).
  destruct (sellLoop remaining _ _ _ _ _ _) as [[[c l2] g3] evs2].
  cbn in *. rewrite !Forall_app. done.
Qed.

Lemma sellTrigger_events (w : walletInfo) outs (s : session) g :
  Forall sell_sequence_event (sellTrigger w outs s g).2.
Proof.
  unfold sellTrigger, executeSessionSells.
  destruct (buysUntilNextSell s <=? buyCounter s); [|constructor].
  destruct (availableWalletCount (books s) =? 0); [cbn; constructor|].
  destruct (determineConsecutiveSells _ _) as [n g1].
  pose proof (sellLoop_events (Z.to_nat n) 0 (books s) (Some (wi_pubKey w)) 0 outs g1) as H.
  destruct (sellLoop _ _ _ _ _ _ _) as [[[c l1] g2] evs1]. cbn [snd sr_success] in *.
  destruct (0 <? c); [destruct (determineNextSellPoint g2)|unfold Math_random]; done.
Qed.

(** The shape of one iteration: it ends the run at the refresh, or it reads
    a wallet, sleeps, and then skips the wallet or buys and runs the sell
    trigger. *)
Lemma tick_cases (cfg : config) (o : oracle) (s : session) :
  let polls := pauseWait (o_pausedReads o) in
  let s1 := (refresh cfg o s (o_rng o)).1 in
  (tick cfg o s = Stop s1 polls /\
   ((refresh cfg o s (o_rng o)).2 = None \/
    walletCycle s1 !! walletCyclePosition s1 = None)) \/
  exists g w d,
    (refresh cfg o s (o_rng o)).2 = Some g /\
    walletCycle s1 !! walletCyclePosition s1 = Some w /\
    Z.min (minDelay cfg) (maxDelay cfg) <= d <= Z.max (minDelay cfg) (maxDelay cfg) /\
    ((tick cfg o s = Continue (afterSkip s1) (polls ++ [EvSleep d]) /\
      (Qle_bool (o_balance o) (Double.round 0.05) = true \/ o_buy o = BuyThrew)) \/
     (exists a,
        tick cfg o s
        = Continue (afterSkip s1) (polls ++ [EvSleep d; EvBuy (wi_pubKey w) a false]) /\
        Qle_bool (o_balance o) (Double.round 0.05) = false /\ o_buy o = BuyFailed) \/
     (exists a ta tb g2,
        tick cfg o s
        = Continue (sellTrigger w (o_sells o) (afterBuy w ta tb s1) g2).1.1
            (polls ++ EvSleep d :: EvBuy (wi_pubKey w) a true
               :: (sellTrigger w (o_sells o) (afterBuy w ta tb s1) g2).2) /\
        Qle_bool (o_balance o) (Double.round 0.05) = false /\ o_buy o = BuySent ta tb)).
Proof.
  cbn zeta. unfold tick.
  destruct (refresh cfg o s (o_rng o)) as [s1 [g|]]; cbn [fst snd]; [|left; auto].
  destruct (walletCycle s1 !! walletCyclePosition s1) as [w|] eqn:Hw; [|left; auto].
  right. unfold Math_random.
  exists g, w. eexists. split; [done|]. split; [done|].
  split; [apply randomDelay_band|].
  unfold afterSkip, afterBuy.
  destruct (Qle_bool (o_balance o) (Double.round 0.05)); [left; auto|].
  destruct (calculateDynamicBuyAmount (o_view o) _) as [a g2].
  destruct (o_buy o) as [ta tb| |].
  - right. right. exists a, ta, tb, g2.
    destruct (sellTrigger w (o_sells o) _ g2) as [[s4 g3] evs]. cbn [fst snd].
    split; [|done]. f_equal. by rewrite <- app_assoc.
  - right. left. exists a. split; [|done]. f_equal. by rewrite <- app_assoc.
  - left. auto.
Qed.

(** ** What the parts of an iteration leave unchanged *)

Lemma refresh_frame (cfg : config) (o : oracle) (s : session) g :
  let s1 := (refresh cfg o s g).1 in
  books s1 = books s /\ rebuyCountMap s1 = rebuyCountMap s /\
  buyCounter s1 = buyCounter s /\ buysUntilNextSell s1 = buysUntilNextSell s /\
  skippedWallets s1 = skippedWallets s.
Proof.
  cbn zeta. unfold refresh. repeat case_match; simplify_eq/=; done.
Qed.

Lemma sellTrigger_frame (w : walletInfo) outs (s : session) g :
  let s' := (sellTrigger w outs s g).1.1 in
  rebuyCountMap s' = rebuyCountMap s /\ blacklistedWallets s' = blacklistedWallets s /\
  buyCounter s' = buyCounter s /\ skippedWallets s' = skippedWallets s /\
  walletCycle s' = walletCycle s /\ walletCyclePosition s' = walletCyclePosition s.
Proof.
  cbn zeta. unfold sellTrigger, Math_random. repeat case_match; simplify_eq/=; done.
Qed.

Lemma soldKeys_app (tr tr' : list event) :
  soldKeys (tr ++ tr') = soldKeys tr ++ soldKeys tr'.
Proof. apply omap_app. Qed.

Lemma sentBuys_app (tr tr' : list event) :
  sentBuys (tr ++ tr') = sentBuys tr ++ sentBuys tr'.
Proof. apply omap_app. Qed.

Lemma soldKeys_pauseWait (n : nat) : soldKeys (pauseWait n) = [].
Proof. induction n as [|n IH]; [done|]. cbn. exact IH. Qed.

Lemma sentBuys_pauseWait (n : nat) : sentBuys (pauseWait n) = [].
Proof. induction n as [|n IH]; [done|]. cbn. exact IH. Qed.

Lemma sentBuys_sell_sequence (evs : list event) :
  Forall sell_sequence_event evs -> sentBuys evs = [].
Proof.
  induction 1 as [|e evs He _ IH]; [done|].
  destruct e; cbn in *; done.
Qed.

Lemma elem_of_soldKeys (tr : list event) (k : string) :
  k ∈ soldKeys tr <-> exists b, EvSell k b ∈ tr.
Proof.
  unfold soldKeys. rewrite list_elem_of_omap. split.
  - intros (e & Hin & He). destruct e; simplify_eq. eauto.
  - intros (b & Hin). eauto.
Qed.

(** ** The set of used wallets is the record of the sell attempts *)

Lemma executeSessionSell_used (l : ledger) last out g ret l' g' evs :
  ledger_wf l ->
  executeSessionSell l last out g = (ret, l', g', evs) ->
  usedSellWallets l' = usedSellWallets l ++ soldKeys evs.
Proof.
  intros Hwf Hex.
  destruct (executeSessionSell_cases _ _ _ _ _ _ _ _ Hwf Hex)
    as [(-> & -> & _)|(info & b & -> & Hsell & Hin & Hused & _)].
  - cbn. by rewrite app_nil_r.
  - unfold executeWalletSell, JsSet.add in Hsell.
    destruct out; simplify_eq; cbn; by rewrite decide_False.
Qed.

Lemma sellLoop_used (remaining : nat) :
  forall i l last n outs g count l' g' evs,
  ledger_wf l ->
  sellLoop remaining i l last n outs g = (count, l', g', evs) ->
  usedSellWallets l' = usedSellWallets l ++ soldKeys evs.
Proof.
  induction remaining as [|remaining IH]; intros i l last n outs g count l' g' evs Hwf.
  { cbn. intros ?; simplify_eq. cbn. by rewrite app_nil_r. }
  cbn [sellLoop].
  destruct (executeSessionSell l last (outs i) g) as [[[ret l1] g1] ev] eqn:Hex.
  pose proof (executeSessionSell_used _ _ _ _ _ _ _ _ Hwf Hex) as Hu1.
  destruct (executeSessionSell_spec _ _ _ _ _ _ _ _ Hwf Hex) as (Hwf1 & _).
  destruct (ret_success ret).
  2:{ intros ?; simplify_eq. done. }
  set (dg := match remaining with O => _ | S _ => _ end).
  assert (soldKeys dg.1 = []) as Hdelay.
  { subst dg. destruct remaining; [done|]. by destruct (getRandomSellDelay g1). }
  destruct dg as [delay g2].
  destruct (sellLoop remaining (S i) l1 (ret_wallet ret) (n + 1) outs g2)
    as [[[c l2] g3] evs2] eqn:Hloop.
  pose proof (IH _ _ _ _ _ _ _ _ _ _ Hwf1 Hloop) as Hu2.
  intros ?; simplify_eq. cbn [fst] in Hdelay.
  by rewrite !soldKeys_app, Hdelay, Hu2, Hu1, <- app_assoc.
Qed.

Lemma sellTrigger_used (w : walletInfo) outs (s : session) g :
  ledger_wf (books s) ->
  usedSellWallets (books (sellTrigger w outs s g).1.1)
  = usedSellWallets (books s) ++ soldKeys (sellTrigger w outs s g).2.
Proof.
  intros Hwf. unfold sellTrigger, executeSessionSells.
  destruct (buysUntilNextSell s <=? buyCounter s); [|cbn; by rewrite app_nil_r].
  destruct (availableWalletCount (books s) =? 0).
  { unfold Math_random. cbn. by rewrite app_nil_r. }
  destruct (determineConsecutiveSells _ _) as [n g1].
  destruct (sellLoop _ _ _ _ _ _ _) as [[[c l1] g2] evs1] eqn:Hloop.
  apply sellLoop_used in Hloop; [|done]. cbn [sr_success].
  destruct (0 <? c); [destruct (determineNextSellPoint g2)|unfold Math_random]; done.
Qed.

Lemma afterBuy_inv (cfg : config) (s : session) (w : walletInfo) ta tb :
  session_inv cfg s ->
  walletCycle s !! walletCyclePosition s = Some w ->
  session_inv cfg (afterBuy w ta tb s) /\
  usedSellWallets (books (afterBuy w ta tb s)) = usedSellWallets (books s).
Proof.
  intros Hinv Hw. pose proof (recordBuy_spec cfg s w ta tb Hinv Hw) as H.
  cbn zeta in H. unfold afterBuy. tauto.
Qed.

Lemma tick_used (cfg : config) (o : oracle) (s : session) :
  session_inv cfg s ->
  usedSellWallets (books (tick_state (tick cfg o s)))
  = usedSellWallets (books s) ++ soldKeys (tick_trace (tick cfg o s)).
Proof.
  intros Hinv.
  pose proof (refresh_frame cfg o s (o_rng o)) as (Hbooks & _). cbn zeta in Hbooks.
  destruct (refresh cfg o s (o_rng o)) as [s1 og] eqn:Href.
  destruct (refresh_spec _ _ _ _ _ _ Hinv Href) as (Hinv1 & _).
  pose proof (tick_cases cfg o s) as Hc. cbn zeta in Hc. rewrite Href in Hc.
  cbn [fst snd] in *.
  destruct Hc as [[-> _]|(g & w & d & -> & Hw & _ & [[-> _]|[(a & -> & _)|(a & ta & tb & g2 & -> & _)]])];
    cbn [tick_state tick_trace].
  - by rewrite soldKeys_pauseWait, app_nil_r, Hbooks.
  - rewrite soldKeys_app, soldKeys_pauseWait. cbn. by rewrite app_nil_r, Hbooks.
  - rewrite soldKeys_app, soldKeys_pauseWait. cbn. by rewrite app_nil_r, Hbooks.
  - destruct (afterBuy_inv cfg s1 w ta tb Hinv1 Hw) as [Hinv2 Hu].
    rewrite sellTrigger_used by apply Hinv2.
    rewrite Hu, Hbooks, soldKeys_app, soldKeys_pauseWait. reflexivity.
Qed.

Lemma run_used (cfg : config) (os : list oracle) :
  forall s, session_inv cfg s ->
  usedSellWallets (books (tick_state (run cfg os s)))
  = usedSellWallets (books s) ++ soldKeys (tick_trace (run cfg os s)).
Proof.
  induction os as [|o os IH]; intros s Hinv.
  { cbn. by rewrite app_nil_r. }
  rewrite run_cons.
  pose proof (tick_used cfg o s Hinv) as Ht.
  pose proof (proj1 (tick_spec cfg o s Hinv)) as Hinv1.
  destruct (tick cfg o s) as [s1 tr|s1 tr]; cbn [tick_state tick_trace] in *; [|done].
  specialize (IH s1 Hinv1).
  destruct (run cfg os s1) as [s2 tr2|s2 tr2]; cbn [tick_state tick_trace] in *;
    by rewrite soldKeys_app, IH, Ht, <- app_assoc.
Qed.

(** X1: the set of used wallets is exactly the list of the sell attempts of the
    run, in order; so no wallet is sold twice in a session, and the
    "Total sells" the summary prints ([usedSellWallets.size]) counts the
    attempts, failed ones included. *)
Theorem humanbuy_used_records_sells (cfg : config) (g : rng) (os : list oracle) :
  usedSellWallets (books (tick_state (humanbuy cfg g os)))
  = soldKeys (tick_trace (humanbuy cfg g os)) /\
  NoDup (soldKeys (tick_trace (humanbuy cfg g os))).
Proof.
  unfold humanbuy.
  pose proof (run_used cfg os _ (initSession_inv cfg g)) as H. cbn [app] in H.
  assert (usedSellWallets (books (initSession cfg g)) = []) as H0 by done.
  rewrite H0 in H. cbn in H. split; [done|]. rewrite <- H.
  apply run_spec, initSession_inv.
Qed.

Lemma afterBuy_frame (w : walletInfo) ta tb (s : session) :
  buyCounter (afterBuy w ta tb s) = buyCounter s + 1 /\
  buysUntilNextSell (afterBuy w ta tb s) = buysUntilNextSell s /\
  blacklistedWallets (afterBuy w ta tb s) = blacklistedWallets s /\
  skippedWallets (afterBuy w ta tb s) = skippedWallets s /\
  walletCycle (afterBuy w ta tb s) = walletCycle s /\
  walletCyclePosition (afterBuy w ta tb s) = S (walletCyclePosition s) /\
  usedSellWallets (books (afterBuy w ta tb s)) = usedSellWallets (books s) /\
  successfulBuyWallets (books (afterBuy w ta tb s))
  = JsMap.set (wi_pubKey w) (mkHolding (wi_pubKey w) (wi_index w) ta tb)
              (successfulBuyWallets (books s)).
Proof. unfold afterBuy, recordBuy. destruct (wi_rebuy w); cbn; done. Qed.

Lemma afterSkip_frame (s : session) :
  buyCounter (afterSkip s) = buyCounter s /\
  buysUntilNextSell (afterSkip s) = buysUntilNextSell s /\
  blacklistedWallets (afterSkip s) = blacklistedWallets s /\
  rebuyCountMap (afterSkip s) = rebuyCountMap s /\
  books (afterSkip s) = books s /\
  walletCycle (afterSkip s) = walletCycle s /\
  walletCyclePosition (afterSkip s) = S (walletCyclePosition s).
Proof. done. Qed.

(** ** The counters of the loop *)

Lemma tick_buys (cfg : config) (o : oracle) (s : session) :
  buyCounter (tick_state (tick cfg o s))
  = buyCounter s + Z.of_nat (length (sentBuys (tick_trace (tick cfg o s)))).
Proof.
  pose proof (refresh_frame cfg o s (o_rng o)) as (_ & _ & Hbc & _). cbn zeta in Hbc.
  pose proof (tick_cases cfg o s) as Hc. cbn zeta in Hc.
  destruct Hc as [[-> _]|(g & w & d & _ & Hw & _ & [[-> _]|[(a & -> & _)|(a & ta & tb & g2 & -> & _)]])];
    cbn [tick_state tick_trace].
  - rewrite sentBuys_pauseWait, Hbc. cbn. lia.
  - rewrite sentBuys_app, sentBuys_pauseWait, (proj1 (afterSkip_frame _)), Hbc. cbn. lia.
  - rewrite sentBuys_app, sentBuys_pauseWait, (proj1 (afterSkip_frame _)), Hbc. cbn. lia.
  - pose proof (sellTrigger_frame w (o_sells o)
                  (afterBuy w ta tb (refresh cfg o s (o_rng o)).1) g2) as (_ & _ & -> & _).
    pose proof (afterBuy_frame w ta tb (refresh cfg o s (o_rng o)).1) as (-> & _).
    rewrite sentBuys_app, sentBuys_pauseWait.
    change (sentBuys (EvSleep d :: EvBuy (wi_pubKey w) a true :: ?evs))
      with (wi_pubKey w :: sentBuys evs).
    rewrite (sentBuys_sell_sequence _ (sellTrigger_events _ _ _ _)). cbn. lia.
Qed.

Lemma run_buys (cfg : config) (os : list oracle) :
  forall s,
  buyCounter (tick_state (run cfg os s))
  = buyCounter s + Z.of_nat (length (sentBuys (tick_trace (run cfg os s)))).
Proof.
  induction os as [|o os IH]; intros s; [cbn; lia|].
  rewrite run_cons. pose proof (tick_buys cfg o s) as Ht.
  destruct (tick cfg o s) as [s1 tr|s1 tr]; cbn [tick_state tick_trace] in *; [|done].
  specialize (IH s1).
  destruct (run cfg os s1) as [s2 tr2|s2 tr2]; cbn [tick_state tick_trace] in *;
    rewrite sentBuys_app, length_app; lia.
Qed.

(** X9: [buyCounter] is the number of buys of the run for which a signature
    was obtained: it starts at zero and nothing else moves it. *)
Theorem humanbuy_buyCounter_counts_sent_buys (cfg : config) (g : rng) (os : list oracle) :
  buyCounter (tick_state (humanbuy cfg g os))
  = Z.of_nat (length (sentBuys (tick_trace (humanbuy cfg g os)))).
Proof. unfold humanbuy. rewrite run_buys. cbn. lia. Qed.

Lemma sellTrigger_schedule (w : walletInfo) outs (s : session) g :
  let s' := (sellTrigger w outs s g).1.1 in
  (buysUntilNextSell s <= buyCounter s ->
   buyCounter s + 2 <= buysUntilNextSell s' <= buyCounter s + 17) /\
  (buyCounter s < buysUntilNextSell s -> buysUntilNextSell s' = buysUntilNextSell s).
Proof.
  cbn zeta. unfold sellTrigger.
  destruct (Z.leb_spec (buysUntilNextSell s) (buyCounter s)) as [H|H]; [|cbn; lia].
  destruct (executeSessionSells _ _ _ _) as [[[res l] g1] evs1].
  destruct (sr_success res).
  - pose proof (determineNextSellPoint_bounds g1) as Hb.
    destruct (determineNextSellPoint g1) as [n g2]. cbn in *. lia.
  - unfold Math_random. pose proof (retry_offset_range (g1 0%nat)) as Hb.
    revert Hb. generalize (Math_floor (draw_value (g1 0%nat) * 3)). intros z Hb.
    cbn. lia.
Qed.

Lemma tick_schedule (cfg : config) (o : oracle) (s : session) :
  buyCounter s < buysUntilNextSell s <= buyCounter s + 17 ->
  buyCounter (tick_state (tick cfg o s))
  < buysUntilNextSell (tick_state (tick cfg o s))
  <= buyCounter (tick_state (tick cfg o s)) + 17.
Proof.
  intros Hs.
  pose proof (refresh_frame cfg o s (o_rng o)) as (_ & _ & Hbc & Hun & _).
  cbn zeta in Hbc, Hun.
  pose proof (tick_cases cfg o s) as Hc. cbn zeta in Hc.
  destruct Hc as [[-> _]|(g & w & d & _ & Hw & _ & [[-> _]|[(a & -> & _)|(a & ta & tb & g2 & -> & _)]])];
    cbn [tick_state tick_trace].
  1: lia.
  1, 2: pose proof (afterSkip_frame (refresh cfg o s (o_rng o)).1) as (Hbc1 & Hun1 & _); lia.
  set (s2 := afterBuy w ta tb (refresh cfg o s (o_rng o)).1).
  pose proof (sellTrigger_frame w (o_sells o) s2 g2) as (_ & _ & Hbc4 & _).
  pose proof (sellTrigger_schedule w (o_sells o) s2 g2) as [Hyes Hno].
  pose proof (afterBuy_frame w ta tb (refresh cfg o s (o_rng o)).1) as (Hbc2 & Hun2 & _).
  fold s2 in Hbc2, Hun2. clearbody s2. cbn zeta in *. lia.
Qed.

(** X8: at every state of a run the next sell sequence lies strictly ahead
    of the buy counter, and at most 17 buys ahead. *)
Theorem humanbuy_next_sell_scheduled_ahead (cfg : config) (g : rng) (os : list oracle) :
  buyCounter (tick_state (humanbuy cfg g os))
  < buysUntilNextSell (tick_state (humanbuy cfg g os))
  <= buyCounter (tick_state (humanbuy cfg g os)) + 17.
Proof.
  unfold humanbuy.
  assert (buyCounter (initSession cfg g) < buysUntilNextSell (initSession cfg g)
          <= buyCounter (initSession cfg g) + 17) as H0.
  { pose proof (determineNextSellPoint_bounds g).
    unfold initSession. cbn [buyCounter buysUntilNextSell]. lia. }
  revert H0. generalize (initSession cfg g).
  induction os as [|o os IH]; intros s Hs; [done|].
  rewrite run_cons. pose proof (tick_schedule cfg o s Hs) as Ht.
  destruct (tick cfg o s) as [s1 tr|s1 tr]; cbn [tick_state tick_trace] in *; [|done].
  specialize (IH s1 Ht).
  destruct (run cfg os s1) as [s2 tr2|s2 tr2]; cbn [tick_state tick_trace] in *; done.
Qed.

(** X10: the sleeps of an iteration.  After the pause polls the iteration
    either ends the run, or sleeps once for a delay between the two
    configured bounds (in either order) before it touches the wallet; every
    later sleep of the iteration separates two sells and lasts 650 to 1999
    milliseconds. *)
Theorem tick_delays_in_band (cfg : config) (o : oracle) (s : session) :
  tick_trace (tick cfg o s) = pauseWait (o_pausedReads o) \/
  exists d rest,
    tick_trace (tick cfg o s) = pauseWait (o_pausedReads o) ++ EvSleep d :: rest /\
    Z.min (minDelay cfg) (maxDelay cfg) <= d <= Z.max (minDelay cfg) (maxDelay cfg) /\
    Forall (fun e => match e with
                     | EvSleep ms => 650 <= ms <= 1999
                     | _ => True
                     end) rest.
Proof.
  pose proof (tick_cases cfg o s) as Hc. cbn zeta in Hc.
  destruct Hc as [[-> _]|(g & w & d & _ & Hw & Hd & [[-> _]|[(a & -> & _)|(a & ta & tb & g2 & -> & _)]])];
    cbn [tick_state tick_trace]; [by left|right..].
  - exists d, []. split_and!; [done|lia|lia|constructor].
  - eexists d, [_]. split_and!; [done|lia|lia|by repeat constructor].
  - eexists d, (_ :: _). split_and!; [done|lia|lia|].
    constructor; [done|].
    eapply Forall_impl; [apply sellTrigger_events|]. by intros [].
Qed.

(** ** Which wallets the loop deals with *)

Lemma effectiveBalance_nonneg (walletBalance : Q) : (0 <= effectiveBalance walletBalance)%Q.
Proof. apply Q.le_max_l. Qed.

Lemma effectiveBalance_low (walletBalance : Q) :
  (walletBalance <= Double.round 0.05)%Q ->
  Qle_bool (effectiveBalance walletBalance) 0 = true.
Proof.
  intros H. apply Qle_bool_iff. unfold effectiveBalance.
  apply Q.max_lub; [lra|]. apply DoubleFacts.round_nonpos. lra.
Qed.


Lemma calculateDynamicBuyAmount_low (v : chainView) (g : rng) :
  (cv_balance v <= Double.round 0.05)%Q -> calculateDynamicBuyAmount v g = (Finite 0, g).
Proof.
  intros H. unfold calculateDynamicBuyAmount.
  by rewrite effectiveBalance_low.
Qed.

(** The refresh visits every used wallet of the selection: it blacklists
    it or puts it into the new cycle, and a wallet at or below the reserve
    of 0.05 SOL is never put into the cycle. *)
Lemma refreshCycle_covers (cfg : config) (counts : gmap string Z) views (keys : list string) :
  forall acc bl g cycle bl' g',
  NoDup keys ->
  refreshCycle cfg counts views keys acc bl g = (cycle, bl', g') ->
  forall k, k ∈ keys -> k ∈ selectedKeys cfg ->
  k ∈ bl' \/ (k ∈ wi_pubKey <$> cycle /\ ~ (cv_balance (views k) <= Double.round 0.05)%Q).
Proof.
  induction keys as [|key keys IH]; intros acc bl g cycle bl' g' Hnd Href k Hk Hsel.
  { by apply elem_of_nil in Hk. }
  apply NoDup_cons in Hnd as [Hkey Hnd]. cbn [refreshCycle] in Href.
  apply elem_of_cons in Hk as [->|Hk].
  2:{ repeat case_match; eapply IH; eauto. }
  destruct (decide (key ∈ bl)) as [Hb|Hb].
  { left. apply refreshCycle_spec in Href as (Hsub & _); [|done]. set_solver. }
  pose proof (find_selected cfg key) as Hfind.
  destruct (List.find _ _) as [orig|]; [|done].
  destruct Hfind as [Hpk _].
  destruct (MAX_REBUY_COUNT <=? rebuyCountOf counts key).
  { left. apply refreshCycle_spec in Href as (Hsub & _); [|done]. set_solver. }
  destruct (calculateDynamicBuyAmount (views key) g) as [amount g1] eqn:Hamount.
  destruct (JsNumber.ltb amount (Finite (Double.round 0.01))) eqn:Hsmall.
  { left. apply refreshCycle_spec in Href as (Hsub & _); [|done]. set_solver. }
  right. split.
  - apply refreshCycle_spec in Href as (_ & _ & _ & new & -> & _); [|done].
    rewrite !fmap_app, !elem_of_app. left. right. cbn. rewrite Hpk. by left.
  - intros Hlow. rewrite (calculateDynamicBuyAmount_low _ _ Hlow) in Hamount.
    by simplify_eq.
Qed.

Lemma refresh_selected (cfg : config) (o : oracle) (s : session) g :
  session_inv cfg s -> trades_selected cfg s ->
  trades_selected cfg (refresh cfg o s g).1.
Proof.
  intros (Hwf & _) (Hcyc & Hheld & Hused & Hbl). unfold refresh.
  destruct (decide (length (walletCycle s) <= walletCyclePosition s)%nat); [|done].
  destruct (refreshCycle _ _ _ _ _ _ _) as [[cycle bl'] g1] eqn:Href.
  apply refreshCycle_spec in Href as (_ & Hbl' & _ & new & Hnew & _ & Hfa); [|apply Hwf].
  cbn in Hnew. subst new.
  assert (Forall (fun w => wi_pubKey w ∈ selectedKeys cfg) cycle) as Hsel.
  { eapply Forall_impl; [exact Hfa|]. cbn. tauto. }
  assert (forall k, k ∈ bl' -> k ∈ usedSellWallets (books s)) as Hbl2.
  { intros k [?|?]%Hbl'; auto. }
  destruct (decide (length cycle = 0%nat)); cbn [fst]; split_and!; try done.
  - unfold remainingCycle. cbn. rewrite drop_nil. constructor.
  - unfold remainingCycle. cbn. by rewrite shuffle_Permutation.
Qed.

Lemma tick_selected (cfg : config) (o : oracle) (s : session) :
  session_inv cfg s -> trades_selected cfg s ->
  trades_selected cfg (tick_state (tick cfg o s)) /\
  Forall (trade_of_selected cfg) (tick_trace (tick cfg o s)).
Proof.
  intros Hinv Hsel.
  pose proof (refresh_selected cfg o s (o_rng o) Hinv Hsel) as Hsel1.
  destruct (refresh cfg o s (o_rng o)) as [s1 og] eqn:Href.
  destruct (refresh_spec _ _ _ _ _ _ Hinv Href) as (Hinv1 & _).
  assert (Forall (trade_of_selected cfg) (pauseWait (o_pausedReads o))) as Hpolls.
  { apply Forall_forall. intros e [[p ->]| ->]%pauseWait_events; done. }
  pose proof (tick_cases cfg o s) as Hc. cbn zeta in Hc. rewrite Href in Hc.
  cbn [fst snd] in *.
  destruct Hc as [[-> _]|(g & w & d & _ & Hw & _ & Hc)]; cbn [tick_state tick_trace]; [done|].
  destruct Hsel1 as (Hcyc & Hheld & Hused & Hbl).
  unfold remainingCycle in Hcyc. rewrite (drop_S _ _ _ Hw) in Hcyc.
  apply Forall_cons in Hcyc as [Hwsel Hcyc].
  assert (trades_selected cfg (afterSkip s1)) as Hskip by (split_and!; done).
  destruct Hc as [[-> _]|[(a & -> & _)|(a & ta & tb & g2 & -> & _)]];
    cbn [tick_state tick_trace].
  - split; [done|]. rewrite Forall_app. split; [done|]. by repeat constructor.
  - split; [done|]. rewrite Forall_app. split; [done|]. by repeat constructor.
  - pose proof (afterBuy_frame w ta tb s1) as (_ & _ & Hbl2 & _ & Hcy2 & Hpos2 & Hu2 & Hm2).
    destruct (afterBuy_inv cfg s1 w ta tb Hinv1 Hw) as [Hinv2 _].
    pose proof (sellTrigger_used w (o_sells o) (afterBuy w ta tb s1) g2 (proj1 Hinv2)) as Hu4.
    pose proof (sellTrigger_frame w (o_sells o) (afterBuy w ta tb s1) g2)
      as (_ & Hbl4 & _ & _ & Hcy4 & Hpos4).
    destruct (sellTrigger w (o_sells o) (afterBuy w ta tb s1) g2) as [[s4 g3] evs] eqn:Hst.
    apply sellTrigger_spec with (cfg := cfg) in Hst
      as (_ & _ & _ & _ & Hso & Hev & Hfa); [|done].
    cbn [fst snd] in *.
    assert (forall k, k ∈ (successfulBuyWallets (books (afterBuy w ta tb s1))).*1 ->
              k ∈ selectedKeys cfg) as Hheld2.
    { intros k. rewrite Hm2, JsMap_set_keys. intros [->|?]; auto. }
    assert (forall k, k ∈ soldKeys evs -> k ∈ selectedKeys cfg) as Hsold.
    { intros k (b & Hin)%elem_of_soldKeys. destruct (Hev _ _ Hin) as [[? _] _]. auto. }
    split.
    + split_and!.
      * unfold remainingCycle. by rewrite Hcy4, Hpos4, Hcy2, Hpos2.
      * intros k (kv & -> & Hkv)%list_elem_of_fmap. apply Hheld2.
        apply list_elem_of_fmap_2. by apply Hso.
      * intros k. rewrite Hu4, Hu2, elem_of_app. intros [?|?]; auto.
      * intros k. rewrite Hbl4, Hbl2, Hu4, Hu2, elem_of_app. auto.
    + rewrite Forall_app. split; [done|]. constructor; [done|]. constructor; [done|].
      rewrite Forall_forall in Hfa. apply Forall_forall. intros e He.
      specialize (Hfa _ He). destruct e; try done.
      apply Hsold, elem_of_soldKeys. eauto.
Qed.

Lemma initSession_selected (cfg : config) (g : rng) :
  trades_selected cfg (initSession cfg g).
Proof.
  split_and!; cbn.
  - unfold remainingCycle, selectedKeys. cbn. apply Forall_forall.
    intros w Hw. by apply list_elem_of_fmap_2.
  - intros k Hk. by apply elem_of_nil in Hk.
  - intros k Hk. by apply elem_of_nil in Hk.
  - set_solver.
Qed.

Lemma run_selected (cfg : config) (os : list oracle) :
  forall s, session_inv cfg s -> trades_selected cfg s ->
  trades_selected cfg (tick_state (run cfg os s)) /\
  Forall (trade_of_selected cfg) (tick_trace (run cfg os s)).
Proof.
  induction os as [|o os IH]; intros s Hinv Hsel; [by split|].
  rewrite run_cons.
  destruct (tick_selected cfg o s Hinv Hsel) as [Hsel1 Htr].
  pose proof (proj1 (tick_spec cfg o s Hinv)) as Hinv1.
  destruct (tick cfg o s) as [s1 tr|s1 tr]; cbn [tick_state tick_trace] in *; [|done].
  destruct (IH s1 Hinv1 Hsel1) as [Hsel2 Htr2].
  destruct (run cfg os s1) as [s2 tr2|s2 tr2]; cbn [tick_state tick_trace] in *;
    by rewrite Forall_app.
Qed.

(** X4: the loop trades with the selected wallets only: every buy and
    every sell of a run is for a wallet of the selection; the wallets that
    hold tokens and those used for a sell are wallets of the selection; and
    only wallets that were used for a sell are ever blacklisted. *)
Theorem humanbuy_trades_selected_wallets (cfg : config) (g : rng) (os : list oracle) :
  Forall (trade_of_selected cfg) (tick_trace (humanbuy cfg g os)) /\
  trades_selected cfg (tick_state (humanbuy cfg g os)).
Proof.
  unfold humanbuy.
  destruct (run_selected cfg os _ (initSession_inv cfg g) (initSession_selected cfg g)).
  done.
Qed.

(** ** How a run ends *)

Lemma tick_blacklist (cfg : config) (o : oracle) (s : session) :
  blacklistedWallets (tick_state (tick cfg o s))
  = blacklistedWallets (refresh cfg o s (o_rng o)).1.
Proof.
  pose proof (tick_cases cfg o s) as Hc. cbn zeta in Hc.
  destruct Hc as [[-> _]|(g & w & d & _ & Hw & _ & [[-> _]|[(a & -> & _)|(a & ta & tb & g2 & -> & _)]])];
    cbn [tick_state tick_trace]; try done.
  pose proof (sellTrigger_frame w (o_sells o)
                (afterBuy w ta tb (refresh cfg o s (o_rng o)).1) g2) as (_ & -> & _).
  by pose proof (afterBuy_frame w ta tb (refresh cfg o s (o_rng o)).1) as (_ & _ & -> & _).
Qed.

(** What a due refresh leaves on the blacklist. *)
Lemma refresh_due_covers (cfg : config) (o : oracle) (s : session) g k :
  session_inv cfg s ->
  (length (walletCycle s) <= walletCyclePosition s)%nat ->
  k ∈ usedSellWallets (books s) -> k ∈ selectedKeys cfg ->
  k ∈ blacklistedWallets (refresh cfg o s g).1 \/
  (k ∈ wi_pubKey <$> walletCycle (refresh cfg o s g).1 /\
   ~ (cv_balance (o_rebuyView o k) <= Double.round 0.05)%Q).
Proof.
  intros (Hwf & _) Hdue Hk Hsel. unfold refresh. rewrite decide_True by done.
  destruct (refreshCycle _ _ _ _ _ _ _) as [[cycle bl'] g1] eqn:Href.
  destruct (refreshCycle_covers _ _ _ _ _ _ _ _ _ _ (proj2 (proj2 Hwf)) Href k Hk Hsel)
    as [Hb|[Hc Hlow]].
  - left. by destruct (decide (length cycle = 0%nat)).
  - destruct (decide (length cycle = 0%nat)) as [Hlen|Hlen]; cbn [fst].
    + apply nil_length_inv in Hlen. subst cycle. by apply elem_of_nil in Hc.
    + right. split; [|done]. cbn. by rewrite shuffle_Permutation.
Qed.

Lemma tick_stop (cfg : config) (o : oracle) (s : session) :
  session_inv cfg s -> trades_selected cfg s ->
  match tick cfg o s with
  | Stop s' tr =>
      remainingCycle s' = [] /\
      (forall k, k ∈ usedSellWallets (books s') -> k ∈ blacklistedWallets s')
  | Continue _ _ => True
  end.
Proof.
  intros Hinv Hsel.
  pose proof (tick_cases cfg o s) as Hc. cbn zeta in Hc.
  destruct Hc as [[-> Hnone]|(g & w & d & _ & Hw & _ & [[-> _]|[(a & -> & _)|(a & ta & tb & g2 & -> & _)]])];
    try done.
  pose proof (refresh_frame cfg o s (o_rng o)) as (Hbooks & _). cbn zeta in Hbooks.
  destruct (refresh cfg o s (o_rng o)) as [s1 og] eqn:Href. cbn [fst snd] in *.
  destruct (refresh_spec _ _ _ _ _ _ Hinv Href) as (_ & _ & _ & _ & _ & _ & Hsome & _).
  assert (og = None) as ->.
  { destruct Hnone as [?|Hnone]; [done|]. destruct og; [|done].
    destruct (Hsome ltac:(eauto)) as [? ?]. congruence. }
  clear Hnone Hsome.
  assert (length (walletCycle s) <= walletCyclePosition s)%nat as Hdue.
  { revert Href. unfold refresh. case_decide; [done|]. intros ?; simplify_eq. }
  assert (walletCycle s1 = []) as Hempty.
  { revert Href. unfold refresh. rewrite decide_True by done.
    destruct (refreshCycle _ _ _ _ _ _ _) as [[cycle bl'] g1].
    destruct (decide (length cycle = 0%nat)); intros ?; by simplify_eq. }
  split.
  - unfold remainingCycle. by rewrite Hempty, drop_nil.
  - intros k Hk. rewrite Hbooks in Hk.
    destruct (refresh_due_covers cfg o s (o_rng o) k Hinv Hdue Hk) as [Hb|[Hc _]].
    + apply Hsel. done.
    + by rewrite Href in Hb.
    + rewrite Href in Hc. cbn in Hc. rewrite Hempty in Hc. by apply elem_of_nil in Hc.
Qed.

Lemma run_stop (cfg : config) (os : list oracle) :
  forall s, session_inv cfg s -> trades_selected cfg s ->
  match run cfg os s with
  | Stop s' tr =>
      remainingCycle s' = [] /\
      (forall k, k ∈ usedSellWallets (books s') -> k ∈ blacklistedWallets s')
  | Continue _ _ => True
  end.
Proof.
  induction os as [|o os IH]; intros s Hinv Hsel; [done|].
  rewrite run_cons.
  pose proof (tick_stop cfg o s Hinv Hsel) as Hstop.
  pose proof (proj1 (tick_selected cfg o s Hinv Hsel)) as Hsel1.
  pose proof (proj1 (tick_spec cfg o s Hinv)) as Hinv1.
  destruct (tick cfg o s) as [s1 tr|s1 tr]; cbn [tick_state tick_trace] in *; [|done].
  specialize (IH s1 Hinv1 Hsel1).
  by destruct (run cfg os s1) as [s2 tr2|s2 tr2].
Qed.

(** X5: the loop ends at a refresh only, when the cycle has been used up
    and every wallet that was used for a sell is blacklisted; at that point
    the blacklist and the set of used wallets hold the same wallets.
    Wallets that bought and were never picked for a sell do not keep the
    loop running. *)
Theorem humanbuy_ends_when_all_used_wallets_blacklisted
    (cfg : config) (g : rng) (os : list oracle) :
  match humanbuy cfg g os with
  | Stop s _ =>
      remainingCycle s = [] /\
      (forall k, k ∈ usedSellWallets (books s) <-> k ∈ blacklistedWallets s)
  | Continue _ _ => True
  end.
Proof.
  unfold humanbuy.
  pose proof (run_stop cfg os _ (initSession_inv cfg g) (initSession_selected cfg g)) as H.
  pose proof (proj1 (run_selected cfg os _ (initSession_inv cfg g)
                       (initSession_selected cfg g))) as (_ & _ & _ & Hbl).
  destruct (run cfg os (initSession cfg g)) as [s tr|s tr]; [done|].
  cbn [tick_state] in Hbl. destruct H as [H1 H2]. split; [done|].
  intros k. split; auto.
Qed.

(** X7: a wallet that was used for a sell and is found with at most
    0.05 SOL when the cycle is rebuilt is blacklisted by that refresh,
    whatever its rebuy count. *)
Theorem refresh_blacklists_drained_wallet (cfg : config) (g : rng) (os : list oracle)
    (o : oracle) (k : string) :
  (length (walletCycle (tick_state (humanbuy cfg g os)))
   <= walletCyclePosition (tick_state (humanbuy cfg g os)))%nat ->
  k ∈ usedSellWallets (books (tick_state (humanbuy cfg g os))) ->
  (cv_balance (o_rebuyView o k) <= Double.round 0.05)%Q ->
  k ∈ blacklistedWallets (tick_state (tick cfg o (tick_state (humanbuy cfg g os)))).
Proof.
  unfold humanbuy. intros Hdue Hk Hlow.
  destruct (run_selected cfg os _ (initSession_inv cfg g) (initSession_selected cfg g))
    as [(_ & _ & Hused & _) _].
  pose proof (proj1 (run_spec cfg os _ (initSession_inv cfg g))) as Hinv.
  rewrite tick_blacklist.
  destruct (refresh_due_covers cfg o _ (o_rng o) k Hinv Hdue Hk (Hused _ Hk))
    as [Hb|[_ Hc]]; done.
Qed.

Lemma refresh_blacklists_drained_wallet_witness :
  (length (walletCycle (tick_state
     (humanbuy demo_cfg (rng_of_list [mkDraw 19 20; mkDraw 0 1]) (replicate 4 demo_tick))))
   <= walletCyclePosition (tick_state
     (humanbuy demo_cfg (rng_of_list [mkDraw 19 20; mkDraw 0 1]) (replicate 4 demo_tick))))%nat /\
  "WalletB"%string ∈ usedSellWallets (books (tick_state
     (humanbuy demo_cfg (rng_of_list [mkDraw 19 20; mkDraw 0 1]) (replicate 4 demo_tick)))) /\
  (cv_balance (o_rebuyView demo_tick_drained "WalletB"%string) <= Double.round 0.05)%Q /\
  "WalletB"%string ∈ blacklistedWallets (tick_state (tick demo_cfg demo_tick_drained
     (tick_state
        (humanbuy demo_cfg (rng_of_list [mkDraw 19 20; mkDraw 0 1]) (replicate 4 demo_tick))))).
Proof.
  assert ((length (walletCycle (tick_state
     (humanbuy demo_cfg (rng_of_list [mkDraw 19 20; mkDraw 0 1]) (replicate 4 demo_tick))))
   <= walletCyclePosition (tick_state
     (humanbuy demo_cfg (rng_of_list [mkDraw 19 20; mkDraw 0 1]) (replicate 4 demo_tick))))%nat)
    as H1 by (vm_compute; lia).
  assert ("WalletB"%string ∈ usedSellWallets (books (tick_state
     (humanbuy demo_cfg (rng_of_list [mkDraw 19 20; mkDraw 0 1]) (replicate 4 demo_tick)))))
    as H2 by (vm_compute; apply list_elem_of_In; cbn; auto).
  assert (cv_balance (o_rebuyView demo_tick_drained "WalletB"%string) <= Double.round 0.05)%Q
    as H3 by (by vm_compute).
  split; [exact H1|]. split; [exact H2|]. split; [exact H3|].
  exact (refresh_blacklists_drained_wallet _ _ _ _ _ H1 H2 H3).
Defined.

(** ** Selections of fewer than four wallets *)

Lemma sellTrigger_idle (w : walletInfo) outs (s : session) g :
  buyCounter s < buysUntilNextSell s -> sellTrigger w outs s g = (s, g, []).
Proof.
  intros H. unfold sellTrigger.
  destruct (Z.leb_spec (buysUntilNextSell s) (buyCounter s)); [lia|done].
Qed.

Lemma tick_short_first_pass (cfg : config) (o : oracle) (s : session) :
  short_first_pass s ->
  if decide (walletCyclePosition s < length (walletCycle s))%nat then
    exists s' tr,
      tick cfg o s = Continue s' tr /\ short_first_pass s' /\
      walletCycle s' = walletCycle s /\
      walletCyclePosition s' = S (walletCyclePosition s) /\
      soldKeys tr = []
  else
    exists s', tick cfg o s = Stop s' (pauseWait (o_pausedReads o)).
Proof.
  intros (Hused & Hlen & Hpos & Hbc & Hun).
  pose proof (tick_cases cfg o s) as Hc. cbn zeta in Hc.
  case_decide as Hin.
  - assert (refresh cfg o s (o_rng o) = (s, Some (o_rng o))) as Href.
    { unfold refresh. rewrite decide_False by lia. done. }
    rewrite Href in Hc. cbn [fst snd] in Hc.
    destruct Hc as [[_ [?|Hnone]]|(g & w & d & _ & Hw & _ & Hc)]; [done| |].
    { apply lookup_ge_None in Hnone. lia. }
    assert (short_first_pass (afterSkip s)) as Hskip.
    { split_and!; cbn; try done; lia. }
    destruct Hc as [[-> _]|[(a & -> & _)|(a & ta & tb & g2 & -> & _)]].
    + eexists _, _. split; [done|]. split_and!; try done.
      by rewrite soldKeys_app, soldKeys_pauseWait.
    + eexists _, _. split; [done|]. split_and!; try done.
      by rewrite soldKeys_app, soldKeys_pauseWait.
    + pose proof (afterBuy_frame w ta tb s) as (Hbc2 & Hun2 & _ & _ & Hcy2 & Hpos2 & Hu2 & _).
      rewrite sellTrigger_idle by lia. cbn [fst snd].
      eexists _, _. split; [done|]. split_and!; try done.
      * unfold short_first_pass. rewrite Hcy2, Hpos2, Hbc2, Hun2, Hu2.
        split_and!; try done; lia.
      * by rewrite soldKeys_app, soldKeys_pauseWait.
  - assert (refresh cfg o s (o_rng o)
            = (with_cycle [] (walletCyclePosition s) s, None)) as Href.
    { unfold refresh. rewrite decide_True by lia. rewrite Hused. cbn.
      by destruct s. }
    rewrite Href in Hc. cbn [fst snd] in Hc.
    destruct Hc as [[-> _]|(g & w & d & ? & _)]; [eauto|done].
Qed.

Lemma run_short_first_pass (cfg : config) (os : list oracle) :
  forall s, short_first_pass s ->
  soldKeys (tick_trace (run cfg os s)) = [] /\
  buyCounter (tick_state (run cfg os s)) <= Z.of_nat (length (walletCycle s)) /\
  ((length (walletCycle s) - walletCyclePosition s < length os)%nat ->
   is_stop (run cfg os s) = true).
Proof.
  induction os as [|o os IH]; intros s Hs.
  { cbn. split; [done|]. split; [|lia]. destruct Hs as (_ & _ & ? & ? & _). lia. }
  rewrite run_cons. pose proof (tick_short_first_pass cfg o s Hs) as Ht.
  case_decide as Hin.
  - destruct Ht as (s1 & tr & -> & Hs1 & Hcy & Hpos & Hsold).
    destruct (IH s1 Hs1) as (Hsold' & Hbc' & Hstop').
    rewrite Hcy in Hbc'. rewrite Hcy, Hpos in Hstop'.
    destruct (run cfg os s1) as [s2 tr2|s2 tr2]; cbn [tick_state tick_trace is_stop] in *.
    + rewrite soldKeys_app, Hsold, Hsold'. split; [done|]. split; [done|].
      intros Hlt. apply Hstop'. cbn [length] in Hlt. lia.
    + rewrite soldKeys_app, Hsold, Hsold'. done.
  - destruct Ht as (s1 & Ht).
    pose proof (tick_buys cfg o s) as Hb. rewrite Ht in Hb |- *.
    cbn [tick_state tick_trace is_stop] in *.
    rewrite sentBuys_pauseWait in Hb. cbn [length] in Hb.
    destruct Hs as (_ & _ & ? & ? & _).
    split; [apply soldKeys_pauseWait|]. split; [lia|done].
Qed.

(** X6: with fewer than four wallets selected, [humanbuy] never sells: the
    first sell point is at least 4, each wallet buys at most once in the
    first pass, and when the pass is over no wallet has been used for a
    sell, so the refresh finds nothing to rebuy and ends the run, at the
    latest in the iteration after the last wallet. *)
Theorem humanbuy_few_wallets_never_sell (cfg : config) (g : rng) (os : list oracle) :
  (length (selected cfg) < 4)%nat ->
  soldKeys (tick_trace (humanbuy cfg g os)) = [] /\
  (length (sentBuys (tick_trace (humanbuy cfg g os))) <= length (selected cfg))%nat /\
  ((length (selected cfg) < length os)%nat -> is_stop (humanbuy cfg g os) = true).
Proof.
  intros Hfew. unfold humanbuy.
  assert (length (walletCycle (initSession cfg g)) = length (selected cfg)) as Hlen.
  { cbn. unfold selectedWallets. by rewrite length_fmap. }
  assert (short_first_pass (initSession cfg g)) as H0.
  { pose proof (determineNextSellPoint_bounds g).
    split_and!; [done|lia| | |]; unfold initSession;
      cbn [walletCyclePosition buyCounter buysUntilNextSell]; lia. }
  destruct (run_short_first_pass cfg os _ H0) as (Hsold & Hbc & Hstop).
  rewrite run_buys in Hbc. rewrite Hlen in Hbc, Hstop.
  split; [done|]. split.
  - change (buyCounter (initSession cfg g)) with 0 in Hbc. lia.
  - intros ?. apply Hstop.
    change (walletCyclePosition (initSession cfg g)) with 0%nat. lia.
Qed.

Lemma humanbuy_few_wallets_never_sell_witness :
  (length (selected demo_cfg_single) < 4)%nat /\
  soldKeys (tick_trace (humanbuy demo_cfg_single rng_half [demo_tick; demo_tick])) = [] /\
  (length (sentBuys (tick_trace (humanbuy demo_cfg_single rng_half [demo_tick; demo_tick])))
   <= length (selected demo_cfg_single))%nat /\
  is_stop (humanbuy demo_cfg_single rng_half [demo_tick; demo_tick]) = true.
Proof.
  assert (length (selected demo_cfg_single) < 4)%nat as H by (vm_compute; lia).
  destruct (humanbuy_few_wallets_never_sell demo_cfg_single rng_half
              [demo_tick; demo_tick] H) as (H1 & H2 & H3).
  split; [exact H|]. split; [exact H1|]. split; [exact H2|].
  apply H3. vm_compute. lia.
Defined.

(** ** The first pass *)

Lemma tick_first_pass (cfg : config) (o : oracle) (s : session) :
  walletCycle s = selectedWallets cfg ->
  (walletCyclePosition s < length (selected cfg))%nat ->
  is_stop (tick cfg o s) = false /\
  walletCycle (tick_state (tick cfg o s)) = selectedWallets cfg /\
  walletCyclePosition (tick_state (tick cfg o s)) = S (walletCyclePosition s) /\
  tickWallet cfg o s = fst <$> selected cfg !! walletCyclePosition s.
Proof.
  intros Hcy Hpos.
  assert (length (walletCycle s) = length (selected cfg)) as Hlen.
  { rewrite Hcy. unfold selectedWallets. by rewrite length_fmap. }
  assert (refresh cfg o s (o_rng o) = (s, Some (o_rng o))) as Href.
  { unfold refresh. rewrite decide_False by lia. done. }
  assert (wi_pubKey <$> walletCycle s !! walletCyclePosition s
          = fst <$> selected cfg !! walletCyclePosition s) as Hkey.
  { rewrite Hcy. unfold selectedWallets. rewrite list_lookup_fmap.
    by destruct (selected cfg !! walletCyclePosition s). }
  pose proof (tick_cases cfg o s) as Hc. cbn zeta in Hc. unfold tickWallet.
  rewrite Href in *. cbn [fst snd] in *.
  destruct Hc as [[_ [?|Hnone]]|(g & w & d & _ & Hw & _ & Hc)]; [done| |].
  { apply lookup_ge_None in Hnone. lia. }
  destruct Hc as [[-> _]|[(a & -> & _)|(a & ta & tb & g2 & -> & _)]];
    cbn [tick_state is_stop]; try done.
  pose proof (sellTrigger_frame w (o_sells o) (afterBuy w ta tb s) g2)
    as (_ & _ & _ & _ & -> & ->).
  pose proof (afterBuy_frame w ta tb s) as (_ & _ & _ & _ & -> & -> & _).
  done.
Qed.

(** X28: the first pass of [humanbuy] takes the selected wallets in the
    order of the selection, one in each iteration: the run does not end
    during the pass, the cycle is the selection itself (it is shuffled only
    when it is rebuilt for rebuys), and the wallet of the next iteration is
    the next wallet of the selection. *)
Theorem humanbuy_first_pass_in_order (cfg : config) (g : rng) (os : list oracle) :
  (length os <= length (selected cfg))%nat ->
  is_stop (humanbuy cfg g os) = false /\
  walletCycle (tick_state (humanbuy cfg g os)) = selectedWallets cfg /\
  walletCyclePosition (tick_state (humanbuy cfg g os)) = length os /\
  forall o, (length os < length (selected cfg))%nat ->
    tickWallet cfg o (tick_state (humanbuy cfg g os)) = fst <$> selected cfg !! length os.
Proof.
  unfold humanbuy.
  assert (walletCycle (initSession cfg g) = selectedWallets cfg) as H0 by done.
  assert (walletCyclePosition (initSession cfg g) = 0%nat) as H1 by done.
  revert H0 H1. generalize (initSession cfg g). intros s Hcy Hpos Hlen.
  assert (is_stop (run cfg os s) = false /\
          walletCycle (tick_state (run cfg os s)) = selectedWallets cfg /\
          walletCyclePosition (tick_state (run cfg os s))
          = (walletCyclePosition s + length os)%nat) as (Hstop & Hcy' & Hpos').
  { assert (walletCyclePosition s + length os <= length (selected cfg))%nat as Hbound by lia.
    clear Hpos Hlen. revert s Hcy Hbound.
    induction os as [|o os IH]; intros s Hcy Hbound.
    { cbn. split_and!; [done|done|lia]. }
    cbn [length] in Hbound. rewrite run_cons.
    destruct (tick_first_pass cfg o s Hcy ltac:(lia)) as (Hs & Hcy1 & Hpos1 & _).
    destruct (tick cfg o s) as [s1 tr|s1 tr]; cbn [tick_state is_stop] in *; [|done].
    destruct (IH s1 Hcy1 ltac:(lia)) as (Hs2 & Hcy2 & Hpos2).
    destruct (run cfg os s1) as [s2 tr2|s2 tr2]; cbn [tick_state is_stop length] in *;
      split_and!; try done; lia. }
  rewrite Hpos in Hpos'. cbn in Hpos'. split_and!; try done.
  intros o Hlt.
  destruct (tick_first_pass cfg o _ Hcy' ltac:(lia)) as (_ & _ & _ & Hw).
  by rewrite Hw, Hpos'.
Qed.

Lemma humanbuy_first_pass_in_order_witness :
  (length [demo_tick; demo_tick] <= length (selected demo_cfg))%nat /\
  is_stop (humanbuy demo_cfg rng_half [demo_tick; demo_tick]) = false /\
  walletCyclePosition (tick_state (humanbuy demo_cfg rng_half [demo_tick; demo_tick]))
  = length [demo_tick; demo_tick] /\
  tickWallet demo_cfg demo_tick (tick_state (humanbuy demo_cfg rng_half [demo_tick; demo_tick]))
  = fst <$> selected demo_cfg !! length [demo_tick; demo_tick].
Proof.
  assert (length [demo_tick; demo_tick] <= length (selected demo_cfg))%nat as H
    by (vm_compute; lia).
  destruct (humanbuy_first_pass_in_order demo_cfg rng_half [demo_tick; demo_tick] H)
    as (H1 & _ & H3 & H4).
  split; [exact H|]. split; [exact H1|]. split; [exact H3|].
  apply H4. vm_compute. lia.
Defined.

(** ** Sell sequences *)

Lemma executeSessionSell_attempt (l : ledger) last out g :
  (length (soldKeys (executeSessionSell l last out g).2) <= 1)%nat /\
  (ret_success (executeSessionSell l last out g).1.1.1 = true ->
   length (soldKeys (executeSessionSell l last out g).2) = 1%nat).
Proof.
  unfold executeSessionSell, executeWalletSell, Math_random.
  repeat case_match; simplify_eq/=; split; (lia || done).
Qed.

Lemma sellLoop_attempts (remaining : nat) :
  forall i l last n outs g,
  (length (soldKeys (sellLoop remaining i l last n outs g).2) <= remaining)%nat /\
  (sellLoop remaining i l last n outs g).1.1.1
  <= n + Z.of_nat (length (soldKeys (sellLoop remaining i l last n outs g).2))
  <= (sellLoop remaining i l last n outs g).1.1.1 + 1.
Proof.
  induction remaining as [|remaining IH]; intros i l last n outs g; [cbn; lia|].
  cbn [sellLoop].
  pose proof (executeSessionSell_attempt l last (outs i) g) as [H1 H2].
  destruct (executeSessionSell l last (outs i) g) as [[[ret l1] g1] ev].
  cbn [fst snd] in H1, H2.
  destruct (ret_success ret); [|cbn [fst snd]; lia].
  specialize (H2 eq_refl).
  set (dg := match remaining with O => _ | S _ => _ end).
  assert (soldKeys dg.1 = []) as Hd.
  { subst dg. destruct remaining; [done|]. by destruct (getRandomSellDelay g1). }
  destruct dg as [delay g2]. cbn [fst] in Hd.
  specialize (IH (S i) l1 (ret_wallet ret) (n + 1) outs g2).
  destruct (sellLoop remaining _ _ _ _ _ _) as [[[c l2] g3] evs2].
  cbn [fst snd] in *. rewrite !soldKeys_app, Hd, !length_app. cbn [length]. lia.
Qed.

(** X12: a sell sequence makes at most [min 7 availableWalletCount] sell
    attempts; it stops at the first attempt that does not succeed, so the
    count it reports is the number of attempts or one less; and it reports
    success exactly when that count is positive. *)
Theorem executeSessionSells_attempts (l : ledger) (last : option string)
    (outs : nat -> sellOutcome) (g : rng) :
  Z.of_nat (length (soldKeys (executeSessionSells l last outs g).2))
  <= Z.min 7 (availableWalletCount l) /\
  sr_count (executeSessionSells l last outs g).1.1.1
  <= Z.of_nat (length (soldKeys (executeSessionSells l last outs g).2))
  <= sr_count (executeSessionSells l last outs g).1.1.1 + 1 /\
  sr_success (executeSessionSells l last outs g).1.1.1
  = (0 <? sr_count (executeSessionSells l last outs g).1.1.1).
Proof.
  unfold executeSessionSells.
  assert (0 <= availableWalletCount l) as Hnn by (unfold availableWalletCount; lia).
  destruct (Z.eqb_spec (availableWalletCount l) 0) as [E|E]; [cbn; lia|].
  pose proof (determineConsecutiveSells_bounds (availableWalletCount l) g) as (Hb1 & Hb2 & Hb3).
  destruct (determineConsecutiveSells (availableWalletCount l) g) as [n g1].
  pose proof (sellLoop_attempts (Z.to_nat n) 0 l last 0 outs g1) as [Ha Hc].
  destruct (sellLoop _ _ _ _ _ _ _) as [[[c l1] g2] evs1].
  cbn [fst snd sr_count sr_success] in *. split_and!; [lia|lia|lia|done].
Qed.

(** ** Quote engine: the pool product *)

(** X13: on a pool with a positive virtual token reserve a positive amount
    buys a non-negative quantity that is less than the virtual token
    reserve, and the product of the two virtual reserves after the trade is
    strictly larger than before: the quote never gives out more than the
    constant-product curve allows. *)
Theorem buyQuote_product_grows (amount : Z) (r : reserves) :
  0 < amount -> 0 <= virtualSolReserves r -> 0 < virtualTokenReserves r ->
  0 <= realTokenReserves r ->
  exists out,
    buyQuote amount (Some r) = Ok out /\
    0 <= out < virtualTokenReserves r /\
    virtualSolReserves r * virtualTokenReserves r
    < (virtualSolReserves r + amount) * (virtualTokenReserves r - out).
Proof.
  intros Ha Hs Ht Hr. rewrite buyQuote_pos by lia.
  eexists. split; [done|].
  pose proof (quotient_below (virtualTokenReserves r) (virtualSolReserves r) amount
                ltac:(lia) Hs Ha) as Hq.
  assert (0 <= virtualTokenReserves r * virtualSolReserves r / (virtualSolReserves r + amount))
    as Hq0 by (apply Z.div_pos; nia).
  pose proof (Z.mul_succ_div_gt (virtualTokenReserves r * virtualSolReserves r)
                (virtualSolReserves r + amount) ltac:(lia)) as Hgt.
  revert Hq Hq0 Hgt.
  generalize (virtualTokenReserves r * virtualSolReserves r / (virtualSolReserves r + amount)).
  intros q Hq Hq0 Hgt. split; [lia|].
  assert (q + 1 <= virtualTokenReserves r
                   - Z.min (virtualTokenReserves r - (q + 1)) (realTokenReserves r)) by lia.
  nia.
Qed.

Lemma buyQuote_product_grows_witness :
  exists out,
    buyQuote 1000000000 (Some pump_initial) = Ok out /\
    0 <= out < virtualTokenReserves pump_initial /\
    virtualSolReserves pump_initial * virtualTokenReserves pump_initial
    < (virtualSolReserves pump_initial + 1000000000)
      * (virtualTokenReserves pump_initial - out).
Proof.
  apply (buyQuote_product_grows 1000000000 pump_initial); vm_compute; congruence.
Defined.

(** ** Sizing policy: what a wallet can spend *)





(** The bound without the allowance for the rounding does not hold: with a
    spendable balance of 0.11111 and a draw of 0.999999 the amount is
    0.099999, which is more than nine tenths of the double 0.11111. *)
Example calculateDirectBuyAmount_rounding :
  (Double.round 0.11111 * 0.9
   < (calculateDirectBuyAmount (Double.round 0.11111)
        (rng_of_list [mkDraw 999999 1000000])).1)%Q.
Proof. qcompute. Qed.

(** ** Numbers that need not be finite *)





Lemma suggestedAmount_NaN (eb : Q) : suggestedAmount eb NaN = NaN.
Proof. done. Qed.




(** ** Single buys *)

Lemma walletBalanceSol_mono (a b : Z) :
  a <= b ->
  (Double.div (Double.round (inject_Z a)) 1000000000
   <= Double.div (Double.round (inject_Z b)) 1000000000)%Q.
Proof.
  intros H. apply Double_div_mono_l; [done|].
  apply DoubleFacts.round_mono. by rewrite <- Zle_Qle.
Qed.







(** Without the bound on the amount the reserve is not kept in lamports:
    a wallet with 1,421,028,614.024258537 SOL passes the check for the
    amount [balance - 0.05] as the doubles have it, and the lamports of
    that amount exceed the balance less the reserve by 151. *)
Example executeBuy_large_balance :
  let balance := 1421028614024258537 in
  let buyAmount := bc_maxAvailable (checkWalletBalance (Ok balance) (Finite 0)
                                                       minKeepAmount_default) in
  (Rpc.executeBuy (demo_buyChain balance) (Finite buyAmount)).2
  = Some (Finite (inject_Z 1421028613974258688)) /\
  balance < 1421028613974258688 + 50000000.
Proof. split; [by vm_compute|done]. Qed.





(** ** Single sells, with the calls they make *)

Lemma sellAmountOf_spec (tokenBalance : result Z) :
  1 <= Rpc.sellAmountOf tokenBalance /\
  (Rpc.sellAmountOf tokenBalance = 1 \/ tokenBalance = Ok (Rpc.sellAmountOf tokenBalance)).
Proof.
  unfold Rpc.sellAmountOf. destruct tokenBalance as [amount|]; [|auto with lia].
  destruct (Z.leb_spec amount 0); auto with lia.
Qed.

(** X18: [executeWalletSell] with its calls is [executeWalletSell] as the
    loop sees it: whichever call fails, the wallet ends up in
    [usedSellWallets], and it is deleted from [successfulBuyWallets] exactly
    when the transaction was sent.  The amount it hands to [humanSellTX] is
    at least 1: the whole balance it read, or ["1"] when the balance is
    zero, could not be read, or the token account was just created. *)
Theorem executeWalletSell_rpc_refines (c : sellChain) (l : ledger) (info : holding) :
  (Rpc.executeWalletSell c l info).1
  = executeWalletSell l info
      (if (Rpc.executeWalletSell c l info).1.1 then SellSent else SellFailed) /\
  ((Rpc.executeWalletSell c l info).1.1 = true <->
   is_Some (Rpc.sellTarget c info) /\
   (exists u, sch_createTX c = Ok u) /\ exists signature, sch_send c = Ok signature) /\
  match (Rpc.executeWalletSell c l info).2 with
  | Some (_, amount) =>
      1 <= amount /\ (amount = 1 \/ sch_tokenBalance c = Ok amount)
  | None => (Rpc.executeWalletSell c l info).1.1 = false
  end.
Proof.
  unfold Rpc.executeWalletSell, executeWalletSell.
  assert (forall ta amount, Rpc.sellTarget c info = Some (ta, amount) ->
            1 <= amount /\ (amount = 1 \/ sch_tokenBalance c = Ok amount)) as Hamount.
  { unfold Rpc.sellTarget. intros ta amount H.
    pose proof (sellAmountOf_spec (sch_tokenBalance c)).
    repeat case_match; simplify_eq; auto with lia. }
  destruct (Rpc.sellTarget c info) as [[ta amount]|] eqn:Ht; cbn [fst snd].
  2:{ split; [done|]. split; [|done]. split; [done|]. by intros [[? ?] _]. }
  specialize (Hamount _ _ eq_refl).
  destruct (sch_createTX c) as [u|]; cbn [fst snd].
  2:{ split; [done|]. split; [|done]. split; [done|]. by intros (_ & [? ?] & _). }
  destruct (sch_send c) as [signature|]; cbn [fst snd].
  2:{ split; [done|]. split; [|done]. split; [done|]. by intros (_ & _ & [? ?]). }
  split; [done|]. split; [|done]. split; eauto.
Qed.

(** ** Choosing the wallets to trade with *)

Lemma omap_submseteq {A B} (f : A -> option B) (l1 l2 : list A) :
  l1 ⊆+ l2 -> omap f l1 ⊆+ omap f l2.
Proof.
  induction 1 as [|x l1 l2 _ IH|x y l|x l1 l2 _ IH|l1 l2 l3 _ IH1 _ IH2]; cbn.
  - done.
  - destruct (f x); [by apply submseteq_skip|done].
  - destruct (f x), (f y); try done. apply submseteq_swap.
  - destruct (f x); [by apply submseteq_cons|done].
  - by etrans.
Qed.

Lemma omap_lookup_seq {A} (l k : list A) :
  omap (fun i => (k ++ l) !! i) (seq (length k) (length l)) = l.
Proof.
  revert k. induction l as [|x l IH]; intros k; [done|].
  cbn. rewrite list_lookup_middle by done. cbn. f_equal.
  specialize (IH (k ++ [x])). rewrite length_app, <- app_assoc in IH. cbn in IH.
  by rewrite Nat.add_1_r in IH.
Qed.

Lemma omap_lookup_submseteq {A} (l : list A) (positions : list nat) :
  NoDup positions -> (forall i, i ∈ positions -> (i < length l)%nat) ->
  omap (fun i => l !! i) positions ⊆+ l.
Proof.
  intros Hnd Hlt.
  pose proof (omap_lookup_seq l []) as E. cbn [app length] in E.
  assert (omap (fun i => l !! i) positions ⊆+ omap (fun i => l !! i) (seq 0 (length l)))
    as H; [|by rewrite E in H].
  apply omap_submseteq, NoDup_submseteq; [done|].
  intros i Hi. apply elem_of_seq. specialize (Hlt i Hi). lia.
Qed.

Lemma length_omap_lookup {A} (l : list A) (positions : list nat) :
  (forall i, i ∈ positions -> (i < length l)%nat) ->
  length (omap (fun i => l !! i) positions) = length positions.
Proof.
  induction positions as [|i positions IH]; intros Hlt; [done|]. cbn.
  destruct (lookup_lt_is_Some_2 l i) as [x ->]; [apply Hlt; by left|].
  cbn. f_equal. apply IH. intros j Hj. apply Hlt. by right.
Qed.

(** The loop of [selectRandomWallets] picks distinct available indices, as
    many as asked for while any are left. *)
Lemma pickWallets_spec {A} (n : nat) (walletList : list A) :
  forall availableIndices selectedWallets g,
  (forall i, i ∈ availableIndices -> (i < length walletList)%nat) ->
  exists picked,
    (pickWallets n walletList availableIndices selectedWallets g).1
    = selectedWallets ++ omap (fun i => walletList !! i) picked /\
    picked ⊆+ availableIndices /\
    length picked = Nat.min n (length availableIndices).
Proof.
  induction n as [|n IH]; intros avail sel g Hlt.
  { exists []. cbn. rewrite app_nil_r. split_and!; [done|apply submseteq_nil_l|done]. }
  cbn [pickWallets].
  destruct (decide (length avail = 0%nat)) as [Hlen|Hlen].
  { exists []. cbn. rewrite app_nil_r, Hlen.
    split_and!; [done|apply submseteq_nil_l|lia]. }
  unfold Math_random.
  pose proof (random_index_in_range (g 0%nat) (length avail) ltac:(lia)) as Hpos.
  destruct (lookup_lt_is_Some_2 avail _ Hpos) as [i Hi]. rewrite Hi.
  destruct (lookup_lt_is_Some_2 walletList i) as [w Hw].
  { apply Hlt. by eapply list_elem_of_lookup_2. }
  rewrite Hw.
  set (pos := Z.to_nat _) in *.
  destruct (IH (delete pos avail) (sel ++ [w]) (fun k => g (S k))) as (picked & Hres & Hsub & Hn).
  { intros j Hj. apply Hlt. by eapply list_elem_of_delete_inv. }
  exists (i :: picked). split_and!.
  - rewrite Hres, <- app_assoc. cbn. by rewrite Hw.
  - rewrite (delete_Permutation avail pos i Hi). by apply submseteq_skip.
  - cbn [length]. rewrite Hn, length_delete by eauto. lia.
Qed.

Lemma selectRandomWallets_spec {A} (walletList : list A) (count : option Z) (g : rng) :
  (selectRandomWallets walletList count g).1 ⊆+ walletList /\
  length (selectRandomWallets walletList count g).1
  = Z.to_nat (Z.min (match count with
                     | Some c => if c =? 0 then 1 else c
                     | None => 1
                     end) (Z.of_nat (length walletList))).
Proof.
  unfold selectRandomWallets.
  set (countOrOne := match count with Some c => _ | None => _ end).
  destruct (Z.eqb_spec (Z.min countOrOne (Z.of_nat (length walletList)))
                       (Z.of_nat (length walletList))) as [E|E].
  { cbn [fst]. split; [done|]. rewrite E. lia. }
  destruct (pickWallets_spec (Z.to_nat (Z.min countOrOne (Z.of_nat (length walletList))))
              walletList (seq 0 (length walletList)) [] g) as (picked & -> & Hsub & Hn).
  { intros i Hi%elem_of_seq. lia. }
  cbn [app].
  assert (NoDup picked) as Hnd.
  { apply submseteq_Permutation in Hsub as [k Hk].
    pose proof (NoDup_seq 0 (length walletList)) as Hs. rewrite Hk in Hs.
    by apply NoDup_app in Hs as [? _]. }
  assert (forall i, i ∈ picked -> (i < length walletList)%nat) as Hlt.
  { intros i Hi. apply (elem_of_submseteq _ _ _ Hi) in Hsub.
    apply elem_of_seq in Hsub. lia. }
  split; [by apply omap_lookup_submseteq|].
  rewrite length_omap_lookup by done. rewrite Hn, length_seq. lia.
Qed.

Lemma indexOf_Some (x : Z) (arr : list Z) (p : nat) :
  indexOf x arr = Some p -> arr !! p = Some x.
Proof.
  revert p. induction arr as [|y arr IH]; intros p; [done|]. cbn.
  case_decide; [by intros; simplify_eq|].
  destruct (indexOf x arr) as [q|]; [|done]. cbn. intros; simplify_eq. cbn. auto.
Qed.

Lemma indexOf_elem_of (x : Z) (arr : list Z) :
  x ∈ arr -> is_Some (indexOf x arr).
Proof.
  induction arr as [|y arr IH]; [by intros ?%elem_of_nil|]. cbn.
  case_decide; [by eauto|]. intros [?|Hin]%elem_of_cons; [congruence|].
  destruct (IH Hin) as [q ->]. by eauto.
Qed.

Lemma elem_of_firstOccurrences (x : Z) (arr : list Z) :
  x ∈ firstOccurrences arr <-> x ∈ arr.
Proof.
  unfold firstOccurrences. rewrite list_elem_of_fmap. split.
  - intros ([p y] & -> & [_ Hin]%list_elem_of_filter).
    apply elem_of_lookup_imap in Hin as (i & z & ? & Hz). simplify_eq.
    by eapply list_elem_of_lookup_2.
  - intros Hin. destruct (indexOf_elem_of x arr Hin) as [p Hp].
    exists (p, x). split; [done|]. apply list_elem_of_filter. split; [done|].
    apply (elem_of_lookup_imap_2 pair). by apply indexOf_Some.
Qed.

Lemma NoDup_firstOccurrences (arr : list Z) : NoDup (firstOccurrences arr).
Proof.
  unfold firstOccurrences. apply NoDup_fmap_2_strong.
  - intros [p x] [q y] [Hp _]%list_elem_of_filter [Hq _]%list_elem_of_filter ?.
    cbn in *. simplify_eq. congruence.
  - apply NoDup_filter. apply NoDup_alt. intros i j [p x].
    rewrite !list_lookup_imap. intros Hi Hj.
    destruct (arr !! i) eqn:Ei, (arr !! j) eqn:Ej; simplify_eq/=. done.
Qed.

Lemma omap_fmap_lookup {A} (l : list A) (h : Z -> nat) (indices : list Z) :
  omap (fun idx => l !! h idx) indices = omap (fun i => l !! i) (h <$> indices).
Proof. induction indices as [|i indices IH]; [done|]. cbn. by rewrite IH. Qed.

Lemma selectSpecificWallets_submseteq {A} (walletList : list A) (indices : option (list Z)) :
  selectSpecificWallets walletList indices ⊆+ walletList.
Proof.
  assert (match walletList with w :: _ => [w] | [] => [] end ⊆+ walletList) as Hfirst.
  { destruct walletList as [|w l]; [done|]. apply submseteq_skip, submseteq_nil_l. }
  unfold selectSpecificWallets.
  destruct indices as [[|idx indices]|]; [done| |done].
  set (valid := firstOccurrences _).
  case_decide; [done|].
  assert (forall i, i ∈ valid -> 1 <= i <= Z.of_nat (length walletList)) as Hvalid.
  { intros i [Hi _]%elem_of_firstOccurrences%list_elem_of_filter. done. }
  rewrite (omap_fmap_lookup walletList (fun i => Z.to_nat (i - 1))).
  apply omap_lookup_submseteq.
  - apply NoDup_fmap_2_strong; [|apply NoDup_firstOccurrences].
    intros i j Hi%Hvalid Hj%Hvalid ?. lia.
  - intros p (i & -> & Hi%Hvalid)%list_elem_of_fmap. lia.
Qed.

Lemma selectWalletsForTrading_submseteq {A} (walletList : list A)
    (selectionConfig : selectionConfig) (g : rng) :
  (selectWalletsForTrading walletList selectionConfig g).1 ⊆+ walletList.
Proof.
  unfold selectWalletsForTrading.
  case_decide; [apply submseteq_nil_l|].
  case_decide; [apply selectRandomWallets_spec|apply selectSpecificWallets_submseteq].
Qed.

(** X19: the wallets [selectWalletsForTrading] returns are wallets of the
    list it is given, each position of the list taken at most once
    (the result is a sub-multiset of the list), in both modes and whatever
    the random source yields; an empty list gives an empty selection. *)
Theorem selectWalletsForTrading_selects_from_list {A} (walletList : list A)
    (selectionConfig : selectionConfig) (g : rng) :
  (selectWalletsForTrading walletList selectionConfig g).1 ⊆+ walletList /\
  (selectWalletsForTrading [] selectionConfig g).1 = @nil A.
Proof. split; [apply selectWalletsForTrading_submseteq|done]. Qed.

(** X20: in random mode the number of wallets selected is the count asked
    for, with 1 in place of a missing or zero count, capped at the number
    of wallets (and none for a negative count). *)
Theorem selectRandomWallets_length {A} (walletList : list A) (count : option Z) (g : rng) :
  length (selectRandomWallets walletList count g).1
  = Z.to_nat (Z.min (match count with
                     | Some c => if c =? 0 then 1 else c
                     | None => 1
                     end) (Z.of_nat (length walletList))).
Proof. apply selectRandomWallets_spec. Qed.

(** X21: in specific mode every wallet asked for by an index between 1 and
    the number of wallets is selected; indices outside that range are
    ignored; and when no index is left (or none was given) the selection is
    the first wallet, so it is not empty unless the wallet list is. *)
Theorem selectSpecificWallets_selects_requested {A} (walletList : list A)
    (indices : option (list Z)) :
  (forall idx w,
     idx ∈ default [] indices -> 1 <= idx ->
     walletList !! Z.to_nat (idx - 1) = Some w ->
     w ∈ selectSpecificWallets walletList indices) /\
  (filter (fun idx => 1 <= idx <= Z.of_nat (length walletList)) (default [] indices) = [] ->
   selectSpecificWallets walletList indices = take 1 walletList) /\
  (walletList <> [] -> selectSpecificWallets walletList indices <> []).
Proof.
  assert (match walletList with w :: _ => [w] | [] => [] end = take 1 walletList) as Hfirst.
  { by destruct walletList. }
  unfold selectSpecificWallets. rewrite Hfirst.
  destruct indices as [indices|]; cbn [default from_option id].
  2:{ split_and!; [by intros ?? ?%elem_of_nil|done|].
      destruct walletList; [done|]. by intros _. }
  set (valid := filter _ indices).
  assert (match indices with
          | [] => take 1 walletList
          | _ :: _ =>
              if decide (length (firstOccurrences valid) = 0%nat) then take 1 walletList
              else omap (fun idx => walletList !! Z.to_nat (idx - 1)) (firstOccurrences valid)
          end
          = if decide (length (firstOccurrences valid) = 0%nat) then take 1 walletList
            else omap (fun idx => walletList !! Z.to_nat (idx - 1)) (firstOccurrences valid))
    as ->.
  { destruct indices; [|done]. by rewrite decide_True by done. }
  assert (forall idx w, idx ∈ indices -> 1 <= idx ->
            walletList !! Z.to_nat (idx - 1) = Some w -> idx ∈ firstOccurrences valid) as Hin.
  { intros idx w Hidx H1 Hw. apply elem_of_firstOccurrences, list_elem_of_filter.
    split; [|done]. apply lookup_lt_Some in Hw. lia. }
  case_decide as Hlen.
  - apply nil_length_inv in Hlen. split_and!.
    + intros idx w Hidx H1 Hw. specialize (Hin idx w Hidx H1 Hw).
      rewrite Hlen in Hin. by apply elem_of_nil in Hin.
    + done.
    + destruct walletList; [done|]. by intros _.
  - split_and!.
    + intros idx w Hidx H1 Hw. apply list_elem_of_omap. exists idx. eauto.
    + intros Hnil. subst valid. rewrite Hnil in Hlen. done.
    + intros _ Hnil. destruct (firstOccurrences valid) as [|idx rest] eqn:E; [done|].
      assert (idx ∈ valid) as [Hv _]%list_elem_of_filter.
      { apply elem_of_firstOccurrences. rewrite E. by left. }
      destruct (lookup_lt_is_Some_2 walletList (Z.to_nat (idx - 1))) as [w Hw]; [lia|].
      cbn in Hnil. by rewrite Hw in Hnil.
Qed.

Lemma walletBuyAmounts_keys (allWallets : list string) :
  (walletBuyAmounts allWallets).*1 = allWallets.
Proof.
  unfold walletBuyAmounts. rewrite fmap_imap.
  rewrite (imap_ext _ (fun _ w => w)) by done.
  induction allWallets as [|w l IH]; [done|]. cbn. f_equal.
  rewrite <- IH at 2. by apply imap_ext.
Qed.

(** X22: the loop of [humanbuy] is configured with wallets of the wallet
    file: each selected entry carries the 1-based position of its wallet
    in the file, and when the file lists no wallet twice no wallet is
    selected twice. *)
Theorem humanbuy_config_selected (allWallets : list string)
    (walletSelection : selectionConfig) (maxDelayMs minDelayMs : Z) (g : rng) :
  Forall (fun wi : string * Z =>
            1 <= wi.2 /\ allWallets !! Z.to_nat (wi.2 - 1) = Some wi.1)
         (selected (humanbuy_config allWallets walletSelection maxDelayMs minDelayMs g).1) /\
  (NoDup allWallets ->
   NoDup (selectedKeys
            (humanbuy_config allWallets walletSelection maxDelayMs minDelayMs g).1)).
Proof.
  unfold humanbuy_config.
  pose proof (selectWalletsForTrading_submseteq
                (walletBuyAmounts allWallets) walletSelection g) as Hsub.
  destruct (selectWalletsForTrading _ _ _) as [sel g1]. cbn [fst selected] in *.
  split.
  - apply Forall_forall. intros wi Hwi.
    apply (elem_of_submseteq _ _ _ Hwi) in Hsub.
    apply elem_of_lookup_imap in Hsub as (i & w & -> & Hw). cbn.
    split; [lia|]. by replace (Z.to_nat (Z.of_nat i + 1 - 1)) with i by lia.
  - intros Hnd. unfold selectedKeys, selectedWallets. cbn [selected].
    rewrite <- list_fmap_compose.
    assert (sel.*1 ⊆+ allWallets) as Hkeys.
    { rewrite <- (walletBuyAmounts_keys allWallets). by apply fmap_submseteq. }
    apply submseteq_Permutation in Hkeys as [k Hk]. rewrite Hk in Hnd.
    by apply NoDup_app in Hnd as [? _].
Qed.

(** ** Sells follow buys *)

Lemma sells_follow_buys_app (bought : list string) (tr tr' : list event) :
  sells_follow_buys bought (tr ++ tr')
  = sells_follow_buys bought tr && sells_follow_buys (reverse (sentBuys tr) ++ bought) tr'.
Proof.
  revert bought. induction tr as [|e tr IH]; intros bought; [done|].
  destruct e as [p|ms|k a [|]|k b]; cbn [app sells_follow_buys sentBuys omap];
    rewrite ?IH; try done.
  - change (sentBuys (EvBuy k a true :: tr)) with (k :: sentBuys tr).
    by rewrite reverse_cons, <- app_assoc.
  - by rewrite andb_assoc.
Qed.

Lemma sells_follow_buys_mono (bought bought' : list string) (tr : list event) :
  (forall k, k ∈ bought -> k ∈ bought') ->
  sells_follow_buys bought tr = true -> sells_follow_buys bought' tr = true.
Proof.
  revert bought bought'. induction tr as [|e tr IH]; intros bought bought' Hsub; [done|].
  destruct e as [p|ms|k a [|]|k b]; cbn [sells_follow_buys]; eauto.
  - apply IH. intros k'. rewrite !elem_of_cons. naive_solver.
  - rewrite !andb_true_iff, !bool_decide_eq_true. naive_solver.
Qed.

Lemma sells_follow_buys_sell_sequence (bought : list string) (evs : list event) :
  Forall sell_sequence_event evs ->
  (forall k, k ∈ soldKeys evs -> k ∈ bought) ->
  sells_follow_buys bought evs = true.
Proof.
  induction 1 as [|e evs He _ IH]; intros Hin; [done|].
  destruct e as [p|ms|k a s|k b]; cbn in *; try done.
  - by apply IH.
  - rewrite andb_true_iff, bool_decide_eq_true. split.
    + apply Hin. by left.
    + apply IH. intros k' Hk'. apply Hin. by right.
Qed.

Lemma sells_follow_buys_pauseWait (bought : list string) (n : nat) :
  sells_follow_buys bought (pauseWait n) = true.
Proof. induction n as [|n IH]; [done|]. exact IH. Qed.

Lemma tick_sells_follow_buys (cfg : config) (o : oracle) (s : session) (bought : list string) :
  session_inv cfg s ->
  (forall k, k ∈ (successfulBuyWallets (books s)).*1 -> k ∈ bought) ->
  sells_follow_buys bought (tick_trace (tick cfg o s)) = true /\
  (forall k, k ∈ (successfulBuyWallets (books (tick_state (tick cfg o s)))).*1 ->
     k ∈ reverse (sentBuys (tick_trace (tick cfg o s))) ++ bought).
Proof.
  intros Hinv Hheld.
  pose proof (refresh_frame cfg o s (o_rng o)) as (Hbooks & _). cbn zeta in Hbooks.
  destruct (refresh cfg o s (o_rng o)) as [s1 og] eqn:Href.
  destruct (refresh_spec _ _ _ _ _ _ Hinv Href) as (Hinv1 & _).
  pose proof (tick_cases cfg o s) as Hc. cbn zeta in Hc. rewrite Href in Hc.
  cbn [fst snd] in *. rewrite <- Hbooks in Hheld.
  destruct Hc as [[-> _]|(g & w & d & _ & Hw & _ & [[-> _]|[(a & -> & _)|(a & ta & tb & g2 & -> & _)]])];
    cbn [tick_state tick_trace].
  - rewrite sells_follow_buys_pauseWait, sentBuys_pauseWait. done.
  - rewrite sells_follow_buys_app, sells_follow_buys_pauseWait.
    rewrite sentBuys_app, sentBuys_pauseWait. done.
  - rewrite sells_follow_buys_app, sells_follow_buys_pauseWait.
    rewrite sentBuys_app, sentBuys_pauseWait. done.
  - pose proof (afterBuy_frame w ta tb s1) as (_ & _ & _ & _ & _ & _ & _ & Hm2).
    destruct (afterBuy_inv cfg s1 w ta tb Hinv1 Hw) as [Hinv2 _].
    pose proof (sellTrigger_events w (o_sells o) (afterBuy w ta tb s1) g2) as Hseq.
    destruct (sellTrigger w (o_sells o) (afterBuy w ta tb s1) g2) as [[s4 g3] evs] eqn:Hst.
    apply sellTrigger_spec with (cfg := cfg) in Hst
      as (_ & _ & _ & _ & Hso & Hev & _); [|done].
    cbn [fst snd] in *.
    assert (forall k, k ∈ (successfulBuyWallets (books (afterBuy w ta tb s1))).*1 ->
              k ∈ wi_pubKey w :: bought) as Hheld2.
    { intros k. rewrite Hm2, JsMap_set_keys, elem_of_cons. intros [->|?]; auto. }
    rewrite sells_follow_buys_app, sells_follow_buys_pauseWait.
    rewrite sentBuys_app, sentBuys_pauseWait.
    change (sentBuys (EvSleep d :: EvBuy (wi_pubKey w) a true :: evs))
      with (wi_pubKey w :: sentBuys evs).
    rewrite (sentBuys_sell_sequence evs Hseq).
    change (reverse [] ++ bought) with bought.
    change (reverse ([] ++ [wi_pubKey w]) ++ bought) with (wi_pubKey w :: bought).
    cbn [andb sells_follow_buys].
    split.
    + apply sells_follow_buys_sell_sequence; [done|].
      intros k (b & Hin)%elem_of_soldKeys. destruct (Hev _ _ Hin) as [[? _] _]. auto.
    + intros k (kv & -> & Hkv)%list_elem_of_fmap. apply Hheld2.
      apply list_elem_of_fmap_2. by apply Hso.
Qed.

Lemma run_sells_follow_buys (cfg : config) (os : list oracle) :
  forall s bought, session_inv cfg s ->
  (forall k, k ∈ (successfulBuyWallets (books s)).*1 -> k ∈ bought) ->
  sells_follow_buys bought (tick_trace (run cfg os s)) = true.
Proof.
  induction os as [|o os IH]; intros s bought Hinv Hheld; [done|].
  rewrite run_cons.
  destruct (tick_sells_follow_buys cfg o s bought Hinv Hheld) as [Ht Hheld1].
  pose proof (proj1 (tick_spec cfg o s Hinv)) as Hinv1.
  destruct (tick cfg o s) as [s1 tr|s1 tr]; cbn [tick_state tick_trace] in *; [|done].
  specialize (IH s1 _ Hinv1 Hheld1).
  destruct (run cfg os s1) as [s2 tr2|s2 tr2]; cbn [tick_state tick_trace] in *;
    by rewrite sells_follow_buys_app, Ht, IH.
Qed.

(** X2: along a run every sell attempt is for a wallet for which an earlier
    buy of the run obtained a signature: the loop never tries to sell from
    a wallet it has not bought with. *)
Theorem humanbuy_sells_follow_buys (cfg : config) (g : rng) (os : list oracle) :
  sells_follow_buys [] (tick_trace (humanbuy cfg g os)) = true.
Proof.
  unfold humanbuy. apply run_sells_follow_buys; [apply initSession_inv|].
  cbn. by intros k ?%elem_of_nil.
Qed.

(** ** How often a wallet buys *)

Lemma occurrences_app (k : string) (l l' : list string) :
  occurrences k (l ++ l') = (occurrences k l + occurrences k l')%nat.
Proof. unfold occurrences. by rewrite filter_app, length_app. Qed.

Lemma occurrences_take_le (k : string) (n : nat) (l : list string) :
  (occurrences k (take n l) <= occurrences k l)%nat.
Proof. rewrite <- (take_drop n l) at 2. rewrite occurrences_app. lia. Qed.

Lemma occurrences_singleton (k k' : string) :
  occurrences k [k'] = if decide (k' = k) then 1%nat else 0%nat.
Proof. unfold occurrences. rewrite filter_cons. by case_decide. Qed.

Lemma buysOf_app (k : string) (tr tr' : list event) :
  buysOf k (tr ++ tr') = (buysOf k tr + buysOf k tr')%nat.
Proof. unfold buysOf. by rewrite sentBuys_app, occurrences_app. Qed.

Lemma buy_budget_ext (cfg : config) (bought bought' : string -> nat) (s : session) :
  (forall k, bought k = bought' k) -> buy_budget cfg bought s -> buy_budget cfg bought' s.
Proof.
  intros E [(H1 & H2 & H3)|(H1 & H2 & H3)]; [left|right]; split_and!; try done;
    intros k; rewrite <- E; apply H3.
Qed.

Lemma afterBuy_counts (w : walletInfo) ta tb (s : session) :
  rebuyCountMap (afterBuy w ta tb s)
  = match wi_rebuy w with
    | Some c => <[wi_pubKey w := c]> (rebuyCountMap s)
    | None => rebuyCountMap s
    end.
Proof. unfold afterBuy, recordBuy. by destruct (wi_rebuy w). Qed.

Lemma refresh_budget (cfg : config) (o : oracle) (s : session) g bought :
  session_inv cfg s -> buy_budget cfg bought s ->
  buy_budget cfg bought (refresh cfg o s g).1.
Proof.
  intros (Hwf & _) Hb. unfold refresh.
  destruct (decide (length (walletCycle s) <= walletCyclePosition s)%nat); [|done].
  destruct (refreshCycle _ _ _ _ _ _ _) as [[cycle bl'] g1] eqn:Href.
  apply refreshCycle_spec in Href as (_ & _ & _ & new & Hnew & Hnd & Hfa); [|apply Hwf].
  cbn in Hnew. subst new.
  assert (forall k, Z.of_nat (bought k)
                    <= Z.of_nat (occurrences k (selectedKeys cfg)) + rebuyCount s k) as Hbudget.
  { destruct Hb as [(_ & Hc & Hb)|(_ & _ & Hb)]; [|done].
    intros k. specialize (Hb k).
    pose proof (occurrences_take_le k (walletCyclePosition s) (selectedKeys cfg)).
    unfold rebuyCount. rewrite Hc, rebuyCountOf_empty. lia. }
  assert (Forall (fun w => wi_rebuy w = Some (rebuyCountOf (rebuyCountMap s) (wi_pubKey w) + 1))
                 cycle) as Hfa'.
  { eapply Forall_impl; [exact Hfa|]. cbn. tauto. }
  right. destruct (decide (length cycle = 0%nat)); cbn [fst]; split_and!; try done.
  - unfold remainingCycle. cbn. rewrite drop_nil. constructor.
  - unfold remainingCycle. cbn. rewrite drop_nil. constructor.
  - unfold remainingCycle. cbn. by rewrite shuffle_Permutation.
  - unfold remainingCycle. cbn. by rewrite shuffle_Permutation.
Qed.

Lemma tick_budget (cfg : config) (o : oracle) (s : session) bought :
  session_inv cfg s -> buy_budget cfg bought s ->
  buy_budget cfg (fun k => (bought k + buysOf k (tick_trace (tick cfg o s)))%nat)
             (tick_state (tick cfg o s)).
Proof.
  intros Hinv Hb.
  pose proof (refresh_budget cfg o s (o_rng o) bought Hinv Hb) as Hb1.
  destruct (refresh cfg o s (o_rng o)) as [s1 og] eqn:Href. cbn [fst] in Hb1.
  pose proof (tick_cases cfg o s) as Hc. cbn zeta in Hc. rewrite Href in Hc.
  cbn [fst snd] in Hc.
  assert (forall k n, buysOf k (pauseWait n) = 0%nat) as Hpolls.
  { intros k n. unfold buysOf. by rewrite sentBuys_pauseWait. }
  destruct Hc as [[-> _]|(g & w & d & _ & Hw & _ & Hc)]; cbn [tick_state tick_trace].
  { eapply buy_budget_ext; [|exact Hb1]. intros k. rewrite Hpolls. lia. }
  (* the state after the entry has been read and skipped *)
  assert (buy_budget cfg bought (afterSkip s1)) as Hskip.
  { destruct Hb1 as [(Hcy & Hcounts & Hbud)|(Hfa & Hnd & Hbud)]; [left|right].
    - split_and!; try done. intros k. specialize (Hbud k).
      change (walletCyclePosition (afterSkip s1)) with (S (walletCyclePosition s1)).
      assert (selectedKeys cfg !! walletCyclePosition s1 = Some (wi_pubKey w)) as Hk.
      { unfold selectedKeys. by rewrite list_lookup_fmap, <- Hcy, Hw. }
      rewrite (take_S_r _ _ _ Hk), occurrences_app. lia.
    - unfold remainingCycle in *. rewrite (drop_S _ _ _ Hw) in Hfa, Hnd.
      apply Forall_cons in Hfa as [_ Hfa]. cbn in Hnd. apply NoDup_cons in Hnd as [_ Hnd].
      split_and!; done. }
  destruct Hc as [[-> _]|[(a & -> & _)|(a & ta & tb & g2 & -> & _)]];
    cbn [tick_state tick_trace].
  - eapply buy_budget_ext; [|exact Hskip]. intros k. rewrite buysOf_app, Hpolls. cbn. lia.
  - eapply buy_budget_ext; [|exact Hskip]. intros k. rewrite buysOf_app, Hpolls. cbn. lia.
  - pose proof (sellTrigger_frame w (o_sells o) (afterBuy w ta tb s1) g2)
      as (Hc4 & _ & _ & _ & Hcy4 & Hpos4).
    pose proof (sellTrigger_events w (o_sells o) (afterBuy w ta tb s1) g2) as Hseq.
    destruct (sellTrigger w (o_sells o) (afterBuy w ta tb s1) g2) as [[s4 g3] evs].
    cbn [fst snd] in *.
    pose proof (afterBuy_frame w ta tb s1) as (_ & _ & _ & _ & Hcy2 & Hpos2 & _).
    pose proof (afterBuy_counts w ta tb s1) as Hc2.
    assert (forall k, buysOf k (pauseWait (o_pausedReads o)
                                 ++ EvSleep d :: EvBuy (wi_pubKey w) a true :: evs)
                      = if decide (wi_pubKey w = k) then 1%nat else 0%nat) as Hbuys.
    { intros k. rewrite buysOf_app, Hpolls. unfold buysOf.
      change (sentBuys (EvSleep d :: EvBuy (wi_pubKey w) a true :: evs))
        with (wi_pubKey w :: sentBuys evs).
      rewrite (sentBuys_sell_sequence evs Hseq). by rewrite occurrences_singleton. }
    destruct Hb1 as [(Hcy & Hcounts & Hbud)|(Hfa & Hnd & Hbud)]; [left|right].
    + assert (wi_rebuy w = None) as Hnone.
      { rewrite Hcy in Hw. unfold selectedWallets in Hw.
        rewrite list_lookup_fmap in Hw. destruct (selected cfg !! _); by simplify_eq/=. }
      rewrite Hnone in Hc2.
      split_and!; [congruence|congruence|].
      intros k. rewrite Hbuys, Hpos4, Hpos2. specialize (Hbud k).
      assert (selectedKeys cfg !! walletCyclePosition s1 = Some (wi_pubKey w)) as Hk.
      { unfold selectedKeys. by rewrite list_lookup_fmap, <- Hcy, Hw. }
      rewrite (take_S_r _ _ _ Hk), occurrences_app, occurrences_singleton. lia.
    + unfold remainingCycle in *. rewrite Hcy4, Hpos4, Hcy2, Hpos2.
      rewrite (drop_S _ _ _ Hw) in Hfa, Hnd.
      apply Forall_cons in Hfa as [Hw0 Hfa]. cbn in Hnd. apply NoDup_cons in Hnd as [Hnin Hnd].
      rewrite Hw0 in Hc2.
      assert (forall k, rebuyCount s4 k
                = if decide (wi_pubKey w = k) then rebuyCount s1 k + 1 else rebuyCount s1 k)
        as Hcount.
      { intros k. unfold rebuyCount. rewrite Hc4, Hc2, rebuyCountOf_insert.
        case_decide; by subst. }
      split_and!; [|done|].
      * rewrite Forall_forall in Hfa. apply Forall_forall. intros w' Hw'.
        rewrite Hcount, decide_False; [by apply Hfa|].
        intros Heq. apply Hnin. rewrite Heq. by apply list_elem_of_fmap_2.
      * intros k. rewrite Hbuys, Hcount. specialize (Hbud k). case_decide; lia.
Qed.

Lemma run_budget (cfg : config) (os : list oracle) :
  forall s bought, session_inv cfg s -> buy_budget cfg bought s ->
  buy_budget cfg (fun k => (bought k + buysOf k (tick_trace (run cfg os s)))%nat)
             (tick_state (run cfg os s)).
Proof.
  induction os as [|o os IH]; intros s bought Hinv Hb.
  { cbn. eapply buy_budget_ext; [|exact Hb]. intros k. unfold buysOf. cbn. lia. }
  rewrite run_cons.
  pose proof (tick_budget cfg o s bought Hinv Hb) as Ht.
  pose proof (proj1 (tick_spec cfg o s Hinv)) as Hinv1.
  destruct (tick cfg o s) as [s1 tr|s1 tr]; cbn [tick_state tick_trace] in *; [|done].
  specialize (IH s1 _ Hinv1 Ht).
  destruct (run cfg os s1) as [s2 tr2|s2 tr2]; cbn [tick_state tick_trace] in *;
    (eapply buy_budget_ext; [|exact IH]); intros k; rewrite buysOf_app; lia.
Qed.

(** X3: along a run a wallet buys (with a signature obtained) at most once
    for each of its entries in the selection, plus once for each rebuy
    counted for it, and no more than [MAX_REBUY_COUNT] rebuys are ever
    counted: a wallet selected once buys at most eleven times. *)
Theorem humanbuy_buys_per_wallet_bounded (cfg : config) (g : rng) (os : list oracle)
    (k : string) :
  Z.of_nat (buysOf k (tick_trace (humanbuy cfg g os)))
  <= Z.of_nat (occurrences k (selectedKeys cfg))
     + rebuyCount (tick_state (humanbuy cfg g os)) k /\
  rebuyCount (tick_state (humanbuy cfg g os)) k <= MAX_REBUY_COUNT.
Proof.
  unfold humanbuy.
  assert (buy_budget cfg (fun _ => 0%nat) (initSession cfg g)) as H0.
  { left. split_and!; try done; intros k'; lia. }
  pose proof (run_budget cfg os _ _ (initSession_inv cfg g) H0) as Hb.
  pose proof (proj1 (run_spec cfg os _ (initSession_inv cfg g))) as (_ & _ & Hrange & _).
  split; [|apply Hrange].
  destruct Hb as [(_ & Hc & Hb)|(_ & _ & Hb)]; specialize (Hb k); cbn in Hb; [|lia].
  pose proof (occurrences_take_le k
    (walletCyclePosition (tick_state (run cfg os (initSession cfg g)))) (selectedKeys cfg)).
  unfold rebuyCount. rewrite Hc, rebuyCountOf_empty. lia.
Qed.

(** ** Iterations that skip their wallet *)

(** X11: an iteration whose balance check reports at most 0.05 SOL (the
    answer is 0 when the balance could not be read) attempts no trade: it
    leaves the buy counter and the two containers as they are and counts
    the wallet as skipped, unless the refresh ends the run first. *)
Theorem tick_skips_low_or_unreadable_balance (cfg : config) (o : oracle) (s : session)
    (getBalance : result Z) :
  o_balance o = bc_balance (checkWalletBalance getBalance (Finite 0) minKeepAmount_default) ->
  (forall lamports, getBalance = Ok lamports -> lamports <= 50000000) ->
  Forall (fun e => is_trade e = false) (tick_trace (tick cfg o s)) /\
  buyCounter (tick_state (tick cfg o s)) = buyCounter s /\
  books (tick_state (tick cfg o s)) = books s /\
  (is_stop (tick cfg o s) = false ->
   skippedWallets (tick_state (tick cfg o s)) = skippedWallets s + 1).
Proof.
  intros Hbal Hlow.
  assert (Qle_bool (o_balance o) (Double.round 0.05) = true) as Hskip.
  { rewrite Hbal. unfold checkWalletBalance. destruct getBalance as [lamports|];
      [|by vm_compute].
    cbn [bc_balance]. apply Qle_bool_iff. specialize (Hlow lamports eq_refl).
    eapply Qle_trans; [apply (walletBalanceSol_mono _ 50000000 Hlow)|]. qcompute. }
  pose proof (refresh_frame cfg o s (o_rng o)) as (Hbooks & _ & Hbc & _ & Hsk).
  cbn zeta in *.
  assert (Forall (fun e => is_trade e = false) (pauseWait (o_pausedReads o))) as Hpolls.
  { apply Forall_forall. intros e [[p ->]| ->]%pauseWait_events; done. }
  pose proof (tick_cases cfg o s) as Hc. cbn zeta in Hc.
  destruct Hc as [[-> _]|(g & w & d & _ & Hw & _ & [[-> _]|[(a & _ & ? & _)|(a & ta & tb & g2 & _ & ? & _)]])];
    try congruence; cbn [tick_state tick_trace is_stop].
  - done.
  - split_and!; try done.
    + rewrite Forall_app. split; [done|]. by repeat constructor.
    + intros _. cbn. lia.
Qed.

Lemma tick_skips_low_or_unreadable_balance_witness :
  o_balance demo_tick_unreadable
  = bc_balance (checkWalletBalance (Throw "timeout") (Finite 0) minKeepAmount_default) /\
  Forall (fun e => is_trade e = false) (tick_trace (tick demo_cfg demo_tick_unreadable demo_init)) /\
  buyCounter (tick_state (tick demo_cfg demo_tick_unreadable demo_init)) = buyCounter demo_init /\
  books (tick_state (tick demo_cfg demo_tick_unreadable demo_init)) = books demo_init.
Proof.
  assert (o_balance demo_tick_unreadable
          = bc_balance (checkWalletBalance (Throw "timeout") (Finite 0) minKeepAmount_default)) as H
    by reflexivity.
  destruct (tick_skips_low_or_unreadable_balance demo_cfg demo_tick_unreadable demo_init
              (Throw "timeout") H) as (H1 & H2 & H3 & _); [discriminate|].
  split; [exact H|]. split; [exact H1|]. split; [exact H2|exact H3].
Defined.

(** ** The pause key *)

Lemma onData_snoc (chunks : list string) (str : string) (isPaused : bool) :
  onData (chunks ++ [str]) isPaused = onKeyPress str (onData chunks isPaused).
Proof. unfold onData. by rewrite foldl_snoc. Qed.

(** X23: the pause flag after any input is its initial value, flipped once
    for each chunk that is exactly ["/"]: no other chunk changes it, and
    two slashes delivered in one chunk do not toggle it. *)
Theorem onData_parity (chunks : list string) (isPaused : bool) :
  onData chunks isPaused
  = xorb isPaused (Nat.odd (length (filter (fun str => str = "/"%string) chunks))).
Proof.
  induction chunks as [|str chunks IH] using rev_ind.
  { by destruct isPaused. }
  rewrite onData_snoc, IH, filter_app, length_app. unfold onKeyPress.
  rewrite filter_cons, filter_nil. case_decide; cbn [length].
  - rewrite Nat.add_1_r, Nat.odd_succ, <- Nat.negb_odd.
    by destruct isPaused, (Nat.odd _).
  - by rewrite Nat.add_0_r.
Qed.

(** ** The sell of the recent buyers *)

Lemma mostRecentBlockTime_nonneg (sigInfos : list sigInfo) :
  0 <= mostRecentBlockTime sigInfos.
Proof.
  unfold mostRecentBlockTime.
  assert (forall most0, 0 <= most0 -> 0 <= foldl blockTimeStep most0 sigInfos) as H;
    [|apply H; lia].
  induction sigInfos as [|sig sigInfos IH]; intros most0 H0; [done|].
  cbn [foldl]. apply IH. unfold blockTimeStep.
  destruct (if si_blockTime sig =? 0 then _ else _) as [bt|]; [|done].
  destruct (Z.ltb_spec most0 bt); destruct (bt =? 0); cbn; lia.
Qed.

Lemma scanWallet_Some (w : walletScan) (b : recentBuyer) :
  scanWallet w = Some b ->
  rb_pubKey b = ws_pubKey w /\ (0 < rb_tokenBalance b)%Q /\ 0 < rb_blockTime b.
Proof.
  unfold scanWallet. intros H.
  repeat case_match; simplify_eq; cbn [rb_pubKey rb_tokenBalance rb_blockTime].
  split; [done|]. split.
  - apply Qnot_le_lt. intros Hle%Qle_bool_iff. congruence.
  - match goal with |- 0 < mostRecentBlockTime ?l =>
      pose proof (mostRecentBlockTime_nonneg l) end.
    match goal with H : (_ =? 0) = false |- _ => apply Z.eqb_neq in H end. lia.
Qed.

Lemma insertByBlockTime_Permutation (x : recentBuyer) (l : list recentBuyer) :
  insertByBlockTime x l ≡ₚ x :: l.
Proof.
  induction l as [|y l IH]; [done|]. cbn. case_match; [done|].
  rewrite IH. apply perm_swap.
Qed.

Lemma insertByBlockTime_sorted (x : recentBuyer) (l : list recentBuyer) :
  StronglySorted (fun a b => rb_blockTime b <= rb_blockTime a) l ->
  StronglySorted (fun a b => rb_blockTime b <= rb_blockTime a) (insertByBlockTime x l).
Proof.
  induction 1 as [|y l Hl IH Hy]; cbn.
  { repeat constructor. }
  destruct (Z.ltb_spec (rb_blockTime y) (rb_blockTime x)).
  - constructor; [by constructor|]. constructor; [lia|].
    eapply Forall_impl; [exact Hy|]. cbn. intros; lia.
  - constructor; [done|]. rewrite insertByBlockTime_Permutation.
    constructor; [lia|done].
Qed.

Lemma sortByBlockTime_spec (l : list recentBuyer) :
  sortByBlockTime l ≡ₚ l /\
  StronglySorted (fun a b => rb_blockTime b <= rb_blockTime a) (sortByBlockTime l).
Proof.
  unfold sortByBlockTime.
  induction l as [|x l [IH1 IH2]] using rev_ind; [split; [done|constructor]|].
  rewrite foldl_snoc. split.
  - rewrite insertByBlockTime_Permutation, IH1. by rewrite Permutation_cons_append.
  - by apply insertByBlockTime_sorted.
Qed.

(** X24: the hot key [=] sells from at most three wallets; each of them holds
    tokens of the coin and has a known time of last activity; they are in
    the order of that time, latest first, and no wallet that was found
    selling-worthy and left out was active later than one that is sold. *)
Theorem recentBuyers_latest_three (wallets : list walletScan) :
  (length (recentBuyers wallets) <= 3)%nat /\
  Forall (fun b => (0 < rb_tokenBalance b)%Q /\ 0 < rb_blockTime b
                   /\ rb_pubKey b ∈ ws_pubKey <$> wallets)
         (recentBuyers wallets) /\
  StronglySorted (fun a b => rb_blockTime b <= rb_blockTime a) (recentBuyers wallets) /\
  exists rest,
    recentBuyers wallets ++ rest ≡ₚ omap scanWallet wallets /\
    forall a b, a ∈ recentBuyers wallets -> b ∈ rest -> rb_blockTime b <= rb_blockTime a.
Proof.
  unfold recentBuyers.
  destruct (sortByBlockTime_spec (omap scanWallet wallets)) as [Hperm Hsorted].
  rewrite <- (take_drop 3 (sortByBlockTime (omap scanWallet wallets))) in Hperm, Hsorted.
  apply StronglySorted_app in Hsorted as (Hcross & Hs1 & _).
  split_and!.
  - rewrite length_take. lia.
  - apply Forall_forall. intros b Hb.
    assert (b ∈ omap scanWallet wallets) as Hin.
    { rewrite <- Hperm, elem_of_app. by left. }
    apply list_elem_of_omap in Hin as (w & Hw & Hscan).
    destruct (scanWallet_Some w b Hscan) as (Hpk & ? & ?).
    split_and!; try done. rewrite Hpk. by apply list_elem_of_fmap_2.
  - done.
  - exists (drop 3 (sortByBlockTime (omap scanWallet wallets))). split; [done|].
    intros a b Ha Hb. by apply Hcross.
Qed.

(** ** [simpleBuy.js]: amounts *)



(** ** [simpleBuy.js]: the patched token amount *)

Lemma le_value_le_bytes (n : nat) (value : Z) :
  SimpleBuy.le_value (SimpleBuy.le_bytes n value) = value mod 256 ^ Z.of_nat n.
Proof.
  revert value. induction n as [|n IH]; intros value.
  { cbn. by rewrite Z.mod_1_r. }
  cbn [SimpleBuy.le_bytes SimpleBuy.le_value foldr].
  fold (SimpleBuy.le_value (SimpleBuy.le_bytes n (value / 256))). rewrite IH.
  rewrite Nat2Z.inj_succ, Z.pow_succ_r by lia.
  rewrite Z.rem_mul_r by lia. done.
Qed.

Lemma length_le_bytes (n : nat) (value : Z) : length (SimpleBuy.le_bytes n value) = n.
Proof. revert value. induction n as [|n IH]; intros value; cbn; [done|]. by rewrite IH. Qed.

(** X26: patching the token amount into the buy instruction and reading it
    back gives the amount written, whenever the instruction data has its
    sixteen bytes and the amount fits 64 bits; the opcode bytes before and
    the cost bytes behind are untouched, and the scaling factor is 1.  With
    an estimate of zero the division that computes the scaling factor
    raises, and an estimate outside of 64 bits makes the write raise. *)
Theorem patchTokenAmount_round_trip (pumpData : list Z) (estimatedTokensHuman : Z) :
  (16 <= length pumpData)%nat ->
  (0 < estimatedTokensHuman < 2 ^ 64 ->
   exists patched,
     SimpleBuy.patchTokenAmount pumpData estimatedTokensHuman = Ok (patched, 1) /\
     SimpleBuy.readBigUInt64LE patched 8 = Ok estimatedTokensHuman /\
     length patched = length pumpData /\
     take 8 patched = take 8 pumpData /\ drop 16 patched = drop 16 pumpData) /\
  (estimatedTokensHuman <= 0 \/ 2 ^ 64 <= estimatedTokensHuman ->
   exists msg, SimpleBuy.patchTokenAmount pumpData estimatedTokensHuman = Throw msg).
Proof.
  intros Hlen. unfold SimpleBuy.patchTokenAmount, SimpleBuy.writeBigUInt64LE.
  set (patched := SimpleBuy.copy (SimpleBuy.le_bytes 8 estimatedTokensHuman) pumpData 8).
  assert (patched = take 8 pumpData ++ SimpleBuy.le_bytes 8 estimatedTokensHuman
                    ++ drop 16 pumpData) as Hpatched.
  { subst patched. unfold SimpleBuy.copy. rewrite length_le_bytes.
    rewrite (take_ge (SimpleBuy.le_bytes 8 estimatedTokensHuman))
      by (rewrite length_le_bytes; lia). done. }
  assert (length patched = length pumpData) as Hlenp.
  { rewrite Hpatched, !length_app, length_take, length_drop, length_le_bytes. lia. }
  assert (take 8 (drop 8 patched) = SimpleBuy.le_bytes 8 estimatedTokensHuman) as Hread.
  { rewrite Hpatched, drop_app_length' by (rewrite length_take; lia).
    rewrite take_app_length' by (by rewrite length_le_bytes). done. }
  assert (SimpleBuy.readBigUInt64LE patched 8 = Ok (estimatedTokensHuman mod 2 ^ 64)) as Hrd.
  { unfold SimpleBuy.readBigUInt64LE. rewrite decide_True by lia.
    by rewrite Hread, le_value_le_bytes. }
  split.
  - intros [H0 H64].
    destruct (Z.leb_spec 0 estimatedTokensHuman); [|lia].
    destruct (Z.ltb_spec estimatedTokensHuman (2 ^ 64)); [|lia].
    cbn [andb mbind result_bind]. fold patched. rewrite Hrd.
    rewrite Z.mod_small by lia. cbn [mbind result_bind]. unfold BN.div.
    destruct (Z.eqb_spec estimatedTokensHuman 0); [lia|].
    rewrite Z.quot_same by lia.
    exists patched. split; [done|]. split; [by rewrite Hrd, Z.mod_small by lia|].
    split; [done|]. split.
    + rewrite Hpatched. by rewrite take_app_length' by (rewrite length_take; lia).
    + rewrite Hpatched, app_assoc.
      by rewrite drop_app_length' by (rewrite length_app, length_take, length_le_bytes; lia).
  - intros [Hle|Hge].
    + destruct (Z.eq_dec estimatedTokensHuman 0) as [->|Hne].
      * cbn [Z.leb Z.ltb andb mbind result_bind]. fold patched.
        change ((0 <=? 0) && (0 <? 2 ^ 64)) with true. cbn [mbind result_bind].
        fold patched. rewrite Hrd. cbn. eauto.
      * destruct (Z.leb_spec 0 estimatedTokensHuman); [lia|]. cbn. eauto.
    + destruct (Z.ltb_spec estimatedTokensHuman (2 ^ 64)); [lia|].
      rewrite andb_false_r. cbn. eauto.
Qed.

Lemma patchTokenAmount_round_trip_witness :
  (16 <= length (replicate 24 0))%nat /\
  exists patched,
    SimpleBuy.patchTokenAmount (replicate 24 0) 34612903225 = Ok (patched, 1) /\
    SimpleBuy.readBigUInt64LE patched 8 = Ok 34612903225 /\
    length patched = length (replicate 24 0) /\
    take 8 patched = take 8 (replicate 24 0) /\
    drop 16 patched = drop 16 (replicate 24 0).
Proof.
  assert (16 <= length (replicate 24 0))%nat as H by (vm_compute; lia).
  split; [exact H|].
  apply (proj1 (patchTokenAmount_round_trip (replicate 24 0) 34612903225 H)).
  split; reflexivity.
Defined.

(** ** The menu entry that starts [humanbuy] *)

Lemma selectSpecificWallets_nonempty {A} (walletList : list A) (indices : option (list Z)) :
  walletList <> [] -> selectSpecificWallets walletList indices <> [].
Proof.
  intros Hne. unfold selectSpecificWallets.
  assert (match walletList with w :: _ => [w] | [] => [] end <> []) as Hfirst.
  { by destruct walletList. }
  destruct indices as [[|idx0 indices]|]; [done| |done].
  set (valid := filter _ _). case_decide as Hlen; [done|].
  intros Hnil. destruct (firstOccurrences valid) as [|idx rest] eqn:E; [done|].
  assert (idx ∈ valid) as [Hv _]%list_elem_of_filter.
  { apply elem_of_firstOccurrences. rewrite E. by left. }
  destruct (lookup_lt_is_Some_2 walletList (Z.to_nat (idx - 1))) as [w Hw]; [lia|].
  cbn in Hnil. by rewrite Hw in Hnil.
Qed.

(** X27: the menu starts [humanbuy] exactly when the two delays it read
    satisfy [0 <= minDelay <= maxDelay]; for any other answers the promised
    defaults are never used, because assigning them raises.  The selection
    it passes asks for at least one random wallet or for a non-empty list
    of indices from 1 on, so with a non-empty wallet file the loop always
    gets at least one wallet. *)
Theorem handleBuyMenu_humanbuy_arguments (selectionMethod : string) (numWallets : option Z)
    (walletIndices : list (option Z)) (maxDelay minDelay : option Z) :
  match handleBuyMenu_humanbuy selectionMethod numWallets walletIndices maxDelay minDelay with
  | Ok args =>
      maxDelay = Some (ha_maxDelay args) /\ minDelay = Some (ha_minDelay args) /\
      0 <= ha_minDelay args <= ha_maxDelay args /\
      ((sel_type (ha_walletSelection args) = "random"%string /\
        exists count, sel_count (ha_walletSelection args) = Some count /\ 1 <= count) \/
       (sel_type (ha_walletSelection args) = "specific"%string /\
        exists indices, sel_indices (ha_walletSelection args) = Some indices /\
          indices <> [] /\ Forall (fun idx => 1 <= idx) indices)) /\
      forall wallet allWallets g,
        selected (humanbuy_config (wallet :: allWallets) (ha_walletSelection args)
                    (ha_maxDelay args) (ha_minDelay args) g).1 <> []
  | Throw _ =>
      ~ exists maxD minD,
          maxDelay = Some maxD /\ minDelay = Some minD /\ 0 <= minD <= maxD
  end.
Proof.
  unfold handleBuyMenu_humanbuy. set (sel := if decide (selectionMethod = _) then _ else _).
  assert ((sel_type sel = "random"%string /\
           exists count, sel_count sel = Some count /\ 1 <= count) \/
          (sel_type sel = "specific"%string /\
           exists indices, sel_indices sel = Some indices /\
             indices <> [] /\ Forall (fun idx => 1 <= idx) indices)) as Hsel.
  { subst sel. case_decide.
    { left. destruct numWallets as [n|]; [|by eauto with lia].
      destruct (Z.ltb_spec n 1); cbn; eauto with lia. }
    case_decide; [|left; cbn; eauto with lia].
    right. destruct (_ || _) eqn:Hbad; cbn.
    { split; [done|]. exists [1]. split_and!; [done|done|by repeat constructor]. }
    apply orb_false_iff in Hbad as [Hlen Hall]. apply bool_decide_eq_false in Hlen.
    split; [done|]. exists (omap id walletIndices). split; [done|].
    assert (forall idx, idx ∈ walletIndices -> exists i, idx = Some i /\ 1 <= i) as Hok.
    { intros idx Hin. apply list_elem_of_In in Hin.
      destruct idx as [i|].
      - exists i. split; [done|]. destruct (Z.ltb_spec i 1) as [Hlt|]; [|done].
        assert (existsb (fun idx => match idx with Some idx => idx <? 1 | None => true end)
                        walletIndices = true); [|congruence].
        apply existsb_exists. exists (Some i). split; [done|]. by apply Z.ltb_lt.
      - assert (existsb (fun idx => match idx with Some idx => idx <? 1 | None => true end)
                        walletIndices = true); [|congruence].
        apply existsb_exists. by exists None. }
    split.
    - destruct walletIndices as [|idx rest]; [done|].
      destruct (Hok idx ltac:(by left)) as (i & -> & _). done.
    - apply Forall_forall. intros i (idx & Hin & Hid)%list_elem_of_omap.
      destruct (Hok idx Hin) as (i' & -> & ?). cbn in Hid. by simplify_eq. }
  clearbody sel.
  destruct maxDelay as [maxD|], minDelay as [minD|];
    try (intros (? & ? & ? & ? & _); done).
  destruct (Z.ltb_spec maxD 0), (Z.ltb_spec minD 0), (Z.ltb_spec maxD minD);
    cbn [orb]; try (intros (? & ? & ? & ? & ?); simplify_eq; lia).
  cbn [ha_maxDelay ha_minDelay ha_walletSelection].
  split; [done|]. split; [done|]. split; [lia|]. split; [done|].
  intros wallet allWallets' g. set (allWallets := wallet :: allWallets').
  assert (allWallets <> []) as Hne by done. clearbody allWallets.
  unfold humanbuy_config, selectWalletsForTrading.
  assert (walletBuyAmounts allWallets <> []) as Hne'.
  { intros Hnil. apply (f_equal length) in Hnil.
    unfold walletBuyAmounts in Hnil. rewrite length_imap in Hnil.
    by destruct allWallets. }
  rewrite decide_False by (by destruct (walletBuyAmounts allWallets)).
  destruct Hsel as [[Hty (count & Hcount & Hc)]|[Hty _]].
  - rewrite decide_True by done.
    pose proof (proj2 (selectRandomWallets_spec (walletBuyAmounts allWallets)
                         (sel_count sel) g)) as Hlen.
    destruct (selectRandomWallets _ _ _) as [chosen g1]. cbn [fst selected] in *.
    intros ->. rewrite Hcount in Hlen. cbn in Hlen.
    destruct (Z.eqb_spec count 0); [lia|].
    assert (0 < length (walletBuyAmounts allWallets))%nat
      by (destruct (walletBuyAmounts allWallets); [done|cbn; lia]).
    lia.
  - rewrite decide_False by (rewrite Hty; done). cbn [fst selected].
    by apply selectSpecificWallets_nonempty.
Qed.
